(** * The Linux process backend of frida-gum

    [gum/backend-linux/gumprocess-linux.c].

    A shallow embedding of the thread-context broker, the CPU-context
    marshaller, the procfs-driven module and range enumerators and the ELF
    export resolver, followed by the properties proved of them.

    Conventions.
    - C integers are [Z] with the wrap-around of each conversion written out
      ([guint64], [guint32], [greg64], [greg32]).
    - A visitor callback [gboolean f (..., gpointer user_data)] is a function
      that takes the arguments and the user data and returns the
      continue/stop flag together with the new user data.
    - [g_assert] failures, traps and reads outside a mapping end the process:
      they are the [Abort] result.
    - The marshaller is embedded for both register banks; the broker and
      the ELF resolver in the [GLIB_SIZEOF_VOID_P == 8] configuration (the
      x86-64 bank, the [Elf64_*] types).
    - What the source leaves to the build or to a library it only calls is
      a parameter: how the compiled broker reaches its frame, what [atoi]
      and [g_path_get_basename] compute. *)

From Stdlib Require Import ZArith Lia String Ascii Bool.
From stdpp Require Import base option list strings.

Open Scope Z_scope.

(** * Part I: definitions *)

(** ** Machine integers *)

(** Conversion to an unsigned integer of [w] bits. *)
Definition to_unsigned (w x : Z) : Z := x mod 2 ^ w.

(** Conversion to a two's-complement signed integer of [w] bits. *)
Definition to_signed (w x : Z) : Z := (x + 2 ^ (w - 1)) mod 2 ^ w - 2 ^ (w - 1).

Definition guint64 : Z -> Z := to_unsigned 64.
Definition guint32 : Z -> Z := to_unsigned 32.
(** [greg_t] is [long long] on x86-64 and [int] on i386. *)
Definition greg64 : Z -> Z := to_signed 64.
Definition greg32 : Z -> Z := to_signed 32.

Definition is_guint64 (x : Z) : Prop := 0 <= x < 2 ^ 64.
Definition is_guint32 (x : Z) : Prop := 0 <= x < 2 ^ 32.
Definition is_greg64 (x : Z) : Prop := - 2 ^ 63 <= x < 2 ^ 63.
Definition is_greg32 (x : Z) : Prop := - 2 ^ 31 <= x < 2 ^ 31.

(** ** CPU-context marshaller, x86-64
    ([HAVE_I386 && GLIB_SIZEOF_VOID_P == 8]) *)

Module X86_64.

(** Modelled from the spec: the declaration of [GumCpuContext] (gumdefs.h) is
    not among the sources; the data model gives the x86-64 bank as
    {rip, r8..r15, rdi, rsi, rbp, rsp, rbx, rdx, rcx, rax}.  Every field is a
    [guint64]; the fields are listed in the order the marshaller assigns
    them. *)
Record GumCpuContext : Type := {
  rip : Z;
  r15 : Z; r14 : Z; r13 : Z; r12 : Z; r11 : Z; r10 : Z; r9 : Z; r8 : Z;
  rdi : Z; rsi : Z; rbp : Z; rsp : Z; rbx : Z; rdx : Z; rcx : Z; rax : Z
}.

(** The general-register file of the kernel's machine context:
    [uc->uc_mcontext.gregs], an array of [NGREG] [greg_t].  The other members
    of [ucontext_t] (signal mask, floating-point state, stack) are never
    touched by this file and are left out. *)
Record ucontext_t : Type := { gregs : list Z }.

(** The indices of [<sys/ucontext.h>] for x86-64. *)
Definition NGREG : nat := 23.
Definition REG_R8 : nat := 0.
Definition REG_R9 : nat := 1.
Definition REG_R10 : nat := 2.
Definition REG_R11 : nat := 3.
Definition REG_R12 : nat := 4.
Definition REG_R13 : nat := 5.
Definition REG_R14 : nat := 6.
Definition REG_R15 : nat := 7.
Definition REG_RDI : nat := 8.
Definition REG_RSI : nat := 9.
Definition REG_RBP : nat := 10.
Definition REG_RBX : nat := 11.
Definition REG_RDX : nat := 12.
Definition REG_RAX : nat := 13.
Definition REG_RCX : nat := 14.
Definition REG_RSP : nat := 15.
Definition REG_RIP : nat := 16.

(** [gr[i]] for an index inside the array. *)
Definition greg (gr : list Z) (i : nat) : Z := gr !!! i.

Definition gum_cpu_context_from_linux (uc : ucontext_t) : GumCpuContext :=
  let gr := gregs uc in
  {| rip := guint64 (greg gr REG_RIP);
     r15 := guint64 (greg gr REG_R15);
     r14 := guint64 (greg gr REG_R14);
     r13 := guint64 (greg gr REG_R13);
     r12 := guint64 (greg gr REG_R12);
     r11 := guint64 (greg gr REG_R11);
     r10 := guint64 (greg gr REG_R10);
     r9 := guint64 (greg gr REG_R9);
     r8 := guint64 (greg gr REG_R8);
     rdi := guint64 (greg gr REG_RDI);
     rsi := guint64 (greg gr REG_RSI);
     rbp := guint64 (greg gr REG_RBP);
     rsp := guint64 (greg gr REG_RSP);
     rbx := guint64 (greg gr REG_RBX);
     rdx := guint64 (greg gr REG_RDX);
     rcx := guint64 (greg gr REG_RCX);
     rax := guint64 (greg gr REG_RAX) |}.

Definition gum_cpu_context_to_linux (ctx : GumCpuContext) (uc : ucontext_t)
  : ucontext_t :=
  let gr := gregs uc in
  let gr := <[REG_RIP := greg64 (rip ctx)]> gr in
  let gr := <[REG_R15 := greg64 (r15 ctx)]> gr in
  let gr := <[REG_R14 := greg64 (r14 ctx)]> gr in
  let gr := <[REG_R13 := greg64 (r13 ctx)]> gr in
  let gr := <[REG_R12 := greg64 (r12 ctx)]> gr in
  let gr := <[REG_R11 := greg64 (r11 ctx)]> gr in
  let gr := <[REG_R10 := greg64 (r10 ctx)]> gr in
  let gr := <[REG_R9 := greg64 (r9 ctx)]> gr in
  let gr := <[REG_R8 := greg64 (r8 ctx)]> gr in
  let gr := <[REG_RDI := greg64 (rdi ctx)]> gr in
  let gr := <[REG_RSI := greg64 (rsi ctx)]> gr in
  let gr := <[REG_RBP := greg64 (rbp ctx)]> gr in
  let gr := <[REG_RSP := greg64 (rsp ctx)]> gr in
  let gr := <[REG_RBX := greg64 (rbx ctx)]> gr in
  let gr := <[REG_RDX := greg64 (rdx ctx)]> gr in
  let gr := <[REG_RCX := greg64 (rcx ctx)]> gr in
  let gr := <[REG_RAX := greg64 (rax ctx)]> gr in
  {| gregs := gr |}.

(** The registers the marshaller covers, as the fields of a context. *)
Definition covered (ctx : GumCpuContext) : list Z :=
  [rip ctx; r15 ctx; r14 ctx; r13 ctx; r12 ctx; r11 ctx; r10 ctx; r9 ctx;
   r8 ctx; rdi ctx; rsi ctx; rbp ctx; rsp ctx; rbx ctx; rdx ctx; rcx ctx;
   rax ctx].

(** A context whose fields are values of their C type. *)
Definition cpu_context_ok (ctx : GumCpuContext) : Prop :=
  Forall is_guint64 (covered ctx).

(** A machine context whose register file is an array of [NGREG] [greg_t]. *)
Definition ucontext_ok (uc : ucontext_t) : Prop :=
  length (gregs uc) = NGREG /\ Forall is_greg64 (gregs uc).

End X86_64.

(** ** CPU-context marshaller, i386 ([HAVE_I386 && GLIB_SIZEOF_VOID_P == 4]) *)

Module X86_32.

(** Modelled from the spec: the declaration of [GumCpuContext] (gumdefs.h) is
    not among the sources; the data model gives the x86-32 bank as
    {eip, edi, esi, ebp, esp, ebx, edx, ecx, eax}.  Every field is a
    [guint32]. *)
Record GumCpuContext : Type := {
  eip : Z;
  edi : Z; esi : Z; ebp : Z; esp : Z; ebx : Z; edx : Z; ecx : Z; eax : Z
}.

Record ucontext_t : Type := { gregs : list Z }.

(** The indices of [<sys/ucontext.h>] for i386. *)
Definition NGREG : nat := 19.
Definition REG_EDI : nat := 4.
Definition REG_ESI : nat := 5.
Definition REG_EBP : nat := 6.
Definition REG_ESP : nat := 7.
Definition REG_EBX : nat := 8.
Definition REG_EDX : nat := 9.
Definition REG_ECX : nat := 10.
Definition REG_EAX : nat := 11.
Definition REG_EIP : nat := 14.

Definition greg (gr : list Z) (i : nat) : Z := gr !!! i.

Definition gum_cpu_context_from_linux (uc : ucontext_t) : GumCpuContext :=
  let gr := gregs uc in
  {| eip := guint32 (greg gr REG_EIP);
     edi := guint32 (greg gr REG_EDI);
     esi := guint32 (greg gr REG_ESI);
     ebp := guint32 (greg gr REG_EBP);
     esp := guint32 (greg gr REG_ESP);
     ebx := guint32 (greg gr REG_EBX);
     edx := guint32 (greg gr REG_EDX);
     ecx := guint32 (greg gr REG_ECX);
     eax := guint32 (greg gr REG_EAX) |}.

Definition gum_cpu_context_to_linux (ctx : GumCpuContext) (uc : ucontext_t)
  : ucontext_t :=
  let gr := gregs uc in
  let gr := <[REG_EIP := greg32 (eip ctx)]> gr in
  let gr := <[REG_EDI := greg32 (edi ctx)]> gr in
  let gr := <[REG_ESI := greg32 (esi ctx)]> gr in
  let gr := <[REG_EBP := greg32 (ebp ctx)]> gr in
  let gr := <[REG_ESP := greg32 (esp ctx)]> gr in
  let gr := <[REG_EBX := greg32 (ebx ctx)]> gr in
  let gr := <[REG_EDX := greg32 (edx ctx)]> gr in
  let gr := <[REG_ECX := greg32 (ecx ctx)]> gr in
  let gr := <[REG_EAX := greg32 (eax ctx)]> gr in
  {| gregs := gr |}.

Definition covered (ctx : GumCpuContext) : list Z :=
  [eip ctx; edi ctx; esi ctx; ebp ctx; esp ctx; ebx ctx; edx ctx; ecx ctx;
   eax ctx].

Definition cpu_context_ok (ctx : GumCpuContext) : Prop :=
  Forall is_guint32 (covered ctx).

Definition ucontext_ok (uc : ucontext_t) : Prop :=
  length (gregs uc) = NGREG /\ Forall is_greg32 (gregs uc).

End X86_32.

(** ** Thread context broker ([gum_process_modify_thread]), x86-64

    One call of the broker, run by a thread of the process.  The caller is
    described by its thread id and by the registers [getcontext] captures for
    it; the other threads of the process by the machine context a signal
    handler run on them receives.  The cross-thread branch is embedded along
    the schedule the two busy-waits enforce: the target publishes, the
    requester visits, the target stores.  (The interleavings of several
    requesters are the subject of [Rendezvous] below.) *)

Module Broker.
Import X86_64.

Definition GumThreadId : Type := Z.

(** What a signal action designates as its handler. *)
Inductive sighandler : Type :=
| SIG_DFL
| SIG_IGN
| handler_at (address : Z)
| gum_do_modify_thread_handler.

Record sigaction_t : Type := {
  sa_sigaction : sighandler;
  sa_mask : list Z;
  sa_flags : Z
}.

Definition SA_SIGINFO : Z := 4.

(** The calls a run makes that are visible outside it. *)
Inductive event : Type :=
| ev_getcontext (uc : ucontext_t)
| ev_setcontext (uc : ucontext_t)
| ev_visit (thread_id : GumThreadId) (cpu_context : GumCpuContext)
| ev_lock
| ev_unlock
| ev_sigaction (action old_action : sigaction_t)
| ev_tgkill (thread_id : GumThreadId) (delivered : bool).

(** The process-global state the broker works on: the mutex of
    [G_LOCK_DEFINE_STATIC (gum_modify_thread)], the three volatile flags, the
    shared context buffer, the action installed for [GUM_HIJACK_SIGNAL] and
    the machine contexts of the other threads; [trace] logs the events. *)
Record state : Type := {
  lock_held : bool;
  did_load_cpu_context : bool;
  did_modify_cpu_context : bool;
  did_store_cpu_context : bool;
  cpu_context : GumCpuContext;
  hijack_action : sigaction_t;
  threads : GumThreadId -> option ucontext_t;
  trace : list event
}.

Definition set_lock_held (b : bool) (st : state) : state :=
  {| lock_held := b;
     did_load_cpu_context := did_load_cpu_context st;
     did_modify_cpu_context := did_modify_cpu_context st;
     did_store_cpu_context := did_store_cpu_context st;
     cpu_context := cpu_context st;
     hijack_action := hijack_action st;
     threads := threads st;
     trace := trace st |}.

Definition set_did_load (b : bool) (st : state) : state :=
  {| lock_held := lock_held st;
     did_load_cpu_context := b;
     did_modify_cpu_context := did_modify_cpu_context st;
     did_store_cpu_context := did_store_cpu_context st;
     cpu_context := cpu_context st;
     hijack_action := hijack_action st;
     threads := threads st;
     trace := trace st |}.

Definition set_did_modify (b : bool) (st : state) : state :=
  {| lock_held := lock_held st;
     did_load_cpu_context := did_load_cpu_context st;
     did_modify_cpu_context := b;
     did_store_cpu_context := did_store_cpu_context st;
     cpu_context := cpu_context st;
     hijack_action := hijack_action st;
     threads := threads st;
     trace := trace st |}.

Definition set_did_store (b : bool) (st : state) : state :=
  {| lock_held := lock_held st;
     did_load_cpu_context := did_load_cpu_context st;
     did_modify_cpu_context := did_modify_cpu_context st;
     did_store_cpu_context := b;
     cpu_context := cpu_context st;
     hijack_action := hijack_action st;
     threads := threads st;
     trace := trace st |}.

Definition set_cpu_context (c : GumCpuContext) (st : state) : state :=
  {| lock_held := lock_held st;
     did_load_cpu_context := did_load_cpu_context st;
     did_modify_cpu_context := did_modify_cpu_context st;
     did_store_cpu_context := did_store_cpu_context st;
     cpu_context := c;
     hijack_action := hijack_action st;
     threads := threads st;
     trace := trace st |}.

Definition set_hijack_action (a : sigaction_t) (st : state) : state :=
  {| lock_held := lock_held st;
     did_load_cpu_context := did_load_cpu_context st;
     did_modify_cpu_context := did_modify_cpu_context st;
     did_store_cpu_context := did_store_cpu_context st;
     cpu_context := cpu_context st;
     hijack_action := a;
     threads := threads st;
     trace := trace st |}.

Definition set_thread (tid : GumThreadId) (uc : ucontext_t) (st : state)
  : state :=
  {| lock_held := lock_held st;
     did_load_cpu_context := did_load_cpu_context st;
     did_modify_cpu_context := did_modify_cpu_context st;
     did_store_cpu_context := did_store_cpu_context st;
     cpu_context := cpu_context st;
     hijack_action := hijack_action st;
     threads := fun t => if Z.eqb t tid then Some uc else threads st t;
     trace := trace st |}.

Definition log (e : event) (st : state) : state :=
  {| lock_held := lock_held st;
     did_load_cpu_context := did_load_cpu_context st;
     did_modify_cpu_context := did_modify_cpu_context st;
     did_store_cpu_context := did_store_cpu_context st;
     cpu_context := cpu_context st;
     hijack_action := hijack_action st;
     threads := threads st;
     trace := trace st ++ [e] |}.

(** How the compiled body of [gum_process_modify_thread] reaches the locals
    of its activation ([uc], [modified]): relative to the stack pointer (a
    build that omits the frame pointer), relative to the frame pointer, or
    through both.  The source does not settle it. *)
Inductive frame_addressing : Type :=
| through_rsp
| through_rbp
| through_rsp_and_rbp.

Definition frame_registers (a : frame_addressing) : list nat :=
  match a with
  | through_rsp => [REG_RSP]
  | through_rbp => [REG_RBP]
  | through_rsp_and_rbp => [REG_RSP; REG_RBP]
  end.

(** The calling thread: what [syscall (SYS_gettid)] returns for it, the
    registers [getcontext] saves for it (the instruction pointer among them
    is the return address of that call), and how the code it runs reaches
    the frame of the call. *)
Record caller : Type := {
  self_id : GumThreadId;
  self_regs : ucontext_t;
  frame : frame_addressing
}.

(** The caller once a context has been resumed on it. *)
Definition resumed (regs : ucontext_t) (me : caller) : caller :=
  {| self_id := self_id me; self_regs := regs; frame := frame me |}.

(** What the kernel and the scheduler decide during one call: whether
    [tgkill] queues the signal for a thread that exists (it may refuse, for
    instance when the queue of real-time signals is full), and whether the
    target gets to run its handler. *)
Record kernel : Type := {
  tgkill_accepts : bool;
  target_runs : bool
}.

(** How a call ends.  [Returned]: the function returns [success]; [regs] is
    the machine context the calling thread was last resumed with, which is
    the context handed to [setcontext] in the same-thread branch and the
    caller's own in the cross-thread branch, where nothing is resumed.  (It
    is not the register file at the return: the return value travels in a
    register, and which registers [setcontext] reloads is the C library's
    business.)  [Diverted]: [setcontext] made the thread continue outside
    this activation, at another instruction or on another frame, so the call
    does not return to its caller.  [Blocked]: the mutex is held and [G_LOCK]
    waits.  [Spinning]: a busy-wait whose flag is never set (the
    "FIXME: timeout?" of the source). *)
Inductive outcome (U : Type) : Type :=
| Returned (success : bool) (regs : ucontext_t) (user_data : U) (st : state)
| Diverted (regs : ucontext_t) (user_data : U) (st : state)
| Blocked (st : state)
| Spinning (user_data : U) (st : state)
| OutOfFuel.
Arguments Returned {U}.
Arguments Diverted {U}.
Arguments Blocked {U}.
Arguments Spinning {U}.
Arguments OutOfFuel {U}.

(** [GumModifyThreadFunc]: [void f (GumThreadId, GumCpuContext *, gpointer)],
    which may rewrite the context in place and its user data. *)
Definition GumModifyThreadFunc (U : Type) : Type :=
  GumThreadId -> GumCpuContext -> U -> GumCpuContext * U.

Definition gum_process_get_current_thread_id (me : caller) : GumThreadId :=
  self_id me.

(** Where [setcontext (&uc)] (line 123) takes the thread.  The call is made
    whatever [uc] holds and does not return: the thread continues at the
    instruction pointer of [uc], with the registers of [uc].  That is the
    second return of the [getcontext] of this activation (line 113) when the
    instruction pointer is the one [getcontext] saved for [me] and the
    registers through which the code reaches its locals are those it saved;
    otherwise the thread continues somewhere else. *)
Definition setcontext_reenters (me : caller) (uc : ucontext_t) : bool :=
  (greg (gregs uc) REG_RIP =? greg (gregs (self_regs me)) REG_RIP)
  && forallb
       (fun i => greg (gregs uc) i =? greg (gregs (self_regs me)) i)
       (frame_registers (frame me)).

(** Lines 114-126, entered at each return of [getcontext (&uc)]: the
    registers of [me] are what the first return stored, [uc] and [modified]
    are the locals of the frame (memory, which [setcontext] does not
    restore).  [fuel] bounds the number of returns of [getcontext]. *)
Fixpoint after_getcontext {U : Type} (fuel : nat) (me : caller)
    (thread_id : GumThreadId) (func : GumModifyThreadFunc U) (modified : bool)
    (uc : ucontext_t) (user_data : U) (st : state) : outcome U :=
  if negb modified then
    let cpu_context := gum_cpu_context_from_linux uc in
    let st := log (ev_visit thread_id cpu_context) st in
    let '(cpu_context, user_data) := func thread_id cpu_context user_data in
    let uc := gum_cpu_context_to_linux cpu_context uc in
    let modified := true in
    (* setcontext (&uc) *)
    let st := log (ev_setcontext uc) st in
    if setcontext_reenters me uc then
      match fuel with
      | O => OutOfFuel
      | S fuel =>
          after_getcontext fuel me thread_id func modified uc user_data
            (log (ev_getcontext uc) st)
      end
    else Diverted uc user_data st
  else
    (* success = TRUE; return success *)
    Returned true uc user_data st.

(** [syscall (SYS_tgkill, getpid (), thread_id, GUM_HIJACK_SIGNAL)]: the
    machine context the signal interrupts, when the call returns 0. *)
Definition tgkill (k : kernel) (st : state) (thread_id : GumThreadId)
  : option ucontext_t :=
  match threads st thread_id with
  | Some uc => if tgkill_accepts k then Some uc else None
  | None => None
  end.

(** [gum_do_modify_thread] up to its busy-wait (lines 169-170). *)
Definition gum_do_modify_thread_load (uc : ucontext_t) (st : state) : state :=
  let st := set_cpu_context (gum_cpu_context_from_linux uc) st in
  set_did_load true st.

(** [gum_do_modify_thread] after its busy-wait (lines 173-174); on return
    from the handler the kernel resumes [thread_id] with the context stored.
    The buffer is read where line 173 reads it.  It is not [volatile]
    (line 92), so this is the reading of the source text, which a compiler
    need not keep; the theorems on a call that completes are stated for the
    visitor [gum_store_cpu_context], which leaves the buffer as the handler
    loaded it, and do not depend on it. *)
Definition gum_do_modify_thread_store (thread_id : GumThreadId)
    (uc : ucontext_t) (st : state) : state :=
  let uc := gum_cpu_context_to_linux (cpu_context st) uc in
  let st := set_thread thread_id uc st in
  set_did_store true st.

Definition gum_hijack_action : sigaction_t :=
  {| sa_sigaction := gum_do_modify_thread_handler;
     sa_mask := [];
     sa_flags := SA_SIGINFO |}.

(** Lines 141-152: [tgkill] and, when it returns 0, the exchange with the
    handler on the target; the result is [None] when a busy-wait never
    ends. *)
Definition rendezvous {U : Type} (k : kernel) (thread_id : GumThreadId)
    (func : GumModifyThreadFunc U) (user_data : U) (st : state)
  : option (bool * U * state) :=
  match tgkill k st thread_id with
  | Some target_uc =>
      let st := log (ev_tgkill thread_id true) st in
      (* the target enters the handler *)
      let st := if target_runs k
                then gum_do_modify_thread_load target_uc st else st in
      (* while (!gum_modify_thread_did_load_cpu_context) g_thread_yield (); *)
      if negb (did_load_cpu_context st) then None else
      let st := log (ev_visit thread_id (cpu_context st)) st in
      let '(ctx, user_data) := func thread_id (cpu_context st) user_data in
      let st := set_cpu_context ctx st in
      let st := set_did_modify true st in
      (* the target leaves its busy-wait *)
      let st := if target_runs k
                then gum_do_modify_thread_store thread_id target_uc st
                else st in
      (* while (!gum_modify_thread_did_store_cpu_context) g_thread_yield (); *)
      if negb (did_store_cpu_context st) then None else
      Some (true, user_data, st)
  | None =>
      Some (false, user_data, log (ev_tgkill thread_id false) st)
  end.

Definition gum_process_modify_thread {U : Type} (k : kernel) (fuel : nat)
    (me : caller) (thread_id : GumThreadId) (func : GumModifyThreadFunc U)
    (user_data : U) (st : state) : outcome U :=
  if thread_id =? gum_process_get_current_thread_id me then
    let uc := self_regs me in
    let modified := false in
    after_getcontext fuel me thread_id func modified uc user_data
      (log (ev_getcontext uc) st)
  else
    (* G_LOCK (gum_modify_thread) *)
    if lock_held st then Blocked st else
    let st := log ev_lock (set_lock_held true st) in
    let st := set_did_load false st in
    let st := set_did_modify false st in
    let st := set_did_store false st in
    let old_action := hijack_action st in
    let st := log (ev_sigaction gum_hijack_action old_action)
                (set_hijack_action gum_hijack_action st) in
    match rendezvous k thread_id func user_data st with
    | None => Spinning user_data st
    | Some (success, user_data, st) =>
        let st := log (ev_sigaction old_action gum_hijack_action)
                    (set_hijack_action old_action st) in
        let st := log ev_unlock (set_lock_held false st) in
        Returned success (self_regs me) user_data st
    end.

(** The process-global rendezvous state: the mutex, the three flags, the
    shared buffer and the action installed for the hijack signal. *)
Definition rendezvous_state (st : state)
  : bool * bool * bool * bool * GumCpuContext * sigaction_t :=
  (lock_held st, did_load_cpu_context st, did_modify_cpu_context st,
   did_store_cpu_context st, cpu_context st, hijack_action st).

(** The state in which a call returned or left the function. *)
Definition final_state {U : Type} (o : outcome U) : option state :=
  match o with
  | Returned _ _ _ st => Some st
  | Diverted _ _ st => Some st
  | _ => None
  end.

Definition is_lock (e : event) : bool :=
  match e with ev_lock => true | _ => false end.

End Broker.

(** ** Cross-thread rendezvous, interleaved

    Any number of threads run the cross-thread branch of
    [gum_process_modify_thread] (lines 130-156) and, when the hijack signal
    is delivered to them, [gum_do_modify_thread] (lines 167-175) on top of
    whatever they were doing.  Every access to the mutex, to a flag, to the
    shared buffer and to the signal action is one step of one thread, and
    the steps of the threads interleave freely; memory is sequentially
    consistent, and nothing but the broker sends the hijack signal or
    changes its action.  A pending signal and the handler it starts remember
    which thread sent the signal. *)

Module Rendezvous.
Import X86_64.

Definition GumThreadId : Type := Z.

(** Where a thread is in [gum_process_modify_thread]: outside it, or about
    to execute the named statement. *)
Inductive requester_pc : Type :=
| idle
| at_lock            (* G_LOCK (gum_modify_thread) *)
| at_clear_load      (* gum_modify_thread_did_load_cpu_context = FALSE *)
| at_clear_modify    (* gum_modify_thread_did_modify_cpu_context = FALSE *)
| at_clear_store     (* gum_modify_thread_did_store_cpu_context = FALSE *)
| at_sigaction       (* sigaction (GUM_HIJACK_SIGNAL, &action, &old_action) *)
| at_tgkill          (* syscall (SYS_tgkill, ...) *)
| at_wait_load       (* while (!did_load) g_thread_yield () *)
| at_visit           (* func (thread_id, &gum_modify_thread_cpu_context, ...) *)
| at_set_modify      (* gum_modify_thread_did_modify_cpu_context = TRUE *)
| at_wait_store      (* while (!did_store) g_thread_yield () *)
| at_restore         (* sigaction (GUM_HIJACK_SIGNAL, &old_action, NULL) *)
| at_unlock          (* G_UNLOCK (gum_modify_thread) *)
| at_return.         (* return success *)

(** Where an activation of [gum_do_modify_thread] is. *)
Inductive handler_pc : Type :=
| h_load             (* gum_cpu_context_from_linux (uc, &shared) *)
| h_set_load         (* gum_modify_thread_did_load_cpu_context = TRUE *)
| h_wait_modify      (* while (!did_modify) ; *)
| h_store            (* gum_cpu_context_to_linux (&shared, uc) *)
| h_set_store        (* gum_modify_thread_did_store_cpu_context = TRUE *)
| h_return.

Section Threads.

Context {U : Type}.

(** A thread: its place in the broker and the locals of that call, the
    machine context the kernel saves when it interrupts the thread, the
    handler activation on top of it (with the sender of the signal), and the
    hijack signals queued for it (by sender). *)
Record thread : Type := {
  pc : requester_pc;
  thread_id : GumThreadId;
  func : Broker.GumModifyThreadFunc U;
  user_data : U;
  old_action : Broker.sigaction_t;
  success : bool;
  uc : ucontext_t;
  handler : option (GumThreadId * handler_pc);
  pending : list GumThreadId
}.

Record state : Type := {
  lock : option GumThreadId;
  did_load_cpu_context : bool;
  did_modify_cpu_context : bool;
  did_store_cpu_context : bool;
  cpu_context : GumCpuContext;
  action : Broker.sigaction_t;
  threads : GumThreadId -> thread
}.

Definition set_pc (v : requester_pc) (th : thread) : thread :=
  {| pc := v; thread_id := thread_id th; func := func th;
     user_data := user_data th; old_action := old_action th;
     success := success th; uc := uc th; handler := handler th;
     pending := pending th |}.

Definition set_call (target : GumThreadId)
    (f : Broker.GumModifyThreadFunc U) (data : U) (th : thread) : thread :=
  {| pc := pc th; thread_id := target; func := f;
     user_data := data; old_action := old_action th;
     success := false; uc := uc th; handler := handler th;
     pending := pending th |}.

Definition set_user_data (v : U) (th : thread) : thread :=
  {| pc := pc th; thread_id := thread_id th; func := func th;
     user_data := v; old_action := old_action th;
     success := success th; uc := uc th; handler := handler th;
     pending := pending th |}.

Definition set_old_action (v : Broker.sigaction_t) (th : thread) : thread :=
  {| pc := pc th; thread_id := thread_id th; func := func th;
     user_data := user_data th; old_action := v;
     success := success th; uc := uc th; handler := handler th;
     pending := pending th |}.

Definition set_success (v : bool) (th : thread) : thread :=
  {| pc := pc th; thread_id := thread_id th; func := func th;
     user_data := user_data th; old_action := old_action th;
     success := v; uc := uc th; handler := handler th;
     pending := pending th |}.

Definition set_uc (v : ucontext_t) (th : thread) : thread :=
  {| pc := pc th; thread_id := thread_id th; func := func th;
     user_data := user_data th; old_action := old_action th;
     success := success th; uc := v; handler := handler th;
     pending := pending th |}.

Definition set_handler (v : option (GumThreadId * handler_pc)) (th : thread)
  : thread :=
  {| pc := pc th; thread_id := thread_id th; func := func th;
     user_data := user_data th; old_action := old_action th;
     success := success th; uc := uc th; handler := v;
     pending := pending th |}.

Definition set_pending (v : list GumThreadId) (th : thread) : thread :=
  {| pc := pc th; thread_id := thread_id th; func := func th;
     user_data := user_data th; old_action := old_action th;
     success := success th; uc := uc th; handler := handler th;
     pending := v |}.

Definition set_lock (v : option GumThreadId) (st : state) : state :=
  {| lock := v; did_load_cpu_context := did_load_cpu_context st;
     did_modify_cpu_context := did_modify_cpu_context st;
     did_store_cpu_context := did_store_cpu_context st;
     cpu_context := cpu_context st; action := action st;
     threads := threads st |}.

Definition set_did_load (v : bool) (st : state) : state :=
  {| lock := lock st; did_load_cpu_context := v;
     did_modify_cpu_context := did_modify_cpu_context st;
     did_store_cpu_context := did_store_cpu_context st;
     cpu_context := cpu_context st; action := action st;
     threads := threads st |}.

Definition set_did_modify (v : bool) (st : state) : state :=
  {| lock := lock st; did_load_cpu_context := did_load_cpu_context st;
     did_modify_cpu_context := v;
     did_store_cpu_context := did_store_cpu_context st;
     cpu_context := cpu_context st; action := action st;
     threads := threads st |}.

Definition set_did_store (v : bool) (st : state) : state :=
  {| lock := lock st; did_load_cpu_context := did_load_cpu_context st;
     did_modify_cpu_context := did_modify_cpu_context st;
     did_store_cpu_context := v;
     cpu_context := cpu_context st; action := action st;
     threads := threads st |}.

Definition set_cpu_context (v : GumCpuContext) (st : state) : state :=
  {| lock := lock st; did_load_cpu_context := did_load_cpu_context st;
     did_modify_cpu_context := did_modify_cpu_context st;
     did_store_cpu_context := did_store_cpu_context st;
     cpu_context := v; action := action st;
     threads := threads st |}.

Definition set_action (v : Broker.sigaction_t) (st : state) : state :=
  {| lock := lock st; did_load_cpu_context := did_load_cpu_context st;
     did_modify_cpu_context := did_modify_cpu_context st;
     did_store_cpu_context := did_store_cpu_context st;
     cpu_context := cpu_context st; action := v;
     threads := threads st |}.

(** Replace thread [t]. *)
Definition set_thread (t : GumThreadId) (th : thread) (st : state) : state :=
  {| lock := lock st; did_load_cpu_context := did_load_cpu_context st;
     did_modify_cpu_context := did_modify_cpu_context st;
     did_store_cpu_context := did_store_cpu_context st;
     cpu_context := cpu_context st; action := action st;
     threads := fun x => if x =? t then th else threads st x |}.

(** The shared locations of the rendezvous. *)
Inductive location : Type :=
| loc_did_load
| loc_did_modify
| loc_did_store
| loc_cpu_context.

(** What a step is: the thread that takes it, the requester whose call it
    belongs to (the thread itself, or the sender of the signal its handler
    serves), and the shared location it writes, if any. *)
Record label : Type := {
  actor : GumThreadId;
  on_behalf_of : GumThreadId;
  written : option location
}.

Definition own (t : GumThreadId) (w : option location) : label :=
  {| actor := t; on_behalf_of := t; written := w |}.

Definition serving (t sender : GumThreadId) (w : option location) : label :=
  {| actor := t; on_behalf_of := sender; written := w |}.

(** One step of one thread.  The steps of the broker need the thread not to
    be inside the handler; the handler's steps are those of the activation on
    top of the thread. *)
Inductive step (st : state) : label -> state -> Prop :=
(* a thread calls [gum_process_modify_thread] for another thread *)
| step_call t target f data :
    pc (threads st t) = idle -> handler (threads st t) = None ->
    target <> t ->
    step st (own t None)
      (set_thread t (set_pc at_lock (set_call target f data (threads st t)))
         st)
| step_lock t :
    pc (threads st t) = at_lock -> handler (threads st t) = None ->
    lock st = None ->
    step st (own t None)
      (set_thread t (set_pc at_clear_load (threads st t))
         (set_lock (Some t) st))
| step_clear_load t :
    pc (threads st t) = at_clear_load -> handler (threads st t) = None ->
    step st (own t (Some loc_did_load))
      (set_thread t (set_pc at_clear_modify (threads st t))
         (set_did_load false st))
| step_clear_modify t :
    pc (threads st t) = at_clear_modify -> handler (threads st t) = None ->
    step st (own t (Some loc_did_modify))
      (set_thread t (set_pc at_clear_store (threads st t))
         (set_did_modify false st))
| step_clear_store t :
    pc (threads st t) = at_clear_store -> handler (threads st t) = None ->
    step st (own t (Some loc_did_store))
      (set_thread t (set_pc at_sigaction (threads st t))
         (set_did_store false st))
| step_sigaction t :
    pc (threads st t) = at_sigaction -> handler (threads st t) = None ->
    step st (own t None)
      (set_thread t
         (set_pc at_tgkill (set_old_action (action st) (threads st t)))
         (set_action Broker.gum_hijack_action st))
(* tgkill returns 0: the signal is queued for the target *)
| step_tgkill_sent t :
    pc (threads st t) = at_tgkill -> handler (threads st t) = None ->
    let target := thread_id (threads st t) in
    let st1 := set_thread t (set_pc at_wait_load (threads st t)) st in
    step st (own t None)
      (set_thread target
         (set_pending (pending (threads st1 target) ++ [t])
            (threads st1 target)) st1)
(* tgkill fails *)
| step_tgkill_failed t :
    pc (threads st t) = at_tgkill -> handler (threads st t) = None ->
    step st (own t None)
      (set_thread t (set_pc at_restore (threads st t)) st)
| step_wait_load t :
    pc (threads st t) = at_wait_load -> handler (threads st t) = None ->
    did_load_cpu_context st = true ->
    step st (own t None)
      (set_thread t (set_pc at_visit (threads st t)) st)
| step_visit t :
    pc (threads st t) = at_visit -> handler (threads st t) = None ->
    let th := threads st t in
    let r := func th (thread_id th) (cpu_context st) (user_data th) in
    step st (own t (Some loc_cpu_context))
      (set_thread t (set_pc at_set_modify (set_user_data (snd r) th))
         (set_cpu_context (fst r) st))
| step_set_modify t :
    pc (threads st t) = at_set_modify -> handler (threads st t) = None ->
    step st (own t (Some loc_did_modify))
      (set_thread t (set_pc at_wait_store (threads st t))
         (set_did_modify true st))
| step_wait_store t :
    pc (threads st t) = at_wait_store -> handler (threads st t) = None ->
    did_store_cpu_context st = true ->
    step st (own t None)
      (set_thread t (set_pc at_restore (set_success true (threads st t))) st)
| step_restore t :
    pc (threads st t) = at_restore -> handler (threads st t) = None ->
    step st (own t None)
      (set_thread t (set_pc at_unlock (threads st t))
         (set_action (old_action (threads st t)) st))
| step_unlock t :
    pc (threads st t) = at_unlock -> handler (threads st t) = None ->
    step st (own t None)
      (set_thread t (set_pc at_return (threads st t)) (set_lock None st))
| step_return t :
    pc (threads st t) = at_return -> handler (threads st t) = None ->
    step st (own t None) (set_thread t (set_pc idle (threads st t)) st)
(* the kernel delivers a queued hijack signal: the installed action runs on
   top of the thread; the signal stays blocked while its handler runs *)
| step_deliver t sender rest :
    pending (threads st t) = sender :: rest ->
    handler (threads st t) = None ->
    Broker.sa_sigaction (action st) = Broker.gum_do_modify_thread_handler ->
    step st (serving t sender None)
      (set_thread t
         (set_handler (Some (sender, h_load))
            (set_pending rest (threads st t))) st)
| step_h_load t sender :
    handler (threads st t) = Some (sender, h_load) ->
    step st (serving t sender (Some loc_cpu_context))
      (set_thread t (set_handler (Some (sender, h_set_load)) (threads st t))
         (set_cpu_context (gum_cpu_context_from_linux (uc (threads st t)))
            st))
| step_h_set_load t sender :
    handler (threads st t) = Some (sender, h_set_load) ->
    step st (serving t sender (Some loc_did_load))
      (set_thread t
         (set_handler (Some (sender, h_wait_modify)) (threads st t))
         (set_did_load true st))
| step_h_wait_modify t sender :
    handler (threads st t) = Some (sender, h_wait_modify) ->
    did_modify_cpu_context st = true ->
    step st (serving t sender None)
      (set_thread t (set_handler (Some (sender, h_store)) (threads st t)) st)
| step_h_store t sender :
    handler (threads st t) = Some (sender, h_store) ->
    step st (serving t sender None)
      (set_thread t
         (set_handler (Some (sender, h_set_store))
            (set_uc (gum_cpu_context_to_linux (cpu_context st)
                       (uc (threads st t)))
               (threads st t)))
         st)
| step_h_set_store t sender :
    handler (threads st t) = Some (sender, h_set_store) ->
    step st (serving t sender (Some loc_did_store))
      (set_thread t (set_handler (Some (sender, h_return)) (threads st t))
         (set_did_store true st))
| step_h_return t sender :
    handler (threads st t) = Some (sender, h_return) ->
    step st (serving t sender None)
      (set_thread t (set_handler None (threads st t)) st).

(** A process in which no thread is in the broker or in the handler and no
    hijack signal is queued. *)
Definition initial (st : state) : Prop :=
  lock st = None
  /\ forall t, pc (threads st t) = idle
               /\ handler (threads st t) = None
               /\ pending (threads st t) = [].

Inductive reachable : state -> Prop :=
| reachable_initial st : initial st -> reachable st
| reachable_step st l st' : reachable st -> step st l st' -> reachable st'.

(** Between [G_LOCK] and [G_UNLOCK]. *)
Definition in_critical_section (v : requester_pc) : bool :=
  match v with
  | at_clear_load | at_clear_modify | at_clear_store | at_sigaction
  | at_tgkill | at_wait_load | at_visit | at_set_modify | at_wait_store
  | at_restore | at_unlock => true
  | idle | at_lock | at_return => false
  end.

(** Thread [t] has a rendezvous in progress. *)
Definition in_rendezvous (st : state) (t : GumThreadId) : Prop :=
  in_critical_section (pc (threads st t)) = true.

(** *** The invariant of the protocol *)

(** A thread has no handler that still has something to do: none at all, or
    one that has stored and is about to return. *)
Definition dead (h : option (GumThreadId * handler_pc)) : Prop :=
  h = None \/ exists s, h = Some (s, h_return).

(** No signal is queued for the thread and no handler is at work on it. *)
Definition quiet (th : thread) : Prop := pending th = [] /\ dead (handler th).

(** Where the rendezvous of the thread [s] that holds the mutex stands, by
    the statement [s] is at: what the flags are, and where the signal it
    sent is -- queued for its target, or being served by the handler on its
    target, at a stage the flags allow.  All other threads are quiet. *)
Definition phase (st : state) (s : GumThreadId) : Prop :=
  let th := threads st s in
  let tgt := threads st (thread_id th) in
  let others_quiet := forall x, x <> thread_id th -> quiet (threads st x) in
  let all_quiet := forall x, quiet (threads st x) in
  match pc th with
  | at_clear_load => all_quiet
  | at_clear_modify => all_quiet /\ did_load_cpu_context st = false
  | at_clear_store =>
      all_quiet /\ did_load_cpu_context st = false
      /\ did_modify_cpu_context st = false
  | at_sigaction | at_tgkill =>
      all_quiet /\ did_load_cpu_context st = false
      /\ did_modify_cpu_context st = false
      /\ did_store_cpu_context st = false
  | at_wait_load =>
      others_quiet /\ did_modify_cpu_context st = false
      /\ did_store_cpu_context st = false
      /\ ((did_load_cpu_context st = false /\ pending tgt = [s]
           /\ dead (handler tgt))
          \/ (did_load_cpu_context st = false /\ pending tgt = []
              /\ (handler tgt = Some (s, h_load)
                  \/ handler tgt = Some (s, h_set_load)))
          \/ (did_load_cpu_context st = true /\ pending tgt = []
              /\ handler tgt = Some (s, h_wait_modify)))
  | at_visit | at_set_modify =>
      others_quiet /\ did_load_cpu_context st = true
      /\ did_modify_cpu_context st = false
      /\ did_store_cpu_context st = false
      /\ pending tgt = [] /\ handler tgt = Some (s, h_wait_modify)
  | at_wait_store =>
      others_quiet /\ did_modify_cpu_context st = true /\ pending tgt = []
      /\ ((did_store_cpu_context st = false
           /\ (handler tgt = Some (s, h_wait_modify)
               \/ handler tgt = Some (s, h_store)
               \/ handler tgt = Some (s, h_set_store)))
          \/ (did_store_cpu_context st = true /\ dead (handler tgt)))
  | at_restore | at_unlock => all_quiet
  | idle | at_lock | at_return => False
  end.

(** A thread in the broker targets another thread; a thread in the critical
    section holds the mutex; and the holder's rendezvous is in a phase, or,
    with the mutex free, all threads are quiet. *)
Definition inv (st : state) : Prop :=
  (forall t, pc (threads st t) <> idle -> thread_id (threads st t) <> t)
  /\ (forall t,
         in_critical_section (pc (threads st t)) = true -> lock st = Some t)
  /\ match lock st with
     | None => forall x, quiet (threads st x)
     | Some s => phase st s
     end.

End Threads.

Arguments thread : clear implicits.
Arguments state : clear implicits.

End Rendezvous.

(** ** Results of code that can end the process *)

Inductive crash : Type :=
| assertion_failed   (* g_assert, g_assert_cmpint, g_assert_cmpuint *)
| memory_fault       (* a read outside what is mapped *)
| division_by_zero.

Inductive result (A : Type) : Type :=
| Ok (a : A)
| Abort (why : crash)
| Unfinished.        (* the fuel of a loop ran out *)
Arguments Ok {A}.
Arguments Abort {A}.
Arguments Unfinished {A}.

#[global] Instance result_ret : MRet result := fun A a => Ok a.
#[global] Instance result_bind : MBind result := fun A B f r =>
  match r with
  | Ok a => f a
  | Abort why => Abort why
  | Unfinished => Unfinished
  end.

(** ** Visitors

    What an enumeration does with a visitor, given the items it offers in
    order: it calls the visitor on each until the visitor returns [FALSE]. *)
Fixpoint visit {A U : Type} (func : A -> U -> bool * U) (items : list A)
    (user_data : U) : U :=
  match items with
  | [] => user_data
  | item :: items =>
      let '(carry_on, user_data) := func item user_data in
      if carry_on then visit func items user_data else user_data
  end.

(** The items a visitor is called on before it stops the enumeration. *)
Fixpoint visited {A U : Type} (func : A -> U -> bool * U) (items : list A)
    (user_data : U) : list A :=
  match items with
  | [] => []
  | item :: items =>
      let '(carry_on, user_data) := func item user_data in
      item :: (if carry_on then visited func items user_data else [])
  end.

(** A visitor that also keeps the list of the items it was called on. *)
Definition recording {A U : Type} (func : A -> U -> bool * U)
  : A -> U * list A -> bool * (U * list A) :=
  fun item '(user_data, seen) =>
    let '(carry_on, user_data) := func item user_data in
    (carry_on, (user_data, seen ++ [item])).

(** The visitor that never stops and only collects. *)
Definition collect {A : Type} : A -> list A -> bool * list A :=
  fun item seen => (true, seen ++ [item]).

(** ** Procfs reader and the module and range enumerators *)

Module Procfs.

Definition GumAddress : Type := Z.

(** Modelled from the spec: the declaration of [GumPageProtection]
    (gumdefs.h) is not among the sources; the data model gives it as a bitset
    over {Read, Write, Execute} with NoAccess the empty set.  The bits are
    [1 << 0], [1 << 1] and [1 << 2]. *)
Definition GUM_PAGE_NO_ACCESS : Z := 0.
Definition GUM_PAGE_READ : Z := 1.
Definition GUM_PAGE_WRITE : Z := 2.
Definition GUM_PAGE_EXECUTE : Z := 4.

(** Modelled from the spec: [GumMemoryRange] (gumdefs.h) is a base address
    and a byte size. *)
Record GumMemoryRange : Type := {
  base_address : GumAddress;
  size : Z
}.

(** [s[i]] in a character buffer that was zeroed before [s] was stored. *)
Definition char_at (s : string) (i : nat) : ascii :=
  default Ascii.zero (String.get i s).

Definition gum_page_protection_from_proc_perms_string (perms : string) : Z :=
  let prot := GUM_PAGE_NO_ACCESS in
  let prot := if Ascii.eqb (char_at perms 0) "r"
              then Z.lor prot GUM_PAGE_READ else prot in
  let prot := if Ascii.eqb (char_at perms 1) "w"
              then Z.lor prot GUM_PAGE_WRITE else prot in
  let prot := if Ascii.eqb (char_at perms 2) "x"
              then Z.lor prot GUM_PAGE_EXECUTE else prot in
  prot.

(** A line of [/proc/<pid>/maps] as the three [sscanf] formats of this file
    read it: the two addresses, the permissions (at most four characters)
    and, when the line goes on after the inode column, the text it goes on
    with (the pathname as the kernel prints it, which may hold blanks, as in
    ["/lib/libfoo.so (deleted)"]); [garbled] is a line on which the formats
    convert nothing. *)
Inductive maps_line : Type :=
| garbled
| mapping (start end_ : GumAddress) (perms : string)
    (pathname : option string).

(** [isspace] in the C locale: the blank and the characters 9 to 13. *)
Definition isspace (c : ascii) : bool :=
  let n := nat_of_ascii c in
  Nat.eqb n 32 || (Nat.leb 9 n && Nat.leb n 13).

(** The white space a conversion skips before it reads. *)
Fixpoint skip_space (input : string) : string :=
  match input with
  | EmptyString => EmptyString
  | String c rest => if isspace c then skip_space rest else input
  end.

(** The characters up to the next white space. *)
Fixpoint word (input : string) : string :=
  match input with
  | EmptyString => EmptyString
  | String c rest => if isspace c then EmptyString else String c (word rest)
  end.

(** The conversion [%s] of [sscanf]: it skips white space and stores the
    characters up to the next white space; where nothing but white space is
    left it fails and stores nothing. *)
Definition scan_s (input : string) : option string :=
  match word (skip_space input) with
  | EmptyString => None
  | path => Some path
  end.

(** What the last [%s] of the two formats that read a path stores for a
    line: the first word of the text after the inode column. *)
Definition path_field (pathname : option string) : option string :=
  match pathname with
  | Some input => scan_s input
  | None => None
  end.

(** [sscanf (line, "%p-%*p %*s %*x %*s %*s %s", &start, path)]: the number of
    conversions, and what they stored. *)
Definition sscanf_start_path (line : maps_line) : Z * GumAddress * string :=
  match line with
  | garbled => (0, 0, EmptyString)
  | mapping start _ _ pathname =>
      match path_field pathname with
      | None => (1, start, EmptyString)
      | Some path => (2, start, path)
      end
  end.

(** [sscanf (line, "%llx-%llx %4s", &start, &end, perms)]. *)
Definition sscanf_start_end_perms (line : maps_line)
  : Z * GumAddress * GumAddress * string :=
  match line with
  | garbled => (0, 0, 0, EmptyString)
  | mapping start end_ perms _ => (3, start, end_, perms)
  end.

(** The process as the enumerators see it: its id, the lines [fgets] returns
    from [/proc/<pid>/maps] ([None] when [fopen] fails), and the bytes of its
    address space ([None] where a read faults). *)
Record process : Type := {
  getpid : Z;
  proc_maps : Z -> option (list maps_line);
  memory : GumAddress -> option Z
}.

Definition proc_self_maps (p : process) : option (list maps_line) :=
  proc_maps p (getpid p).

Fixpoint read_bytes (p : process) (address : GumAddress) (n : nat)
  : option (list Z) :=
  match n with
  | O => Some []
  | S n =>
      match memory p address, read_bytes p (address + 1) n with
      | Some b, Some bs => Some (b :: bs)
      | _, _ => None
      end
  end.

(** [{ 0x7f, 'E', 'L', 'F' }] *)
Definition elf_magic : list Z := [127; 69; 76; 70].

Definition bytes_eqb (a b : list Z) : bool := bool_decide (a = b).

(** A module as the visitor receives it: name, address, path. *)
Definition module_record : Type := string * GumAddress * string.

Definition GumFoundModuleFunc (U : Type) : Type :=
  module_record -> U -> bool * U.
Definition GumFoundRangeFunc (U : Type) : Type :=
  GumMemoryRange * Z -> U -> bool * U.

Section Enumerators.

Context {U : Type}.

(** GLib's [g_path_get_basename], which this file only calls. *)
Variable g_path_get_basename : string -> string.

(** The loop of [gum_process_enumerate_modules] (lines 242-264) over the
    lines still to be read; it is entered with [carry_on] true. *)
Fixpoint enumerate_modules_loop (p : process) (func : GumFoundModuleFunc U)
    (lines : list maps_line) (prev_path : string) (user_data : U)
  : result U :=
  match lines with
  | [] => Ok user_data
  | line :: lines =>
      let '(n, start, path) := sscanf_start_path line in
      if n =? 1 then
        enumerate_modules_loop p func lines prev_path user_data
      else if negb (n =? 2) then Abort assertion_failed
      else if String.eqb path prev_path
              || Ascii.eqb (char_at path 0) "[" then
        enumerate_modules_loop p func lines prev_path user_data
      else
        match read_bytes p start 4 with
        | None => Abort memory_fault
        | Some bytes =>
            if negb (bytes_eqb bytes elf_magic) then
              enumerate_modules_loop p func lines prev_path user_data
            else
              let name := g_path_get_basename path in
              let '(carry_on, user_data) :=
                func (name, start, path) user_data in
              let prev_path := path in
              if carry_on then
                enumerate_modules_loop p func lines prev_path user_data
              else Ok user_data
        end
  end.

Definition gum_process_enumerate_modules (p : process)
    (func : GumFoundModuleFunc U) (user_data : U) : result U :=
  match proc_self_maps p with
  | None => Abort assertion_failed
  | Some lines => enumerate_modules_loop p func lines EmptyString user_data
  end.

(** The loop of [gum_linux_enumerate_ranges] (lines 303-324). *)
Fixpoint enumerate_ranges_loop (prot : Z) (func : GumFoundRangeFunc U)
    (lines : list maps_line) (user_data : U) : result U :=
  match lines with
  | [] => Ok user_data
  | line :: lines =>
      let '(n, start, end_, perms) := sscanf_start_end_perms line in
      if negb (n =? 3) then Abort assertion_failed
      else
        let cur_prot := gum_page_protection_from_proc_perms_string perms in
        if Z.land cur_prot prot =? prot then
          let range := {| base_address := start;
                          size := guint64 (end_ - start) |} in
          let '(carry_on, user_data) := func (range, cur_prot) user_data in
          if carry_on then enumerate_ranges_loop prot func lines user_data
          else Ok user_data
        else enumerate_ranges_loop prot func lines user_data
  end.

Definition gum_linux_enumerate_ranges (p : process) (pid : Z) (prot : Z)
    (func : GumFoundRangeFunc U) (user_data : U) : result U :=
  match proc_maps p pid with
  | None => Abort assertion_failed
  | Some lines => enumerate_ranges_loop prot func lines user_data
  end.

Definition gum_process_enumerate_ranges (p : process) (prot : Z)
    (func : GumFoundRangeFunc U) (user_data : U) : result U :=
  gum_linux_enumerate_ranges p (getpid p) prot func user_data.

End Enumerators.

(** What the range enumerator offers for a line that satisfies the request. *)
Definition range_of_line (line : maps_line) : GumMemoryRange * Z :=
  let '(_, start, end_, perms) := sscanf_start_end_perms line in
  ({| base_address := start; size := guint64 (end_ - start) |},
   gum_page_protection_from_proc_perms_string perms).

(** [(cur_prot & prot) == prot] for the protection a line decodes to. *)
Definition line_satisfies (prot : Z) (line : maps_line) : bool :=
  let '(_, _, _, perms) := sscanf_start_end_perms line in
  Z.land (gum_page_protection_from_proc_perms_string perms) prot =? prot.

Definition well_formed (line : maps_line) : Prop := line <> garbled.

Definition record_path (r : module_record) : string := snd r.

(** The path the loop compares with once it has handed over [records]: that
    of the last of them, or the one it started with. *)
Definition last_path (prev_path : string) (records : list module_record)
  : string :=
  match last records with
  | Some r => record_path r
  | None => prev_path
  end.

(** No record has the path of the one before it, the first not that of
    [prev]. *)
Fixpoint paths_alternate (prev : string) (records : list module_record)
  : Prop :=
  match records with
  | [] => True
  | r :: records =>
      record_path r <> prev /\ paths_alternate (record_path r) records
  end.

(** What the module enumerator promises of a record it emits: the path is no
    bracketed pseudo-name, the four bytes at the address are the ELF magic,
    the name is the basename of the path, and address and path are the start
    and the path field of one of [lines]. *)
Definition from_line (p : process) (basename : string -> string)
    (lines : list maps_line) (r : module_record) : Prop :=
  let '(name, address, path) := r in
  char_at path 0 <> "["%char
  /\ read_bytes p address 4 = Some elf_magic
  /\ name = basename path
  /\ exists end_ perms pathname,
       In (mapping address end_ perms pathname) lines
       /\ path_field pathname = Some path.

(** A line whose path field is [path]: a mapping of the file of that
    name. *)
Definition mapping_of (path : string) (line : maps_line) : Prop :=
  exists start end_ perms pathname,
    line = mapping start end_ perms pathname
    /\ path_field pathname = Some path.

(** A line at which the module enumerator ends the process: one its format
    cannot read (line 252), or a mapping whose first bytes cannot be read
    (line 256). *)
Definition fatal_line (p : process) (line : maps_line) : Prop :=
  line = garbled
  \/ exists start end_ perms pathname,
       line = mapping start end_ perms pathname
       /\ read_bytes p start 4 = None.

End Procfs.

(** ** ELF export resolver ([GLIB_SIZEOF_VOID_P == 8]: the [Elf64_*] types) *)

Module Elf.
Import Procfs.

(** Constants and macros of [<elf.h>]. *)
Definition ET_DYN : Z := 3.
Definition SHT_DYNSYM : Z := 11.
Definition STB_LOCAL : Z := 0.
Definition STB_GLOBAL : Z := 1.
Definition STB_WEAK : Z := 2.
Definition STT_FUNC : Z := 2.
Definition SHN_UNDEF : Z := 0.

(** [ELF64_ST_BIND (val)] is [((unsigned char) (val)) >> 4]. *)
Definition GUM_ELF_ST_BIND (val : Z) : Z := Z.shiftr (Z.land val 255) 4.
(** [ELF64_ST_TYPE (val)] is [(val) & 0xf]. *)
Definition GUM_ELF_ST_TYPE (val : Z) : Z := Z.land val 15.

(** The members of [Elf64_Ehdr], [Elf64_Shdr] and [Elf64_Sym] that the
    resolver reads. *)
Record GumElfEHeader : Type := {
  e_type : Z;
  e_shoff : Z;
  e_shentsize : Z;
  e_shnum : Z
}.

Record GumElfSHeader : Type := {
  sh_type : Z;
  sh_offset : Z;
  sh_size : Z;
  sh_link : Z;
  sh_entsize : Z
}.

Record GumElfSymbol : Type := {
  st_name : Z;
  st_info : Z;
  st_shndx : Z;
  st_value : Z
}.

(** A file mapped at [base_address], read through the pointer casts of the
    resolver: the header at offset 0, and at any offset the bytes there taken
    as a section header, as a symbol, or as a NUL-terminated string.  A read
    at an offset outside the mapping is [None]. *)
Record mapped_file : Type := {
  ehdr : GumElfEHeader;
  shdr_at : Z -> option GumElfSHeader;
  sym_at : Z -> option GumElfSymbol;
  string_at : Z -> string
}.

(** A file behind a descriptor: the size [lseek (fd, 0, SEEK_END)] reports
    and what [mmap] of the whole file gives ([None] for [MAP_FAILED]). *)
Record file : Type := {
  file_size : Z;
  mmap_private : option mapped_file
}.

(** [open (path, O_RDONLY)] returns a descriptor or -1. *)
Record filesystem : Type := {
  open_rdonly : string -> Z;
  file_of_fd : Z -> file
}.

(** The system calls of one resolution that take or give back a resource of
    its own: the descriptor of line 351 and the mapping of line 358.  The
    two [lseek] calls of lines 355-356 and the reading of the maps file by
    [gum_process_enumerate_modules] are not among them. *)
Inductive syscall : Type :=
| sys_open (path : string) (fd : Z)
| sys_mmap (fd : Z) (length : Z)
| sys_munmap (length : Z)
| sys_close (fd : Z).

Inductive resource : Type :=
| descriptor (fd : Z)
| file_mapping (length : Z).

#[global] Instance resource_eq_dec : EqDecision resource.
Proof. solve_decision. Defined.

(** Remove the first occurrence of [r]. *)
Fixpoint release (r : resource) (held : list resource) : list resource :=
  match held with
  | [] => []
  | r' :: held => if decide (r = r') then held else r' :: release r held
  end.

(** The resources a run still holds after the calls of [trace], given those
    it held before. *)
Fixpoint holds (trace : list syscall) (held : list resource)
  : list resource :=
  match trace with
  | [] => held
  | sys_open _ fd :: trace =>
      holds trace (if fd =? -1 then held else descriptor fd :: held)
  | sys_mmap _ len :: trace => holds trace (file_mapping len :: held)
  | sys_munmap len :: trace => holds trace (release (file_mapping len) held)
  | sys_close fd :: trace => holds trace (release (descriptor fd) held)
  end.

Record GumFindModuleContext : Type := {
  module_name : string;
  base : GumAddress;
  path : option string      (* [None] is the NULL pointer *)
}.

Record GumFindExportContext : Type := {
  result_address : GumAddress;      (* the member [result] *)
  symbol_name : string
}.

Definition gum_store_base_and_path_if_name_matches
  : GumFoundModuleFunc GumFindModuleContext :=
  fun '(name, address, path) ctx =>
    if negb (String.eqb name (module_name ctx)) then (true, ctx)
    else
      (false, {| module_name := module_name ctx;
                 base := address;
                 path := Some path |}).

(** An export as the visitor receives it: name, address. *)
Definition export : Type := string * GumAddress.

Definition GumFoundExportFunc (U : Type) : Type := export -> U -> bool * U.

Definition gum_store_address_if_export_name_matches
  : GumFoundExportFunc GumFindExportContext :=
  fun '(name, address) ctx =>
    if String.eqb name (symbol_name ctx) then
      (false, {| result_address := address;
                 symbol_name := symbol_name ctx |})
    else (true, ctx).

(** The locals [dynsym_section_offset], [dynsym_section_size],
    [dynsym_entry_size] and [dynsym_strtab] (as an offset from
    [base_address]). *)
Record dynsym : Type := {
  dynsym_section_offset : Z;
  dynsym_section_size : Z;
  dynsym_entry_size : Z;
  dynsym_strtab : Z
}.

Definition no_dynsym : dynsym :=
  {| dynsym_section_offset := 0;
     dynsym_section_size := 0;
     dynsym_entry_size := 0;
     dynsym_strtab := 0 |}.

(** The loop over the section headers (lines 365-384), for the values of [i]
    still to come. *)
Fixpoint find_dynsym (img : mapped_file) (indices : list Z) (found : dynsym)
  : result dynsym :=
  match indices with
  | [] => Ok found
  | i :: indices =>
      let eh := ehdr img in
      match shdr_at img (e_shoff eh + guint32 (i * e_shentsize eh)) with
      | None => Abort memory_fault
      | Some shdr =>
          if sh_type shdr =? SHT_DYNSYM then
            match shdr_at img
                    (e_shoff eh + guint32 (sh_link shdr * e_shentsize eh)) with
            | None => Abort memory_fault
            | Some strtab_shdr =>
                let found :=
                  {| dynsym_section_offset := sh_offset shdr;
                     dynsym_section_size := sh_size shdr;
                     dynsym_entry_size := sh_entsize shdr;
                     dynsym_strtab := sh_offset strtab_shdr |} in
                (* g_assert_cmpuint (size % entry_size, ==, 0) *)
                if dynsym_entry_size found =? 0 then Abort division_by_zero
                else if negb (dynsym_section_size found
                                mod dynsym_entry_size found =? 0)
                then Abort assertion_failed
                else find_dynsym img indices found
            end
          else find_dynsym img indices found
      end
  end.

(** The test of lines 394-397. *)
Definition is_exported_function (sym : GumElfSymbol) : bool :=
  ((GUM_ELF_ST_BIND (st_info sym) =? STB_GLOBAL)
   || (GUM_ELF_ST_BIND (st_info sym) =? STB_WEAK))
  && (GUM_ELF_ST_TYPE (st_info sym) =? STT_FUNC)
  && negb (st_shndx sym =? SHN_UNDEF).

(** Lines 402-403: the name at [dynsym_strtab + sym->st_name] and the address
    [ctx.base + sym->st_value]. *)
Definition export_of (img : mapped_file) (module_base : GumAddress)
    (d : dynsym) (sym : GumElfSymbol) : export :=
  (string_at img (dynsym_strtab d + st_name sym),
   guint64 (module_base + st_value sym)).

(** The address of entry [i] of the symbol table, as an offset from
    [base_address]. *)
Definition symbol_offset (d : dynsym) (i : Z) : Z :=
  dynsym_section_offset d + guint64 (i * dynsym_entry_size d).

Definition symbol_count (d : dynsym) : Z :=
  dynsym_section_size d / dynsym_entry_size d.

Section Resolver.

Context {U : Type}.
Variable g_path_get_basename : string -> string.

(** The loop over the symbols (lines 389-408) from the value [i] of the
    32-bit counter on; [fuel] bounds the iterations.  The loop is left by
    [goto beach] when the visitor returns [FALSE]. *)
Fixpoint enumerate_symbols (fuel : nat) (img : mapped_file)
    (module_base : GumAddress) (d : dynsym) (func : GumFoundExportFunc U)
    (i : Z) (user_data : U) : result U :=
  if i =? symbol_count d then Ok user_data
  else
    match fuel with
    | O => Unfinished
    | S fuel =>
        match sym_at img (symbol_offset d i) with
        | None => Abort memory_fault
        | Some sym =>
            if is_exported_function sym then
              let '(carry_on, user_data) :=
                func (export_of img module_base d sym) user_data in
              if negb carry_on then Ok user_data
              else enumerate_symbols fuel img module_base d func
                     (guint32 (i + 1)) user_data
            else enumerate_symbols fuel img module_base d func
                   (guint32 (i + 1)) user_data
        end
    end.

(** The locals the code at [beach] looks at. *)
Record frame : Type := {
  fd : Z;
  base_address : option mapped_file;   (* [None] is NULL *)
  mapped_size : Z                      (* [file_size] *)
}.

(** Lines 410-417. *)
Definition beach (fr : frame) (trace : list syscall) (user_data : U)
  : result (U * list syscall) :=
  let trace := match base_address fr with
               | Some _ => trace ++ [sys_munmap (mapped_size fr)]
               | None => trace
               end in
  let trace := if negb (fd fr =? -1) then trace ++ [sys_close (fd fr)]
               else trace in
  Ok (user_data, trace).

Definition gum_module_enumerate_exports (fuel : nat) (p : process)
    (fs : filesystem) (module_name : string) (func : GumFoundExportFunc U)
    (user_data : U) : result (U * list syscall) :=
  let ctx := {| module_name := module_name; base := 0; path := None |} in
  let fr := {| fd := -1; base_address := None; mapped_size := 0 |} in
  ctx ← gum_process_enumerate_modules g_path_get_basename p
          gum_store_base_and_path_if_name_matches ctx;
  if base ctx =? 0 then beach fr [] user_data
  else
    let pathname := default EmptyString (path ctx) in
    let fd := open_rdonly fs pathname in
    let trace := [sys_open pathname fd] in
    let fr := {| fd := fd; base_address := None; mapped_size := 0 |} in
    if fd =? -1 then beach fr trace user_data
    else
      let file_size := file_size (file_of_fd fs fd) in
      match mmap_private (file_of_fd fs fd) with
      | None => Abort assertion_failed
      | Some img =>
          let trace := trace ++ [sys_mmap fd file_size] in
          let fr := {| fd := fd; base_address := Some img;
                       mapped_size := file_size |} in
          if negb (e_type (ehdr img) =? ET_DYN) then beach fr trace user_data
          else
            d ← find_dynsym img (seqZ 0 (e_shnum (ehdr img))) no_dynsym;
            if dynsym_section_offset d =? 0 then beach fr trace user_data
            else
              user_data ← enumerate_symbols fuel img (base ctx) d func 0
                            user_data;
              beach fr trace user_data
      end.

End Resolver.

Definition gum_module_find_export_by_name
    (g_path_get_basename : string -> string) (fuel : nat) (p : process)
    (fs : filesystem) (module_name symbol_name : string)
  : result GumAddress :=
  let ctx := {| result_address := 0; symbol_name := symbol_name |} in
  '(ctx, _) ← gum_module_enumerate_exports g_path_get_basename fuel p fs
                module_name gum_store_address_if_export_name_matches ctx;
  Ok (result_address ctx).

(** The entries of the symbol table, when all of them can be read. *)
Definition symbol_table (img : mapped_file) (d : dynsym)
  : option (list GumElfSymbol) :=
  mapM (fun i => sym_at img (symbol_offset d i)) (seqZ 0 (symbol_count d)).

(** The load base of the module called [module_name] and the mapping of its
    file, when the resolver gets as far as mapping it (lines 346-359). *)
Definition locate (g_path_get_basename : string -> string) (p : process)
    (fs : filesystem) (module_name : string)
  : option (GumAddress * mapped_file) :=
  match gum_process_enumerate_modules g_path_get_basename p
          gum_store_base_and_path_if_name_matches
          {| module_name := module_name; base := 0; path := None |} with
  | Ok ctx =>
      if base ctx =? 0 then None
      else
        let fd := open_rdonly fs (default EmptyString (path ctx)) in
        if fd =? -1 then None
        else
          match mmap_private (file_of_fd fs fd) with
          | Some img => Some (base ctx, img)
          | None => None
          end
  | _ => None
  end.

(** The exports up to and including the first called [symbol_name]. *)
Fixpoint up_to_first (symbol_name : string) (exports : list export)
  : list export :=
  match exports with
  | [] => []
  | e :: exports =>
      e :: (if String.eqb (fst e) symbol_name then []
            else up_to_first symbol_name exports)
  end.

(** The address of the first export called [symbol_name], or 0. *)
Definition first_named (symbol_name : string) (exports : list export)
  : GumAddress :=
  match List.find (fun e => String.eqb (fst e) symbol_name) exports with
  | Some e => snd e
  | None => 0
  end.

End Elf.

(** ** Ranges and base address of one module *)

Module ModuleLookup.
Import Procfs.

(** [sscanf (line, "%p-%p %4s %*x %*s %*s %s", &start, &end, perms, path)]:
    the number of conversions, and what they stored. *)
Definition sscanf_start_end_perms_path (line : maps_line)
  : Z * GumAddress * GumAddress * string * string :=
  match line with
  | garbled => (0, 0, 0, EmptyString, EmptyString)
  | mapping start end_ perms pathname =>
      match path_field pathname with
      | None => (3, start, end_, perms, EmptyString)
      | Some path => (4, start, end_, perms, path)
      end
  end.

(** [end - start] for two [guint8 *]: a [ptrdiff_t]. *)
Definition ptrdiff (end_ start : GumAddress) : Z := to_signed 64 (end_ - start).

Section Enumerator.

Context {U : Type}.
Variable g_path_get_basename : string -> string.

(** The loop of [gum_module_enumerate_ranges] (lines 437-470). *)
Fixpoint enumerate_module_ranges_loop (module_name : string) (prot : Z)
    (func : GumFoundRangeFunc U) (lines : list maps_line) (user_data : U)
  : result U :=
  match lines with
  | [] => Ok user_data
  | line :: lines =>
      let '(n, start, end_, perms, path) :=
        sscanf_start_end_perms_path line in
      if n =? 3 then
        enumerate_module_ranges_loop module_name prot func lines user_data
      else if negb (n =? 4) then Abort assertion_failed
      else if Ascii.eqb (char_at path 0) "[" then
        enumerate_module_ranges_loop module_name prot func lines user_data
      else
        let name := g_path_get_basename path in
        if String.eqb name module_name then
          let cur_prot := gum_page_protection_from_proc_perms_string perms in
          if Z.land cur_prot prot =? prot then
            let range := {| base_address := start;
                            size := guint64 (ptrdiff end_ start) |} in
            let '(carry_on, user_data) := func (range, cur_prot) user_data in
            if carry_on then
              enumerate_module_ranges_loop module_name prot func lines
                user_data
            else Ok user_data
          else
            enumerate_module_ranges_loop module_name prot func lines user_data
        else
          enumerate_module_ranges_loop module_name prot func lines user_data
  end.

Definition gum_module_enumerate_ranges (p : process) (module_name : string)
    (prot : Z) (func : GumFoundRangeFunc U) (user_data : U) : result U :=
  match proc_self_maps p with
  | None => Abort assertion_failed
  | Some lines =>
      enumerate_module_ranges_loop module_name prot func lines user_data
  end.

End Enumerator.

Definition gum_module_find_base_address
    (g_path_get_basename : string -> string) (p : process)
    (module_name : string) : result GumAddress :=
  let ctx := {| Elf.module_name := module_name;
                Elf.base := 0;
                Elf.path := None |} in
  ctx ← gum_process_enumerate_modules g_path_get_basename p
          Elf.gum_store_base_and_path_if_name_matches ctx;
  Ok (Elf.base ctx).

(** A line of the module called [module_name]: it has a path field, which
    is no bracketed pseudo-name and whose basename is [module_name]. *)
Definition line_of_module (basename : string -> string)
    (module_name : string) (line : maps_line) : bool :=
  match line with
  | mapping _ _ _ pathname =>
      match path_field pathname with
      | Some path =>
          negb (Ascii.eqb (char_at path 0) "[")
          && String.eqb (basename path) module_name
      | None => false
      end
  | garbled => false
  end.

(** The base address of the first record called [module_name], or 0. *)
Definition first_module (module_name : string)
    (records : list module_record) : GumAddress :=
  match List.find (fun r => String.eqb (fst (fst r)) module_name) records with
  | Some r => snd (fst r)
  | None => 0
  end.

End ModuleLookup.

(** ** Thread enumeration ([gum_process_enumerate_threads]), x86-64

    The enumerator reads the task directory, decodes the state from each
    stat file and captures each thread's context through the broker, with
    [gum_store_cpu_context] as the visitor. *)

Module Threads.

(** Modelled from the spec: the declaration of [GumThreadState]
    (gumprocess.h) is not among the sources; the data model gives it as one
    of {Running, Waiting, Uninterruptible, Stopped}.  The constructors are
    the enumerators this file returns. *)
Inductive GumThreadState : Type :=
| GUM_THREAD_RUNNING
| GUM_THREAD_WAITING
| GUM_THREAD_UNINTERRUPTIBLE
| GUM_THREAD_STOPPED.

(** Modelled from the spec: [GumThreadDetails] (gumprocess.h) is a thread
    id, a thread state and a CPU context; the members are those
    [gum_process_enumerate_threads] assigns. *)
Record GumThreadDetails : Type := {
  id : Broker.GumThreadId;
  state : GumThreadState;
  cpu_context : X86_64.GumCpuContext
}.

Definition GumFoundThreadFunc (U : Type) : Type :=
  GumThreadDetails -> U -> bool * U.

Definition gum_thread_state_from_proc_status_character (c : ascii)
  : result GumThreadState :=
  if Ascii.eqb c "R" then Ok GUM_THREAD_RUNNING
  else if Ascii.eqb c "S" then Ok GUM_THREAD_WAITING
  else if Ascii.eqb c "D" then Ok GUM_THREAD_UNINTERRUPTIBLE
  else if Ascii.eqb c "Z" then Ok GUM_THREAD_UNINTERRUPTIBLE
  else if Ascii.eqb c "T" then Ok GUM_THREAD_STOPPED
  else if Ascii.eqb c "W" then Ok GUM_THREAD_UNINTERRUPTIBLE
  else (* g_assert_not_reached () *) Abort assertion_failed.

(** [memcpy (user_data, cpu_context, sizeof (GumCpuContext))]: the user data
    is the context, which stays as it is. *)
Definition gum_store_cpu_context
  : Broker.GumModifyThreadFunc X86_64.GumCpuContext :=
  fun _ cpu_context _ => (cpu_context, cpu_context).

(** [strrchr (s, c)] for a [c] other than NUL: the offset of the last [c] in
    [s], [None] for the NULL pointer. *)
Fixpoint strrchr (s : string) (c : ascii) : option nat :=
  match s with
  | EmptyString => None
  | String a s =>
      match strrchr s c with
      | Some i => Some (S i)
      | None => if Ascii.eqb a c then Some O else None
      end
  end.

(** [state = strrchr (info, ')') + 2] and the read [*state] (lines 198 and
    201): a character of the string, or its terminating NUL.  A read through
    NULL + 2 faults.  A read past the terminator is outside the string too:
    the source does not determine the byte it gives, and the embedding ends
    the run there as well. *)
Definition state_character (info : string) : result ascii :=
  match strrchr info ")" with
  | None => Abort memory_fault
  | Some i =>
      match String.get (i + 2) info with
      | Some c => Ok c
      | None =>
          if Nat.eqb (i + 2) (String.length info) then Ok Ascii.zero
          else Abort memory_fault
      end
  end.

(** Lines 198 and 201: the state the stat line [info] shows. *)
Definition state_of_stat (info : string) : result GumThreadState :=
  c ← state_character info;
  gum_thread_state_from_proc_status_character c.

(** The task directory as the enumerator sees it: the names
    [g_dir_read_name] returns from [/proc/self/task] ([None] when
    [g_dir_open] fails) and what [g_file_get_contents] reads, as a C string
    ([None] when it fails). *)
Record procfs : Type := {
  proc_self_task : option (list string);
  g_file_get_contents : string -> option string
}.

(** [g_strconcat ("/proc/self/task/", name, "/stat", NULL)] *)
Definition stat_path (name : string) : string :=
  ("/proc/self/task/" ++ name ++ "/stat")%string.

(** How an enumeration ends: it returns; the process ends; or a call of the
    broker does not return ([Diverted], [Blocked], [Spinning],
    [OutOfFuel]). *)
Inductive enumeration (U : Type) : Type :=
| Finished (regs : X86_64.ucontext_t) (user_data : U) (st : Broker.state)
| Crashed (why : crash)
| Stuck (o : Broker.outcome X86_64.GumCpuContext).
Arguments Finished {U}.
Arguments Crashed {U}.
Arguments Stuck {U}.

Section Enumerator.

Context {U : Type}.

(** libc's [atoi], which this file only calls; the ids it gives are stored
    in [details.id] as they are. *)
Variable atoi : string -> Z.

(** What the kernel and the scheduler decide for the broker's call on each
    thread. *)
Variable k : Broker.GumThreadId -> Broker.kernel.

(** [details.cpu_context] before the broker fills it in: the object is not
    initialised. *)
Variable indeterminate : X86_64.GumCpuContext.

(** The loop of [gum_process_enumerate_threads] (lines 188-211) over the
    names still to be read; it is entered with [carry_on] true.  [me] is the
    enumerating thread. *)
Fixpoint enumerate_threads_loop (fuel : nat) (fs : procfs)
    (me : Broker.caller) (func : GumFoundThreadFunc U)
    (names : list string) (user_data : U) (st : Broker.state)
  : enumeration U :=
  match names with
  | [] => Finished (Broker.self_regs me) user_data st
  | name :: names =>
      let path := stat_path name in
      match g_file_get_contents fs path with
      | None => enumerate_threads_loop fuel fs me func names user_data st
      | Some info =>
          let details_id := atoi name in
          match state_of_stat info with
          | Abort why => Crashed why
          | Unfinished => Stuck Broker.OutOfFuel
          | Ok details_state =>
              match Broker.gum_process_modify_thread (k details_id) fuel me
                      details_id gum_store_cpu_context indeterminate st with
              | Broker.Returned success regs details_cpu_context st =>
                  let me := Broker.resumed regs me in
                  if success then
                    let details := {| id := details_id;
                                      state := details_state;
                                      cpu_context := details_cpu_context |} in
                    let '(carry_on, user_data) := func details user_data in
                    if carry_on then
                      enumerate_threads_loop fuel fs me func names user_data
                        st
                    else Finished (Broker.self_regs me) user_data st
                  else
                    enumerate_threads_loop fuel fs me func names user_data st
              | o => Stuck o
              end
          end
      end
  end.

Definition gum_process_enumerate_threads (fuel : nat) (fs : procfs)
    (me : Broker.caller) (func : GumFoundThreadFunc U) (user_data : U)
    (st : Broker.state) : enumeration U :=
  match proc_self_task fs with
  | None => Crashed assertion_failed
  | Some names => enumerate_threads_loop fuel fs me func names user_data st
  end.

End Enumerator.

(** The machine context the broker gets hold of for a thread: the caller's
    own registers, or those of a thread its signal reaches. *)
Definition machine_context (k : Broker.GumThreadId -> Broker.kernel)
    (me : Broker.caller) (st : Broker.state) (thread_id : Broker.GumThreadId)
  : option X86_64.ucontext_t :=
  if thread_id =? Broker.self_id me then Some (Broker.self_regs me)
  else Broker.tgkill (k thread_id) st thread_id.

(** The state of the thread called [name], as its stat file shows it. *)
Definition stat_state (fs : procfs) (name : string)
  : option (result GumThreadState) :=
  info ← g_file_get_contents fs (stat_path name);
  Some (state_of_stat info).

(** The stat file of [name] cannot be read, or shows one of the states the
    decoder knows. *)
Definition stat_decodes (fs : procfs) (name : string) : bool :=
  match stat_state fs name with
  | Some (Ok _) | None => true
  | Some _ => false
  end.

(** The details of the thread called [name]: its id, the state its stat file
    shows and the context captured from it. *)
Definition details_of (atoi : string -> Z)
    (k : Broker.GumThreadId -> Broker.kernel) (fs : procfs)
    (me : Broker.caller) (st : Broker.state) (name : string)
  : option GumThreadDetails :=
  match stat_state fs name with
  | Some (Ok s) =>
      uc ← machine_context k me st (atoi name);
      Some {| id := atoi name;
              state := s;
              cpu_context := X86_64.gum_cpu_context_from_linux uc |}
  | _ => None
  end.

(** The broker is where it was with respect to [st0]: the mutex is free,
    and the action of the hijack signal and the machine contexts of the
    threads are those of [st0]. *)
Definition undisturbed (st0 st : Broker.state) : Prop :=
  Broker.lock_held st = false
  /\ Broker.hijack_action st = Broker.hijack_action st0
  /\ forall t, Broker.threads st t = Broker.threads st0 t.

(** The characters [gum_thread_state_from_proc_status_character] has a case
    for. *)
Definition known_states : list ascii :=
  ["R"; "S"; "D"; "Z"; "T"; "W"]%char.

End Threads.

(** The state a cross-thread call that completes leaves behind. *)
Definition after_rendezvous (thread_id : Broker.GumThreadId)
    (uc : X86_64.ucontext_t) (c c' : X86_64.GumCpuContext)
    (st : Broker.state) : Broker.state :=
  {| Broker.lock_held := false;
     Broker.did_load_cpu_context := true;
     Broker.did_modify_cpu_context := true;
     Broker.did_store_cpu_context := true;
     Broker.cpu_context := c';
     Broker.hijack_action := Broker.hijack_action st;
     Broker.threads := fun t =>
       if t =? thread_id
       then Some (X86_64.gum_cpu_context_to_linux c' uc)
       else Broker.threads st t;
     Broker.trace := Broker.trace st ++
       [Broker.ev_lock;
        Broker.ev_sigaction Broker.gum_hijack_action (Broker.hijack_action st);
        Broker.ev_tgkill thread_id true;
        Broker.ev_visit thread_id c;
        Broker.ev_sigaction (Broker.hijack_action st)
          Broker.gum_hijack_action;
        Broker.ev_unlock] |}.

(** ** ELF export resolver: the section headers *)

(** The section header the loop of lines 365-384 reads for the index [i]. *)
Definition section_header (img : Elf.mapped_file) (i : Z)
  : option Elf.GumElfSHeader :=
  Elf.shdr_at img
    (Elf.e_shoff (Elf.ehdr img) + guint32 (i * Elf.e_shentsize (Elf.ehdr img))).

(** Section [i] can be read and is no dynamic symbol table. *)
Definition other_section (img : Elf.mapped_file) (i : Z) : Prop :=
  exists shdr,
    section_header img i = Some shdr /\ Elf.sh_type shdr <> Elf.SHT_DYNSYM.

(** Section [i] can be read and the loop of lines 365-384 gets past it: it
    is no dynamic symbol table, or it is one whose string table header can
    be read and whose size is a multiple of its entry size. *)
Definition passable_section (img : Elf.mapped_file) (i : Z) : Prop :=
  exists shdr,
    section_header img i = Some shdr
    /\ (Elf.sh_type shdr = Elf.SHT_DYNSYM ->
        (exists strtab_shdr,
            section_header img (Elf.sh_link shdr) = Some strtab_shdr)
        /\ Elf.sh_entsize shdr <> 0
        /\ Elf.sh_size shdr mod Elf.sh_entsize shdr = 0).

(** What lines 374-380 assign for the dynamic symbol table [shdr] whose
    string table is [strtab_shdr]. *)
Definition dynsym_of (shdr strtab_shdr : Elf.GumElfSHeader) : Elf.dynsym :=
  {| Elf.dynsym_section_offset := Elf.sh_offset shdr;
     Elf.dynsym_section_size := Elf.sh_size shdr;
     Elf.dynsym_entry_size := Elf.sh_entsize shdr;
     Elf.dynsym_strtab := Elf.sh_offset strtab_shdr |}.

(** ** Cross-thread rendezvous: the handshake *)

Module Handshake.
Import X86_64 Rendezvous.

Section Threads.

Context {U : Type}.

(** From the installation of the handler to the end of the second
    busy-wait: where a hijack signal of the thread can be under way. *)
Definition signalling (v : requester_pc) : bool :=
  match v with
  | at_tgkill | at_wait_load | at_visit | at_set_modify | at_wait_store =>
      true
  | _ => false
  end.

(** While the holder of the mutex can have a signal under way, the action
    installed for the hijack signal is the broker's. *)
Definition handler_installed (st : state U) : Prop :=
  forall s,
    lock st = Some s -> signalling (pc (threads st s)) = true ->
    action st = Broker.gum_hijack_action.

(** Once the handler on the target has loaded the shared buffer, and until
    the visitor is called, the buffer holds the context of the target. *)
Definition buffer_loaded (st : state U) : Prop :=
  forall s,
    lock st = Some s ->
    let tgt := threads st (thread_id (threads st s)) in
    handler tgt = Some (s, h_set_load)
    \/ (handler tgt = Some (s, h_wait_modify)
        /\ (pc (threads st s) = at_wait_load \/ pc (threads st s) = at_visit)) ->
    cpu_context st = gum_cpu_context_from_linux (uc tgt).

End Threads.

End Handshake.

(** ** Sample inputs *)

Definition sample_context_64 : X86_64.GumCpuContext :=
  {| X86_64.rip := 4198400; X86_64.r15 := 15; X86_64.r14 := 14;
     X86_64.r13 := 13; X86_64.r12 := 12; X86_64.r11 := 11; X86_64.r10 := 10;
     X86_64.r9 := 9; X86_64.r8 := 8; X86_64.rdi := 7; X86_64.rsi := 6;
     X86_64.rbp := 140737488347136; X86_64.rsp := 140737488347104;
     X86_64.rbx := 3; X86_64.rdx := 2; X86_64.rcx := 1;
     X86_64.rax := 18446744073709551615 |}.

Definition sample_ucontext_64 : X86_64.ucontext_t :=
  {| X86_64.gregs := replicate 23 0 |}.

Definition sample_context_32 : X86_32.GumCpuContext :=
  {| X86_32.eip := 134512640; X86_32.edi := 7; X86_32.esi := 6;
     X86_32.ebp := 3221225472; X86_32.esp := 3221225440; X86_32.ebx := 3;
     X86_32.edx := 2; X86_32.ecx := 1; X86_32.eax := 4294967295 |}.

Definition sample_ucontext_32 : X86_32.ucontext_t :=
  {| X86_32.gregs := replicate 19 0 |}.

Definition sample_state : Broker.state :=
  {| Broker.lock_held := false;
     Broker.did_load_cpu_context := true;
     Broker.did_modify_cpu_context := true;
     Broker.did_store_cpu_context := true;
     Broker.cpu_context := sample_context_64;
     Broker.hijack_action :=
       {| Broker.sa_sigaction := Broker.SIG_DFL;
          Broker.sa_mask := [];
          Broker.sa_flags := 0 |};
     Broker.threads :=
       fun t => if t =? 7 then Some sample_ucontext_64 else None;
     Broker.trace := [] |}.

Definition sample_caller : Broker.caller :=
  {| Broker.self_id := 1;
     Broker.self_regs := sample_ucontext_64;
     Broker.frame := Broker.through_rsp |}.

(** The same thread running code that reaches its frame as [a] says. *)
Definition framed_caller (a : Broker.frame_addressing) : Broker.caller :=
  {| Broker.self_id := 1;
     Broker.self_regs := sample_ucontext_64;
     Broker.frame := a |}.

Definition set_rax (v : Z) (c : X86_64.GumCpuContext) : X86_64.GumCpuContext :=
  {| X86_64.rip := X86_64.rip c; X86_64.r15 := X86_64.r15 c;
     X86_64.r14 := X86_64.r14 c; X86_64.r13 := X86_64.r13 c;
     X86_64.r12 := X86_64.r12 c; X86_64.r11 := X86_64.r11 c;
     X86_64.r10 := X86_64.r10 c; X86_64.r9 := X86_64.r9 c;
     X86_64.r8 := X86_64.r8 c; X86_64.rdi := X86_64.rdi c;
     X86_64.rsi := X86_64.rsi c; X86_64.rbp := X86_64.rbp c;
     X86_64.rsp := X86_64.rsp c; X86_64.rbx := X86_64.rbx c;
     X86_64.rdx := X86_64.rdx c; X86_64.rcx := X86_64.rcx c;
     X86_64.rax := v |}.


(** A visitor that writes a general register, and one that redirects the
    thread by writing the instruction pointer. *)
Definition write_rax : Broker.GumModifyThreadFunc unit :=
  fun _ c u => (set_rax 42 c, u).


Definition write_rsp : Broker.GumModifyThreadFunc unit :=
  fun _ c u =>
    ({| X86_64.rip := X86_64.rip c; X86_64.r15 := X86_64.r15 c;
        X86_64.r14 := X86_64.r14 c; X86_64.r13 := X86_64.r13 c;
        X86_64.r12 := X86_64.r12 c; X86_64.r11 := X86_64.r11 c;
        X86_64.r10 := X86_64.r10 c; X86_64.r9 := X86_64.r9 c;
        X86_64.r8 := X86_64.r8 c; X86_64.rdi := X86_64.rdi c;
        X86_64.rsi := X86_64.rsi c; X86_64.rbp := X86_64.rbp c;
        X86_64.rsp := 8192; X86_64.rbx := X86_64.rbx c;
        X86_64.rdx := X86_64.rdx c; X86_64.rcx := X86_64.rcx c;
        X86_64.rax := X86_64.rax c |}, u).

Definition write_rbp : Broker.GumModifyThreadFunc unit :=
  fun _ c u =>
    ({| X86_64.rip := X86_64.rip c; X86_64.r15 := X86_64.r15 c;
        X86_64.r14 := X86_64.r14 c; X86_64.r13 := X86_64.r13 c;
        X86_64.r12 := X86_64.r12 c; X86_64.r11 := X86_64.r11 c;
        X86_64.r10 := X86_64.r10 c; X86_64.r9 := X86_64.r9 c;
        X86_64.r8 := X86_64.r8 c; X86_64.rdi := X86_64.rdi c;
        X86_64.rsi := X86_64.rsi c; X86_64.rbp := 8192;
        X86_64.rsp := X86_64.rsp c; X86_64.rbx := X86_64.rbx c;
        X86_64.rdx := X86_64.rdx c; X86_64.rcx := X86_64.rcx c;
        X86_64.rax := X86_64.rax c |}, u).

(** The outcome of a same-thread call of [sample_caller] in [sample_state]
    that visits once, resumes the context and returns. *)
Definition returned_by (func : Broker.GumModifyThreadFunc unit)
  : Broker.outcome unit :=
  let uc := sample_ucontext_64 in
  let c := X86_64.gum_cpu_context_from_linux uc in
  let uc' := X86_64.gum_cpu_context_to_linux (fst (func 1 c tt)) uc in
  Broker.Returned true uc' tt
    (Broker.log (Broker.ev_getcontext uc')
       (Broker.log (Broker.ev_setcontext uc')
          (Broker.log (Broker.ev_visit 1 c)
             (Broker.log (Broker.ev_getcontext uc) sample_state)))).

(** The outcome of a same-thread call of [sample_caller] in [sample_state]
    that visits once and then leaves through the restored context. *)
Definition diverted_by (func : Broker.GumModifyThreadFunc unit)
  : Broker.outcome unit :=
  let uc := sample_ucontext_64 in
  let c := X86_64.gum_cpu_context_from_linux uc in
  let uc' := X86_64.gum_cpu_context_to_linux (fst (func 1 c tt)) uc in
  Broker.Diverted uc' tt
    (Broker.log (Broker.ev_setcontext uc')
       (Broker.log (Broker.ev_visit 1 c)
          (Broker.log (Broker.ev_getcontext uc) sample_state))).

Definition sample_kernel : Broker.kernel :=
  {| Broker.tgkill_accepts := true; Broker.target_runs := true |}.

Definition refusing_kernel : Broker.kernel :=
  {| Broker.tgkill_accepts := false; Broker.target_runs := true |}.

(** A process with a shared object mapped at 4096 (text) and 8192 (data),
    an anonymous mapping, the vdso, whose first bytes are an ELF header as
    well, an inaccessible region and a second shared object. *)
Definition sample_maps : list Procfs.maps_line :=
  [Procfs.mapping 4096 8192 "r-xp" (Some "/lib/libfoo.so"%string);
   Procfs.mapping 8192 12288 "rw-p" (Some "/lib/libfoo.so"%string);
   Procfs.mapping 12288 16384 "rw-p" None;
   Procfs.mapping 16384 20480 "r-xp" (Some "[vdso]"%string);
   Procfs.mapping 20480 24576 "---p" None;
   Procfs.mapping 24576 28672 "r-xp" (Some "/lib/libbar.so"%string)].

Definition sample_memory (address : Z) : option Z :=
  if (address =? 4096) || (address =? 16384) || (address =? 24576)
  then Some 127
  else if (address =? 4097) || (address =? 16385) || (address =? 24577)
  then Some 69
  else if (address =? 4098) || (address =? 16386) || (address =? 24578)
  then Some 76
  else if (address =? 4099) || (address =? 16387) || (address =? 24579)
  then Some 70
  else if (4096 <=? address) && (address <? 20480) then Some 0
  else if (24576 <=? address) && (address <? 28672) then Some 0
  else None.

Definition sample_process : Procfs.process :=
  {| Procfs.getpid := 100;
     Procfs.proc_maps :=
       fun pid => if pid =? 100 then Some sample_maps else None;
     Procfs.memory := sample_memory |}.

(** A maps file in which a file is mapped again after another one, and one
    whose file has been deleted since it was mapped. *)
Definition remapped_maps : list Procfs.maps_line :=
  [Procfs.mapping 4096 8192 "r-xp" (Some "/lib/libfoo.so"%string);
   Procfs.mapping 8192 16384 "r--p" (Some "/usr/share/locale.dat"%string);
   Procfs.mapping 16384 20480 "r-xp" (Some "/lib/libfoo.so"%string)].

Definition remapped_process : Procfs.process :=
  {| Procfs.getpid := 100;
     Procfs.proc_maps :=
       fun pid => if pid =? 100 then Some remapped_maps else None;
     Procfs.memory := sample_memory |}.

Definition deleted_maps : list Procfs.maps_line :=
  [Procfs.mapping 4096 8192 "r-xp"
     (Some "/lib/libfoo.so (deleted)"%string);
   Procfs.mapping 8192 12288 "rw-p" (Some "   "%string)].

Definition deleted_process : Procfs.process :=
  {| Procfs.getpid := 100;
     Procfs.proc_maps :=
       fun pid => if pid =? 100 then Some deleted_maps else None;
     Procfs.memory := sample_memory |}.

(** [g_path_get_basename] for the sample paths: what follows the last
    slash. *)
Fixpoint after_last_slash (acc s : string) : string :=
  match s with
  | EmptyString => acc
  | String c s =>
      if Ascii.eqb c "/" then after_last_slash EmptyString s
      else after_last_slash (acc ++ String c EmptyString)%string s
  end.

Definition sample_basename (path : string) : string :=
  after_last_slash EmptyString path.

(** The visitor that keeps going and leaves its user data alone. *)
Definition carry_on_always {A : Type} : A -> unit -> bool * unit :=
  fun _ u => (true, u).

(** The file of the first shared object: three section headers of 64 bytes
    at offset 64 (null, dynsym, strtab), five symbols of 24 bytes at offset
    512 and their names from offset 1024. *)
Definition null_section : Elf.GumElfSHeader :=
  {| Elf.sh_type := 0; Elf.sh_offset := 0; Elf.sh_size := 0;
     Elf.sh_link := 0; Elf.sh_entsize := 0 |}.

Definition dynsym_section : Elf.GumElfSHeader :=
  {| Elf.sh_type := 11; Elf.sh_offset := 512; Elf.sh_size := 120;
     Elf.sh_link := 2; Elf.sh_entsize := 24 |}.

Definition strtab_section : Elf.GumElfSHeader :=
  {| Elf.sh_type := 3; Elf.sh_offset := 1024; Elf.sh_size := 64;
     Elf.sh_link := 0; Elf.sh_entsize := 0 |}.

Definition null_symbol : Elf.GumElfSymbol :=
  {| Elf.st_name := 0; Elf.st_info := 0; Elf.st_shndx := 0;
     Elf.st_value := 0 |}.

(** global, function, defined *)
Definition open_symbol : Elf.GumElfSymbol :=
  {| Elf.st_name := 1; Elf.st_info := 18; Elf.st_shndx := 1;
     Elf.st_value := 256 |}.

(** local, function, defined *)
Definition helper_symbol : Elf.GumElfSymbol :=
  {| Elf.st_name := 6; Elf.st_info := 2; Elf.st_shndx := 1;
     Elf.st_value := 512 |}.

(** weak, function, undefined *)
Definition missing_symbol : Elf.GumElfSymbol :=
  {| Elf.st_name := 13; Elf.st_info := 34; Elf.st_shndx := 0;
     Elf.st_value := 0 |}.

(** weak, function, defined *)
Definition close_symbol : Elf.GumElfSymbol :=
  {| Elf.st_name := 21; Elf.st_info := 34; Elf.st_shndx := 1;
     Elf.st_value := 768 |}.

Definition sample_image : Elf.mapped_file :=
  {| Elf.ehdr := {| Elf.e_type := 3; Elf.e_shoff := 64;
                    Elf.e_shentsize := 64; Elf.e_shnum := 3 |};
     Elf.shdr_at := fun offset =>
       if offset =? 64 then Some null_section
       else if offset =? 128 then Some dynsym_section
       else if offset =? 192 then Some strtab_section
       else None;
     Elf.sym_at := fun offset =>
       if offset =? 512 then Some null_symbol
       else if offset =? 536 then Some open_symbol
       else if offset =? 560 then Some helper_symbol
       else if offset =? 584 then Some missing_symbol
       else if offset =? 608 then Some close_symbol
       else None;
     Elf.string_at := fun offset =>
       if offset =? 1025 then "open"%string
       else if offset =? 1030 then "helper"%string
       else if offset =? 1037 then "missing"%string
       else if offset =? 1045 then "close"%string
       else EmptyString |}.

(** The file of the second: the same, typed as an executable ([ET_EXEC]). *)
Definition sample_executable : Elf.mapped_file :=
  {| Elf.ehdr := {| Elf.e_type := 2; Elf.e_shoff := 64;
                    Elf.e_shentsize := 64; Elf.e_shnum := 3 |};
     Elf.shdr_at := Elf.shdr_at sample_image;
     Elf.sym_at := Elf.sym_at sample_image;
     Elf.string_at := Elf.string_at sample_image |}.

Definition sample_filesystem : Elf.filesystem :=
  {| Elf.open_rdonly := fun path =>
       if String.eqb path "/lib/libfoo.so" then 3
       else if String.eqb path "/lib/libbar.so" then 4
       else -1;
     Elf.file_of_fd := fun fd =>
       if fd =? 3
       then {| Elf.file_size := 2048;
               Elf.mmap_private := Some sample_image |}
       else {| Elf.file_size := 2048;
               Elf.mmap_private := Some sample_executable |} |}.

(** A file system in which no file can be opened. *)
Definition closed_filesystem : Elf.filesystem :=
  {| Elf.open_rdonly := fun _ => -1;
     Elf.file_of_fd := Elf.file_of_fd sample_filesystem |}.

(** The visitor that stops at once. *)
Definition stop_at_once {A : Type} : A -> unit -> bool * unit :=
  fun _ u => (false, u).

(** A process whose threads are all outside the broker, and the states it
    goes through when thread 1 calls the broker for thread 2, up to the
    sending of the signal. *)
Definition sample_thread : Rendezvous.thread unit :=
  {| Rendezvous.pc := Rendezvous.idle;
     Rendezvous.thread_id := 0;
     Rendezvous.func := write_rax;
     Rendezvous.user_data := tt;
     Rendezvous.old_action := Broker.hijack_action sample_state;
     Rendezvous.success := false;
     Rendezvous.uc := sample_ucontext_64;
     Rendezvous.handler := None;
     Rendezvous.pending := [] |}.

Definition run_0 : Rendezvous.state unit :=
  {| Rendezvous.lock := None;
     Rendezvous.did_load_cpu_context := true;
     Rendezvous.did_modify_cpu_context := true;
     Rendezvous.did_store_cpu_context := true;
     Rendezvous.cpu_context := sample_context_64;
     Rendezvous.action := Broker.hijack_action sample_state;
     Rendezvous.threads := fun _ => sample_thread |}.

(** after the call *)
Definition run_1 : Rendezvous.state unit :=
  Rendezvous.set_thread 1
    (Rendezvous.set_pc Rendezvous.at_lock
       (Rendezvous.set_call 2 write_rax tt (Rendezvous.threads run_0 1)))
    run_0.

(** after [G_LOCK] *)
Definition run_2 : Rendezvous.state unit :=
  Rendezvous.set_thread 1
    (Rendezvous.set_pc Rendezvous.at_clear_load (Rendezvous.threads run_1 1))
    (Rendezvous.set_lock (Some 1) run_1).

(** after the three flags are cleared *)
Definition run_3 : Rendezvous.state unit :=
  Rendezvous.set_thread 1
    (Rendezvous.set_pc Rendezvous.at_clear_modify
       (Rendezvous.threads run_2 1))
    (Rendezvous.set_did_load false run_2).

Definition run_4 : Rendezvous.state unit :=
  Rendezvous.set_thread 1
    (Rendezvous.set_pc Rendezvous.at_clear_store (Rendezvous.threads run_3 1))
    (Rendezvous.set_did_modify false run_3).

Definition run_5 : Rendezvous.state unit :=
  Rendezvous.set_thread 1
    (Rendezvous.set_pc Rendezvous.at_sigaction (Rendezvous.threads run_4 1))
    (Rendezvous.set_did_store false run_4).

(** after the handler is installed *)
Definition run_6 : Rendezvous.state unit :=
  Rendezvous.set_thread 1
    (Rendezvous.set_pc Rendezvous.at_tgkill
       (Rendezvous.set_old_action (Rendezvous.action run_5)
          (Rendezvous.threads run_5 1)))
    (Rendezvous.set_action Broker.gum_hijack_action run_5).

(** after [tgkill] has queued the signal for thread 2 *)
Definition run_7 : Rendezvous.state unit :=
  Rendezvous.set_thread 2
    (Rendezvous.set_pending [1]
       (Rendezvous.threads
          (Rendezvous.set_thread 1
             (Rendezvous.set_pc Rendezvous.at_wait_load
                (Rendezvous.threads run_6 1)) run_6) 2))
    (Rendezvous.set_thread 1
       (Rendezvous.set_pc Rendezvous.at_wait_load
          (Rendezvous.threads run_6 1)) run_6).

(** ** More sample inputs *)

(** [atoi] for the names of a task directory: the decimal digits the name
    starts with. *)
Fixpoint leading_digits (acc : Z) (s : string) : Z :=
  match s with
  | EmptyString => acc
  | String c s =>
      let d := Z.of_nat (nat_of_ascii c) - 48 in
      if (0 <=? d) && (d <=? 9) then leading_digits (10 * acc + d) s else acc
  end.

Definition sample_atoi (s : string) : Z := leading_digits 0 s.

(** The task directory of a process with the threads 1 (the caller) and 7,
    a thread 9 that has exited since the kernel listed it, and a thread 5
    whose stat file is gone already. *)
Definition sample_tasks : Threads.procfs :=
  {| Threads.proc_self_task := Some ["1"; "5"; "7"; "9"]%string;
     Threads.g_file_get_contents := fun path =>
       if String.eqb path "/proc/self/task/1/stat"
       then Some "1 (agent) R 0 1 1"%string
       else if String.eqb path "/proc/self/task/7/stat"
       then Some "7 (pool (io)) S 0 1 1"%string
       else if String.eqb path "/proc/self/task/9/stat"
       then Some "9 (gone) Z 0 1 1"%string
       else None |}.

(** The same with a thread 8 that a debugger has stopped (state [t]). *)
Definition traced_tasks : Threads.procfs :=
  {| Threads.proc_self_task := Some ["1"; "8"; "7"]%string;
     Threads.g_file_get_contents := fun path =>
       if String.eqb path "/proc/self/task/8/stat"
       then Some "8 (worker) t 0 1 1"%string
       else Threads.g_file_get_contents sample_tasks path |}.

Definition sample_kernels : Broker.GumThreadId -> Broker.kernel :=
  fun _ => sample_kernel.

(** The file of the first shared object without its dynamic symbol table:
    two section headers (null, strtab). *)
Definition stripped_image : Elf.mapped_file :=
  {| Elf.ehdr := {| Elf.e_type := 3; Elf.e_shoff := 64;
                    Elf.e_shentsize := 64; Elf.e_shnum := 2 |};
     Elf.shdr_at := fun offset =>
       if offset =? 64 then Some null_section
       else if offset =? 128 then Some strtab_section
       else None;
     Elf.sym_at := fun _ => None;
     Elf.string_at := Elf.string_at sample_image |}.

(** The same file with a dynamic symbol table whose header gives the entry
    size 0. *)
Definition empty_entry_section : Elf.GumElfSHeader :=
  {| Elf.sh_type := 11; Elf.sh_offset := 512; Elf.sh_size := 120;
     Elf.sh_link := 2; Elf.sh_entsize := 0 |}.

Definition broken_image : Elf.mapped_file :=
  {| Elf.ehdr := Elf.ehdr sample_image;
     Elf.shdr_at := fun offset =>
       if offset =? 64 then Some null_section
       else if offset =? 128 then Some empty_entry_section
       else if offset =? 192 then Some strtab_section
       else None;
     Elf.sym_at := Elf.sym_at sample_image;
     Elf.string_at := Elf.string_at sample_image |}.

(** The file of the first shared object laid out otherwise: the string table
    comes before the dynamic symbol table, at other offsets. *)
Definition relocated_strtab_section : Elf.GumElfSHeader :=
  {| Elf.sh_type := 3; Elf.sh_offset := 1536; Elf.sh_size := 64;
     Elf.sh_link := 0; Elf.sh_entsize := 0 |}.

Definition relocated_dynsym_section : Elf.GumElfSHeader :=
  {| Elf.sh_type := 11; Elf.sh_offset := 768; Elf.sh_size := 96;
     Elf.sh_link := 1; Elf.sh_entsize := 24 |}.

Definition relocated_image : Elf.mapped_file :=
  {| Elf.ehdr := Elf.ehdr sample_image;
     Elf.shdr_at := fun offset =>
       if offset =? 64 then Some null_section
       else if offset =? 128 then Some relocated_strtab_section
       else if offset =? 192 then Some relocated_dynsym_section
       else None;
     Elf.sym_at := fun offset =>
       if offset =? 768 then Some null_symbol
       else if offset =? 792 then Some open_symbol
       else if offset =? 816 then Some helper_symbol
       else if offset =? 840 then Some close_symbol
       else None;
     Elf.string_at := fun offset =>
       if offset =? 1537 then "open"%string
       else if offset =? 1542 then "helper"%string
       else if offset =? 1557 then "close"%string
       else EmptyString |}.

(** A file system whose only file is [img]. *)
Definition filesystem_of (img : Elf.mapped_file) : Elf.filesystem :=
  {| Elf.open_rdonly := fun _ => 3;
     Elf.file_of_fd := fun _ =>
       {| Elf.file_size := 2048; Elf.mmap_private := Some img |} |}.

(** The states after [run_7]: the signal is delivered to thread 2, its
    handler loads the shared buffer and sets the flag, and thread 1 leaves
    its first busy-wait. *)
Definition run_8 : Rendezvous.state unit :=
  Rendezvous.set_thread 2
    (Rendezvous.set_handler (Some (1, Rendezvous.h_load))
       (Rendezvous.set_pending [] (Rendezvous.threads run_7 2)))
    run_7.

Definition run_9 : Rendezvous.state unit :=
  Rendezvous.set_thread 2
    (Rendezvous.set_handler (Some (1, Rendezvous.h_set_load))
       (Rendezvous.threads run_8 2))
    (Rendezvous.set_cpu_context
       (X86_64.gum_cpu_context_from_linux
          (Rendezvous.uc (Rendezvous.threads run_8 2)))
       run_8).

Definition run_10 : Rendezvous.state unit :=
  Rendezvous.set_thread 2
    (Rendezvous.set_handler (Some (1, Rendezvous.h_wait_modify))
       (Rendezvous.threads run_9 2))
    (Rendezvous.set_did_load true run_9).

Definition run_11 : Rendezvous.state unit :=
  Rendezvous.set_thread 1
    (Rendezvous.set_pc Rendezvous.at_visit (Rendezvous.threads run_10 1))
    run_10.

(** * Part II: theorems *)

(** ** Machine integers *)

Lemma guint64_greg64 (x : Z) : is_guint64 x -> guint64 (greg64 x) = x.
Proof.
  unfold is_guint64, guint64, greg64, to_unsigned, to_signed. intros H.
  change (2 ^ (64 - 1)) with (2 ^ 63).
  rewrite Zminus_mod_idemp_l.
  replace (x + 2 ^ 63 - 2 ^ 63) with x by lia.
  apply Z.mod_small. exact H.
Qed.

Lemma guint32_greg32 (x : Z) : is_guint32 x -> guint32 (greg32 x) = x.
Proof.
  unfold is_guint32, guint32, greg32, to_unsigned, to_signed. intros H.
  change (2 ^ (32 - 1)) with (2 ^ 31).
  rewrite Zminus_mod_idemp_l.
  replace (x + 2 ^ 31 - 2 ^ 31) with x by lia.
  apply Z.mod_small. exact H.
Qed.

Lemma greg64_guint64 (x : Z) : is_greg64 x -> greg64 (guint64 x) = x.
Proof.
  unfold is_greg64, guint64, greg64, to_unsigned, to_signed. intros H.
  change (2 ^ (64 - 1)) with (2 ^ 63).
  rewrite Zplus_mod_idemp_l.
  rewrite Z.mod_small; lia.
Qed.

Lemma greg32_guint32 (x : Z) : is_greg32 x -> greg32 (guint32 x) = x.
Proof.
  unfold is_greg32, guint32, greg32, to_unsigned, to_signed. intros H.
  change (2 ^ (32 - 1)) with (2 ^ 31).
  rewrite Zplus_mod_idemp_l.
  rewrite Z.mod_small; lia.
Qed.

(** ** CPU-context marshaller *)

(** Reading a register out of the chain of stores [gum_cpu_context_to_linux]
    makes: skip the stores to other indices, stop at the store to this one. *)
Ltac greg_lookup Hlen :=
  repeat (rewrite list_lookup_total_insert_ne by (intros ?; discriminate));
  rewrite list_lookup_total_insert_eq
    by (rewrite ?length_insert, Hlen; apply Nat.ltb_lt; reflexivity).

Ltac greg_skip :=
  repeat (rewrite list_lookup_total_insert_ne by (intros ?; discriminate)).

Lemma to_linux_length_64 (c : X86_64.GumCpuContext) (uc : X86_64.ucontext_t) :
  length (X86_64.gregs (X86_64.gum_cpu_context_to_linux c uc))
  = length (X86_64.gregs uc).
Proof.
  unfold X86_64.gum_cpu_context_to_linux. cbv zeta.
  cbn [X86_64.gregs]. rewrite !length_insert. reflexivity.
Qed.

Lemma roundtrip_64 (c : X86_64.GumCpuContext) (uc : X86_64.ucontext_t) :
  X86_64.cpu_context_ok c ->
  length (X86_64.gregs uc) = X86_64.NGREG ->
  X86_64.gum_cpu_context_from_linux (X86_64.gum_cpu_context_to_linux c uc) = c.
Proof.
  intros Hc Hlen. destruct c.
  unfold X86_64.cpu_context_ok, X86_64.covered in Hc.
  cbn [X86_64.rip X86_64.r15 X86_64.r14 X86_64.r13 X86_64.r12 X86_64.r11
       X86_64.r10 X86_64.r9 X86_64.r8 X86_64.rdi X86_64.rsi X86_64.rbp
       X86_64.rsp X86_64.rbx X86_64.rdx X86_64.rcx X86_64.rax] in Hc.
  repeat (apply Forall_cons in Hc; destruct Hc as [? Hc]).
  unfold X86_64.gum_cpu_context_from_linux, X86_64.gum_cpu_context_to_linux.
  cbv zeta.
  cbn [X86_64.gregs X86_64.rip X86_64.r15 X86_64.r14 X86_64.r13 X86_64.r12
       X86_64.r11 X86_64.r10 X86_64.r9 X86_64.r8 X86_64.rdi X86_64.rsi
       X86_64.rbp X86_64.rsp X86_64.rbx X86_64.rdx X86_64.rcx X86_64.rax].
  f_equal; unfold X86_64.greg; greg_lookup Hlen;
    apply guint64_greg64; assumption.
Qed.

Lemma roundtrip_32 (c : X86_32.GumCpuContext) (uc : X86_32.ucontext_t) :
  X86_32.cpu_context_ok c ->
  length (X86_32.gregs uc) = X86_32.NGREG ->
  X86_32.gum_cpu_context_from_linux (X86_32.gum_cpu_context_to_linux c uc) = c.
Proof.
  intros Hc Hlen. destruct c.
  unfold X86_32.cpu_context_ok, X86_32.covered in Hc.
  cbn [X86_32.eip X86_32.edi X86_32.esi X86_32.ebp X86_32.esp X86_32.ebx
       X86_32.edx X86_32.ecx X86_32.eax] in Hc.
  repeat (apply Forall_cons in Hc; destruct Hc as [? Hc]).
  unfold X86_32.gum_cpu_context_from_linux, X86_32.gum_cpu_context_to_linux.
  cbv zeta.
  cbn [X86_32.gregs X86_32.eip X86_32.edi X86_32.esi X86_32.ebp X86_32.esp
       X86_32.ebx X86_32.edx X86_32.ecx X86_32.eax].
  f_equal; unfold X86_32.greg; greg_lookup Hlen;
    apply guint32_greg32; assumption.
Qed.

(** The marshaller writes nothing but the registers it covers: a register of
    the machine context outside the bank (the flags, say) keeps its value. *)
Lemma to_linux_frame_64 (c : X86_64.GumCpuContext) (uc : X86_64.ucontext_t)
    (i : nat) :
  (16 < i)%nat ->
  X86_64.greg (X86_64.gregs (X86_64.gum_cpu_context_to_linux c uc)) i
  = X86_64.greg (X86_64.gregs uc) i.
Proof.
  intros Hi. unfold X86_64.gum_cpu_context_to_linux, X86_64.greg. cbv zeta.
  cbn [X86_64.gregs].
  repeat (rewrite list_lookup_total_insert_ne
            by (unfold X86_64.REG_RIP, X86_64.REG_R15, X86_64.REG_R14,
                  X86_64.REG_R13, X86_64.REG_R12, X86_64.REG_R11,
                  X86_64.REG_R10, X86_64.REG_R9, X86_64.REG_R8,
                  X86_64.REG_RDI, X86_64.REG_RSI, X86_64.REG_RBP,
                  X86_64.REG_RSP, X86_64.REG_RBX, X86_64.REG_RDX,
                  X86_64.REG_RCX, X86_64.REG_RAX; lia)).
  reflexivity.
Qed.

(** C8. Converting a CpuContext into a kernel machine context with
    [gum_cpu_context_to_linux] and converting that machine context back with
    [gum_cpu_context_from_linux] gives back the CpuContext, register for
    register, in the x86-64 bank (instruction pointer and sixteen general
    registers) and in the x86-32 bank (instruction pointer and eight general
    registers).  The context holds values of its field type ([guint64],
    [guint32]) and the machine context has its [NGREG] registers. *)
Theorem cpu_context_roundtrip :
  (forall (c : X86_64.GumCpuContext) (uc : X86_64.ucontext_t),
      X86_64.cpu_context_ok c ->
      length (X86_64.gregs uc) = X86_64.NGREG ->
      X86_64.gum_cpu_context_from_linux
        (X86_64.gum_cpu_context_to_linux c uc) = c)
  /\
  (forall (c : X86_32.GumCpuContext) (uc : X86_32.ucontext_t),
      X86_32.cpu_context_ok c ->
      length (X86_32.gregs uc) = X86_32.NGREG ->
      X86_32.gum_cpu_context_from_linux
        (X86_32.gum_cpu_context_to_linux c uc) = c).
Proof.
  split.
  - intros c uc Hc Hlen. apply roundtrip_64; assumption.
  - intros c uc Hc Hlen. apply roundtrip_32; assumption.
Qed.

Lemma sample_context_64_ok : X86_64.cpu_context_ok sample_context_64.
Proof.
  unfold X86_64.cpu_context_ok, X86_64.covered, sample_context_64.
  cbn [X86_64.rip X86_64.r15 X86_64.r14 X86_64.r13 X86_64.r12 X86_64.r11
       X86_64.r10 X86_64.r9 X86_64.r8 X86_64.rdi X86_64.rsi X86_64.rbp
       X86_64.rsp X86_64.rbx X86_64.rdx X86_64.rcx X86_64.rax].
  repeat constructor; unfold is_guint64; lia.
Defined.

Lemma sample_context_32_ok : X86_32.cpu_context_ok sample_context_32.
Proof.
  unfold X86_32.cpu_context_ok, X86_32.covered, sample_context_32.
  cbn [X86_32.eip X86_32.edi X86_32.esi X86_32.ebp X86_32.esp X86_32.ebx
       X86_32.edx X86_32.ecx X86_32.eax].
  repeat constructor; unfold is_guint32; lia.
Defined.

Lemma cpu_context_roundtrip_witness :
  X86_64.gum_cpu_context_from_linux
    (X86_64.gum_cpu_context_to_linux sample_context_64 sample_ucontext_64)
  = sample_context_64
  /\ X86_32.gum_cpu_context_from_linux
       (X86_32.gum_cpu_context_to_linux sample_context_32 sample_ucontext_32)
     = sample_context_32.
Proof.
  split.
  - apply (proj1 cpu_context_roundtrip).
    + exact sample_context_64_ok.
    + reflexivity.
  - apply (proj2 cpu_context_roundtrip).
    + exact sample_context_32_ok.
    + reflexivity.
Defined.

(** ** Thread context broker *)







Lemma after_getcontext_modified {U : Type} (fuel : nat) (me : Broker.caller)
    (thread_id : Broker.GumThreadId) (func : Broker.GumModifyThreadFunc U)
    (uc : X86_64.ucontext_t) (user_data : U) (st : Broker.state) :
  Broker.after_getcontext fuel me thread_id func true uc user_data st
  = Broker.Returned true uc user_data st.
Proof. destruct fuel; reflexivity. Qed.

Lemma sample_ucontext_64_ok : X86_64.ucontext_ok sample_ucontext_64.
Proof.
  split; [ reflexivity | ].
  unfold sample_ucontext_64. cbn [X86_64.gregs replicate].
  repeat constructor; unfold is_greg64; lia.
Defined.




(** Whether a visitor that writes only the frame pointer, or only the stack
    pointer, gets its call back depends on how the code reaches its
    frame. *)
Lemma same_thread_frame_registers :
  Broker.gum_process_modify_thread sample_kernel 1
    (framed_caller Broker.through_rsp) 1 write_rbp tt sample_state
  = returned_by write_rbp
  /\ Broker.gum_process_modify_thread sample_kernel 1
       (framed_caller Broker.through_rsp) 1 write_rsp tt sample_state
     = diverted_by write_rsp
  /\ Broker.gum_process_modify_thread sample_kernel 1
       (framed_caller Broker.through_rbp) 1 write_rbp tt sample_state
     = diverted_by write_rbp
  /\ Broker.gum_process_modify_thread sample_kernel 1
       (framed_caller Broker.through_rbp) 1 write_rsp tt sample_state
     = returned_by write_rsp.
Proof. repeat split; vm_compute; reflexivity. Qed.

(** C2. A cross-thread call whose [tgkill] fails, entered with the mutex
    free: the call returns FALSE; the action that was installed for the
    hijack signal is installed again and the mutex is released (the run is
    lock, install, tgkill, restore, unlock); the visitor is not called (no
    visit in the run, the user data is returned as given); and no thread's
    machine context has changed. *)
Theorem cross_thread_tgkill_failure {U : Type} (k : Broker.kernel)
    (fuel : nat) (me : Broker.caller) (thread_id : Broker.GumThreadId)
    (func : Broker.GumModifyThreadFunc U) (user_data : U)
    (st : Broker.state) :
  thread_id <> Broker.self_id me ->
  Broker.lock_held st = false ->
  Broker.tgkill k st thread_id = None ->
  exists st',
    Broker.gum_process_modify_thread k fuel me thread_id func user_data st
      = Broker.Returned false (Broker.self_regs me) user_data st'
    /\ Broker.hijack_action st' = Broker.hijack_action st
    /\ Broker.lock_held st' = false
    /\ Broker.threads st' = Broker.threads st
    /\ Broker.cpu_context st' = Broker.cpu_context st
    /\ Broker.trace st' = Broker.trace st ++
         [Broker.ev_lock;
          Broker.ev_sigaction Broker.gum_hijack_action
            (Broker.hijack_action st);
          Broker.ev_tgkill thread_id false;
          Broker.ev_sigaction (Broker.hijack_action st)
            Broker.gum_hijack_action;
          Broker.ev_unlock].
Proof.
  intros Hne Hfree Hkill.
  unfold Broker.gum_process_modify_thread,
    Broker.gum_process_get_current_thread_id.
  destruct (Z.eqb_spec thread_id (Broker.self_id me)) as [Heq | _];
    [ contradiction | ].
  rewrite Hfree. unfold Broker.rendezvous.
  set (st1 := Broker.log _ (Broker.set_hijack_action _ _)).
  assert (Hk1 : Broker.tgkill k st1 thread_id = None) by exact Hkill.
  rewrite Hk1.
  eexists. split; [ reflexivity | ].
  cbn. rewrite <- !app_assoc. cbn. repeat split; reflexivity.
Qed.

Lemma cross_thread_tgkill_failure_witness :
  exists st',
    Broker.gum_process_modify_thread refusing_kernel 0 sample_caller 7
      write_rax tt sample_state
      = Broker.Returned false sample_ucontext_64 tt st'
    /\ Broker.hijack_action st' = Broker.hijack_action sample_state
    /\ Broker.lock_held st' = false
    /\ Broker.threads st' = Broker.threads sample_state
    /\ Broker.cpu_context st' = Broker.cpu_context sample_state
    /\ Broker.trace st' = Broker.trace sample_state ++
         [Broker.ev_lock;
          Broker.ev_sigaction Broker.gum_hijack_action
            (Broker.hijack_action sample_state);
          Broker.ev_tgkill 7 false;
          Broker.ev_sigaction (Broker.hijack_action sample_state)
            Broker.gum_hijack_action;
          Broker.ev_unlock].
Proof.
  apply (cross_thread_tgkill_failure refusing_kernel 0 sample_caller 7
           write_rax tt sample_state).
  - discriminate.
  - reflexivity.
  - reflexivity.
Defined.

(** C10. The same-thread path, whatever the visitor does: the call ends (it
    returns, or control leaves through the restored context) in a state whose
    mutex, three flags, shared context buffer and hijack-signal action are
    those it started from; the other threads are untouched; and no event of
    the run acquires the mutex. *)
Theorem same_thread_frame {U : Type} (k : Broker.kernel) (fuel : nat)
    (me : Broker.caller) (func : Broker.GumModifyThreadFunc U)
    (user_data : U) (st : Broker.state) :
  exists st' events,
    Broker.final_state
      (Broker.gum_process_modify_thread k (S fuel) me (Broker.self_id me)
         func user_data st) = Some st'
    /\ Broker.rendezvous_state st' = Broker.rendezvous_state st
    /\ Broker.threads st' = Broker.threads st
    /\ Broker.trace st' = Broker.trace st ++ events
    /\ Forall (fun e => Broker.is_lock e = false) events.
Proof.
  unfold Broker.gum_process_modify_thread,
    Broker.gum_process_get_current_thread_id.
  rewrite Z.eqb_refl.
  cbn [Broker.after_getcontext negb].
  destruct (func (Broker.self_id me) _ user_data) as [c1 ud1].
  destruct (Broker.setcontext_reenters _ _).
  - rewrite after_getcontext_modified. eexists _, _.
    split; [ reflexivity | ].
    cbn. rewrite <- !app_assoc. cbn. repeat split. repeat constructor.
  - eexists _, _. split; [ reflexivity | ].
    cbn. rewrite <- !app_assoc. cbn. repeat split. repeat constructor.
Qed.

(** ** Visitors *)

Lemma visit_collect {A : Type} (items seen : list A) :
  visit collect items seen = seen ++ items.
Proof.
  revert seen. induction items as [| x items IH]; intros seen; cbn.
  - rewrite app_nil_r. reflexivity.
  - rewrite IH, <- app_assoc. reflexivity.
Qed.

Lemma visit_recording {A U : Type} (func : A -> U -> bool * U)
    (items : list A) (user_data : U) (seen : list A) :
  visit (recording func) items (user_data, seen)
  = (visit func items user_data, seen ++ visited func items user_data).
Proof.
  revert user_data seen.
  induction items as [| x items IH]; intros user_data seen; cbn.
  - rewrite app_nil_r. reflexivity.
  - destruct (func x user_data) as [carry_on ud1]. destruct carry_on.
    + rewrite IH, <- app_assoc. reflexivity.
    + reflexivity.
Qed.

(** ** Range enumeration *)

Lemma enumerate_ranges_loop_visit {U : Type} (prot : Z)
    (func : Procfs.GumFoundRangeFunc U) (lines : list Procfs.maps_line)
    (user_data : U) :
  Forall Procfs.well_formed lines ->
  Procfs.enumerate_ranges_loop prot func lines user_data
  = Ok (visit func
          (map Procfs.range_of_line
             (List.filter (Procfs.line_satisfies prot) lines))
          user_data).
Proof.
  intros Hwf. revert user_data.
  induction Hwf as [| line lines Hline _ IH]; intros user_data.
  - reflexivity.
  - destruct line as [| start end_ perms pathname];
      [ contradiction Hline; reflexivity | ].
    cbn [Procfs.enumerate_ranges_loop Procfs.sscanf_start_end_perms
         List.filter].
    unfold Procfs.line_satisfies at 1.
    cbn [Procfs.sscanf_start_end_perms].
    change (negb (3 =? 3)) with false. cbv iota.
    destruct (Z.land _ prot =? prot).
    + cbn [map visit]. unfold Procfs.range_of_line at 1.
      cbn [Procfs.sscanf_start_end_perms].
      destruct (func _ user_data) as [carry_on ud1].
      destruct carry_on; [ apply IH | reflexivity ].
    + apply IH.
Qed.

Lemma perms_decode (perms : string) :
  Procfs.gum_page_protection_from_proc_perms_string perms
  = (if Ascii.eqb (Procfs.char_at perms 0) "r"
     then Procfs.GUM_PAGE_READ else 0)
    + (if Ascii.eqb (Procfs.char_at perms 1) "w"
       then Procfs.GUM_PAGE_WRITE else 0)
    + (if Ascii.eqb (Procfs.char_at perms 2) "x"
       then Procfs.GUM_PAGE_EXECUTE else 0).
Proof.
  unfold Procfs.gum_page_protection_from_proc_perms_string.
  destruct (Ascii.eqb (Procfs.char_at perms 0) "r"),
    (Ascii.eqb (Procfs.char_at perms 1) "w"),
    (Ascii.eqb (Procfs.char_at perms 2) "x"); reflexivity.
Qed.

(** C7. Over well-formed maps lines, [gum_linux_enumerate_ranges] offers the
    visitor, in file order, the pair (range with base the parsed start and
    size the parsed end minus the start, decoded protection) of exactly the
    lines whose decoded protection satisfies
    [(cur_prot & prot) == prot]: a visitor is called on them until it returns
    FALSE, and the visitor that never stops receives a pair if and only if it
    is the pair of such a line.  The protection is decoded from the
    permissions string by position: ['r'] at 0 gives Read, ['w'] at 1 Write,
    ['x'] at 2 Execute, and nothing else gives anything; ["---p"] is
    NoAccess and ["rwxp"] is Read|Write|Execute. *)
Theorem enumerate_ranges_emits :
  (forall (U : Type) (p : Procfs.process) (pid prot : Z)
          (func : Procfs.GumFoundRangeFunc U) (user_data : U)
          (lines : list Procfs.maps_line),
      Procfs.proc_maps p pid = Some lines ->
      Forall Procfs.well_formed lines ->
      Procfs.gum_linux_enumerate_ranges p pid prot func user_data
      = Ok (visit func
              (map Procfs.range_of_line
                 (List.filter (Procfs.line_satisfies prot) lines))
              user_data))
  /\ (forall (p : Procfs.process) (pid prot : Z)
             (lines : list Procfs.maps_line),
         Procfs.proc_maps p pid = Some lines ->
         Forall Procfs.well_formed lines ->
         exists emitted,
           Procfs.gum_linux_enumerate_ranges p pid prot collect [] = Ok emitted
           /\ forall range cur_prot,
                In (range, cur_prot) emitted <->
                exists start end_ perms pathname,
                  In (Procfs.mapping start end_ perms pathname) lines
                  /\ cur_prot
                     = Procfs.gum_page_protection_from_proc_perms_string perms
                  /\ Z.land cur_prot prot = prot
                  /\ Procfs.base_address range = start
                  /\ Procfs.size range = guint64 (end_ - start))
  /\ (forall start end_ : Z,
         0 <= start <= end_ -> end_ < 2 ^ 64 ->
         guint64 (end_ - start) = end_ - start)
  /\ (forall perms : string,
         Procfs.gum_page_protection_from_proc_perms_string perms
         = (if Ascii.eqb (Procfs.char_at perms 0) "r"
            then Procfs.GUM_PAGE_READ else Procfs.GUM_PAGE_NO_ACCESS)
           + (if Ascii.eqb (Procfs.char_at perms 1) "w"
              then Procfs.GUM_PAGE_WRITE else Procfs.GUM_PAGE_NO_ACCESS)
           + (if Ascii.eqb (Procfs.char_at perms 2) "x"
              then Procfs.GUM_PAGE_EXECUTE else Procfs.GUM_PAGE_NO_ACCESS))
  /\ Procfs.gum_page_protection_from_proc_perms_string "---p"
     = Procfs.GUM_PAGE_NO_ACCESS
  /\ Procfs.gum_page_protection_from_proc_perms_string "rwxp"
     = Z.lor Procfs.GUM_PAGE_READ
         (Z.lor Procfs.GUM_PAGE_WRITE Procfs.GUM_PAGE_EXECUTE).
Proof.
  split; [ | split; [ | split; [ | split; [ | split ] ] ] ].
  - intros U p pid prot func user_data lines Hmaps Hwf.
    unfold Procfs.gum_linux_enumerate_ranges. rewrite Hmaps.
    apply enumerate_ranges_loop_visit. exact Hwf.
  - intros p pid prot lines Hmaps Hwf.
    unfold Procfs.gum_linux_enumerate_ranges. rewrite Hmaps.
    rewrite (enumerate_ranges_loop_visit prot collect lines [] Hwf).
    rewrite visit_collect. cbn [app].
    eexists. split; [ reflexivity | ].
    intros range cur_prot. rewrite in_map_iff. split.
    + intros (line & Hline & Hin). apply filter_In in Hin.
      destruct Hin as [Hin Hsat].
      destruct line as [| start end_ perms pathname].
      * rewrite Forall_forall in Hwf.
        exfalso. apply (Hwf Procfs.garbled); [ | reflexivity ].
        apply list_elem_of_In. exact Hin.
      * exists start, end_, perms, pathname.
        unfold Procfs.range_of_line in Hline.
        cbn [Procfs.sscanf_start_end_perms] in Hline.
        injection Hline as <- <-.
        unfold Procfs.line_satisfies in Hsat.
        cbn [Procfs.sscanf_start_end_perms] in Hsat.
        apply Z.eqb_eq in Hsat.
        repeat split; try assumption; reflexivity.
    + intros (start & end_ & perms & pathname & Hin & Hprot & Hsat & Hb & Hs).
      exists (Procfs.mapping start end_ perms pathname). split.
      * unfold Procfs.range_of_line. cbn [Procfs.sscanf_start_end_perms].
        destruct range as [b s]. cbn in Hb, Hs. subst. reflexivity.
      * apply filter_In. split; [ exact Hin | ].
        unfold Procfs.line_satisfies. cbn [Procfs.sscanf_start_end_perms].
        apply Z.eqb_eq. rewrite <- Hprot. exact Hsat.
  - intros start end_ Hle Hlt. unfold guint64, to_unsigned.
    apply Z.mod_small. lia.
  - intros perms. apply perms_decode.
  - reflexivity.
  - reflexivity.
Qed.

Lemma well_formed_sample_maps : Forall Procfs.well_formed sample_maps.
Proof. repeat constructor; discriminate. Defined.

Lemma enumerate_ranges_emits_witness :
  Procfs.gum_linux_enumerate_ranges sample_process 100
    (Z.lor Procfs.GUM_PAGE_READ Procfs.GUM_PAGE_EXECUTE) collect []
  = Ok [({| Procfs.base_address := 4096; Procfs.size := 4096 |}, 5);
        ({| Procfs.base_address := 16384; Procfs.size := 4096 |}, 5);
        ({| Procfs.base_address := 24576; Procfs.size := 4096 |}, 5)].
Proof.
  exact (proj1 enumerate_ranges_emits _ sample_process 100
           (Z.lor Procfs.GUM_PAGE_READ Procfs.GUM_PAGE_EXECUTE) collect []
           sample_maps eq_refl well_formed_sample_maps).
Defined.

(** ** Module enumeration *)

(** One turn of the loop of [gum_process_enumerate_modules]. *)
Lemma enumerate_modules_loop_cons {U : Type} (basename : string -> string)
    (p : Procfs.process) (func : Procfs.GumFoundModuleFunc U)
    (line : Procfs.maps_line) (lines : list Procfs.maps_line)
    (prev_path : string) (user_data : U) :
  Procfs.enumerate_modules_loop basename p func (line :: lines) prev_path
    user_data
  = match line with
    | Procfs.garbled => Abort assertion_failed
    | Procfs.mapping start _ _ pathname =>
        match Procfs.path_field pathname with
        | None =>
            Procfs.enumerate_modules_loop basename p func lines prev_path
              user_data
        | Some path =>
            if String.eqb path prev_path
               || Ascii.eqb (Procfs.char_at path 0) "["
            then
              Procfs.enumerate_modules_loop basename p func lines prev_path
                user_data
            else
              match Procfs.read_bytes p start 4 with
              | None => Abort memory_fault
              | Some bytes =>
                  if negb (Procfs.bytes_eqb bytes Procfs.elf_magic) then
                    Procfs.enumerate_modules_loop basename p func lines
                      prev_path user_data
                  else
                    let '(carry_on, user_data) :=
                      func (basename path, start, path) user_data in
                    if carry_on then
                      Procfs.enumerate_modules_loop basename p func lines
                        path user_data
                    else Ok user_data
              end
        end
    end.
Proof.
  destruct line as [| start end_ perms pathname]; [ reflexivity | ].
  cbn [Procfs.enumerate_modules_loop Procfs.sscanf_start_path].
  destruct (Procfs.path_field pathname); reflexivity.
Qed.

Lemma append_first (x : ascii) (a b : string) :
  (String x a ++ b)%string = String x (a ++ b)%string.
Proof. reflexivity. Qed.

(** What [%s] stores is a word: it is not empty and holds no white space. *)
Lemma word_no_space (input : string) (i : nat) (c : ascii) :
  String.get i (Procfs.word input) = Some c -> Procfs.isspace c = false.
Proof.
  revert i. induction input as [| a input IH]; intros i; [ discriminate | ].
  cbn [Procfs.word]. destruct (Procfs.isspace a) eqn:Ha; [ discriminate | ].
  destruct i as [| i]; cbn [String.get].
  - intros [= <-]. exact Ha.
  - apply IH.
Qed.

Lemma scan_s_word (input path : string) :
  Procfs.scan_s input = Some path ->
  path <> EmptyString
  /\ forall i c, String.get i path = Some c -> Procfs.isspace c = false.
Proof.
  unfold Procfs.scan_s.
  destruct (Procfs.word (Procfs.skip_space input)) as [| a w] eqn:Hw;
    [ discriminate | ].
  intros [= <-]. split; [ discriminate | ].
  intros i c. rewrite <- Hw. apply word_no_space.
Qed.

Lemma path_field_not_empty (pathname : option string) (path : string) :
  Procfs.path_field pathname = Some path -> path <> EmptyString.
Proof.
  destruct pathname as [input |]; [ | discriminate ].
  intros H. exact (proj1 (scan_s_word input path H)).
Qed.

(** A pathname without white space is stored whole. *)
Lemma word_whole (path : string) :
  (forall i c, String.get i path = Some c -> Procfs.isspace c = false) ->
  Procfs.word path = path /\ Procfs.skip_space path = path.
Proof.
  induction path as [| a path IH]; intros Hall; [ split; reflexivity | ].
  cbn [Procfs.word Procfs.skip_space].
  rewrite (Hall 0%nat a eq_refl). split; [ | reflexivity ].
  f_equal. apply IH. intros i c Hi. exact (Hall (S i) c Hi).
Qed.

Lemma scan_s_whole (path : string) :
  path <> EmptyString ->
  (forall i c, String.get i path = Some c -> Procfs.isspace c = false) ->
  Procfs.scan_s path = Some path.
Proof.
  intros Hne Hall. unfold Procfs.scan_s.
  destruct (word_whole path Hall) as [Hw Hs]. rewrite Hs, Hw.
  destruct path; [ contradiction Hne; reflexivity | reflexivity ].
Qed.

(** Of a pathname with white space in it, the part before it is stored. *)
Lemma scan_s_first_word (path : string) (blank : ascii) (rest : string) :
  path <> EmptyString ->
  (forall i c, String.get i path = Some c -> Procfs.isspace c = false) ->
  Procfs.isspace blank = true ->
  Procfs.scan_s (path ++ String blank rest) = Some path.
Proof.
  intros Hne Hall Hblank. unfold Procfs.scan_s.
  assert (Hword : Procfs.word (path ++ String blank rest) = path).
  { clear Hne. induction path as [| a path IH].
    - change (Procfs.word (String blank rest) = EmptyString).
      cbn [Procfs.word]. rewrite Hblank. reflexivity.
    - rewrite append_first. cbn [Procfs.word].
      rewrite (Hall 0%nat a eq_refl). f_equal.
      apply IH. intros i c Hi. exact (Hall (S i) c Hi). }
  destruct path as [| a path]; [ contradiction Hne; reflexivity | ].
  rewrite append_first in *. cbn [Procfs.skip_space].
  rewrite (Hall 0%nat a eq_refl). rewrite Hword. reflexivity.
Qed.

Lemma from_line_cons (p : Procfs.process) (basename : string -> string)
    (line : Procfs.maps_line) (lines : list Procfs.maps_line)
    (r : Procfs.module_record) :
  Procfs.from_line p basename lines r ->
  Procfs.from_line p basename (line :: lines) r.
Proof.
  destruct r as [[name address] path]. unfold Procfs.from_line.
  intros (H1 & H2 & H3 & e & perms & pathname & H4 & H5).
  repeat split; try assumption.
  exists e, perms, pathname. split; [ right; exact H4 | exact H5 ].
Qed.

Lemma paths_alternate_adjacent (prev : string)
    (records : list Procfs.module_record) (i : nat)
    (r r' : Procfs.module_record) :
  Procfs.paths_alternate prev records ->
  records !! i = Some r -> records !! S i = Some r' ->
  Procfs.record_path r' <> Procfs.record_path r.
Proof.
  revert prev i.
  induction records as [| r0 records IH]; intros prev i Hchain Hi Hi'.
  - discriminate.
  - destruct Hchain as [_ Hchain]. destruct i as [| i].
    + cbn in Hi. injection Hi as ->.
      destruct records as [| r1 records]; [ discriminate | ].
      cbn in Hi'. injection Hi' as ->. exact (proj1 Hchain).
    + exact (IH _ i Hchain Hi Hi').
Qed.

(** The invariant of the loop of [gum_process_enumerate_modules]: what a run
    adds to the records seen so far comes from the lines read, and no path
    repeats the one before it, starting from [prev_path]. *)
Lemma enumerate_modules_loop_invariant {U : Type}
    (basename : string -> string) (p : Procfs.process)
    (func : Procfs.GumFoundModuleFunc U) (lines : list Procfs.maps_line) :
  forall (prev_path : string) (user_data : U)
         (seen0 : list Procfs.module_record) (user_data' : U)
         (seen : list Procfs.module_record),
  Procfs.enumerate_modules_loop basename p (recording func) lines prev_path
    (user_data, seen0) = Ok (user_data', seen) ->
  exists new, seen = seen0 ++ new
    /\ Forall (Procfs.from_line p basename lines) new
    /\ Procfs.paths_alternate prev_path new.
Proof.
  induction lines as [| line lines IH];
    intros prev_path user_data seen0 user_data' seen Hrun.
  - cbn in Hrun. injection Hrun as <- <-. exists [].
    rewrite app_nil_r. repeat split. constructor.
  - assert (Hskip :
      Procfs.enumerate_modules_loop basename p (recording func) lines
        prev_path (user_data, seen0) = Ok (user_data', seen) ->
      exists new, seen = seen0 ++ new
        /\ Forall (Procfs.from_line p basename (line :: lines)) new
        /\ Procfs.paths_alternate prev_path new).
    { intros H. destruct (IH _ _ _ _ _ H) as (new & Hs & Hall & Hch).
      exists new. repeat split; try assumption.
      eapply Forall_impl; [ exact Hall | ]. intros r. apply from_line_cons. }
    rewrite enumerate_modules_loop_cons in Hrun.
    destruct line as [| start end_ perms pathname]; [ discriminate | ].
    destruct (Procfs.path_field pathname) as [path |] eqn:Hfield;
      [ | apply Hskip; exact Hrun ].
    destruct (String.eqb_spec path prev_path) as [Heq | Hne];
      cbn [orb] in Hrun.
    { apply Hskip. exact Hrun. }
    destruct (Ascii.eqb_spec (Procfs.char_at path 0) "[") as [Hb | Hnb].
    { apply Hskip. exact Hrun. }
    destruct (Procfs.read_bytes p start 4) as [bytes |] eqn:Hread;
      [ | discriminate ].
    unfold Procfs.bytes_eqb in Hrun.
    destruct (bool_decide_reflect (bytes = Procfs.elf_magic))
      as [Hmagic | Hnm]; cbn [negb] in Hrun.
    2: { apply Hskip. exact Hrun. }
    subst bytes.
    unfold recording at 1 in Hrun.
    destruct (func (basename path, start, path) user_data)
      as [carry_on ud1].
    assert (Hgood :
      Procfs.from_line p basename
        (Procfs.mapping start end_ perms pathname :: lines)
        (basename path, start, path)).
    { repeat split; try assumption.
      exists end_, perms, pathname. split; [ left; reflexivity | exact Hfield ]. }
    destruct carry_on.
    + destruct (IH _ _ _ _ _ Hrun) as (new & Hs & Hall & Hch).
      exists ((basename path, start, path) :: new).
      rewrite Hs, <- app_assoc. repeat split.
      * constructor; [ exact Hgood | ].
        eapply Forall_impl; [ exact Hall | ].
        intros r. apply from_line_cons.
      * exact Hne.
      * exact Hch.
    + injection Hrun as <- <-. exists [(basename path, start, path)].
      repeat split.
      * constructor; [ exact Hgood | constructor ].
      * exact Hne.
Qed.

(** How far a run of the loop gets: it reads a first part of the lines and
    returns, at their end or where the visitor stops it, or the process
    ends at the line that follows them. *)
Lemma enumerate_modules_loop_reads {U : Type} (basename : string -> string)
    (p : Procfs.process) (func : Procfs.GumFoundModuleFunc U)
    (lines : list Procfs.maps_line) :
  forall (prev_path : string) (user_data : U),
  exists read rest user_data',
    lines = read ++ rest
    /\ Procfs.enumerate_modules_loop basename p func read prev_path user_data
       = Ok user_data'
    /\ (Procfs.enumerate_modules_loop basename p func lines prev_path
          user_data = Ok user_data'
        \/ exists why line rest',
             rest = line :: rest'
             /\ Procfs.enumerate_modules_loop basename p func lines
                  prev_path user_data = Abort why
             /\ Procfs.enumerate_modules_loop basename p func
                  (read ++ [line]) prev_path user_data = Abort why
             /\ Procfs.fatal_line p line).
Proof.
  induction lines as [| line lines IH]; intros prev_path user_data.
  - exists [], [], user_data. repeat split. left. reflexivity.
  - assert (Hskip :
      Procfs.enumerate_modules_loop basename p func (line :: lines)
        prev_path user_data
      = Procfs.enumerate_modules_loop basename p func lines prev_path
          user_data ->
      (forall read,
          Procfs.enumerate_modules_loop basename p func (line :: read)
            prev_path user_data
          = Procfs.enumerate_modules_loop basename p func read prev_path
              user_data) ->
      exists read rest user_data',
        line :: lines = read ++ rest
        /\ Procfs.enumerate_modules_loop basename p func read prev_path
             user_data = Ok user_data'
        /\ (Procfs.enumerate_modules_loop basename p func (line :: lines)
              prev_path user_data = Ok user_data'
            \/ exists why line' rest',
                 rest = line' :: rest'
                 /\ Procfs.enumerate_modules_loop basename p func
                      (line :: lines) prev_path user_data = Abort why
                 /\ Procfs.enumerate_modules_loop basename p func
                      (read ++ [line']) prev_path user_data = Abort why
                 /\ Procfs.fatal_line p line')).
    { intros Hhere Hany.
      destruct (IH prev_path user_data)
        as (read & rest & ud' & Hsplit & Hread & Hend).
      exists (line :: read), rest, ud'. rewrite Hhere, Hany.
      split; [ cbn [app]; rewrite Hsplit; reflexivity | ].
      split; [ exact Hread | ].
      destruct Hend as [Hok | (why & line' & rest' & Hr & Hrun & Hat & Hf)];
        [ left; exact Hok | right ].
      exists why, line', rest'. cbn [app]. rewrite Hany.
      repeat split; assumption. }
    assert (Hfatal :
      forall why,
        (forall later,
            Procfs.enumerate_modules_loop basename p func (line :: later)
              prev_path user_data = Abort why) ->
        Procfs.fatal_line p line ->
        exists read rest user_data',
          line :: lines = read ++ rest
          /\ Procfs.enumerate_modules_loop basename p func read prev_path
               user_data = Ok user_data'
          /\ (Procfs.enumerate_modules_loop basename p func (line :: lines)
                prev_path user_data = Ok user_data'
              \/ exists why line' rest',
                   rest = line' :: rest'
                   /\ Procfs.enumerate_modules_loop basename p func
                        (line :: lines) prev_path user_data = Abort why
                   /\ Procfs.enumerate_modules_loop basename p func
                        (read ++ [line']) prev_path user_data = Abort why
                   /\ Procfs.fatal_line p line')).
    { intros why Hany Hline. exists [], (line :: lines), user_data.
      repeat split. right. exists why, line, lines.
      repeat split; [ apply Hany | apply Hany | exact Hline ]. }
    destruct line as [| start end_ perms pathname].
    { apply (Hfatal assertion_failed);
        [ intros later; reflexivity | left; reflexivity ]. }
    destruct (Procfs.path_field pathname) as [path |] eqn:Hfield.
    2: { apply Hskip; [ | intros read ];
           rewrite enumerate_modules_loop_cons, Hfield; reflexivity. }
    destruct (String.eqb path prev_path
              || Ascii.eqb (Procfs.char_at path 0) "[") eqn:Hsame.
    { apply Hskip; [ | intros read ];
        rewrite enumerate_modules_loop_cons, Hfield, Hsame; reflexivity. }
    destruct (Procfs.read_bytes p start 4) as [bytes |] eqn:Hread.
    2: { apply (Hfatal memory_fault).
         - intros later.
           rewrite enumerate_modules_loop_cons, Hfield, Hsame, Hread.
           reflexivity.
         - right. exists start, end_, perms, pathname.
           split; [ reflexivity | exact Hread ]. }
    destruct (negb (Procfs.bytes_eqb bytes Procfs.elf_magic)) eqn:Hmagic.
    { apply Hskip; [ | intros read ];
        rewrite enumerate_modules_loop_cons, Hfield, Hsame, Hread, Hmagic;
        reflexivity. }
    destruct (func (basename path, start, path) user_data)
      as [carry_on ud1] eqn:Hfunc.
    assert (Hhere :
      forall read,
        Procfs.enumerate_modules_loop basename p func
          (Procfs.mapping start end_ perms pathname :: read) prev_path
          user_data
        = if carry_on
          then Procfs.enumerate_modules_loop basename p func read path ud1
          else Ok ud1).
    { intros read.
      rewrite enumerate_modules_loop_cons, Hfield, Hsame, Hread, Hmagic,
        Hfunc. reflexivity. }
    destruct carry_on.
    + destruct (IH path ud1) as (read & rest & ud' & Hsplit & Hrun & Hend).
      exists (Procfs.mapping start end_ perms pathname :: read), rest, ud'.
      rewrite !Hhere.
      split; [ cbn [app]; rewrite Hsplit; reflexivity | ].
      split; [ exact Hrun | ].
      destruct Hend as [Hok | (why & line' & rest' & Hr & Hrun' & Hat & Hf)];
        [ left; exact Hok | right ].
      exists why, line', rest'. cbn [app]. rewrite Hhere.
      repeat split; assumption.
    + exists [Procfs.mapping start end_ perms pathname], lines, ud1.
      rewrite !Hhere. repeat split. left. reflexivity.
Qed.

(** Once a record of [path] is the last one handed over, the mappings of
    [path] that follow yield nothing. *)
Lemma run_already_emitted {U : Type} (basename : string -> string)
    (p : Procfs.process) (func : Procfs.GumFoundModuleFunc U) (path : string)
    (run : list Procfs.maps_line) :
  Forall (Procfs.mapping_of path) run ->
  forall (after : list Procfs.maps_line) (user_data : U),
  Procfs.enumerate_modules_loop basename p func (run ++ after) path user_data
  = Procfs.enumerate_modules_loop basename p func after path user_data.
Proof.
  intros Hrun. induction Hrun as [| line run Hline _ IH];
    intros after user_data; [ reflexivity | ].
  destruct Hline as (start & end_ & perms & pathname & -> & Hfield).
  cbn [app]. rewrite enumerate_modules_loop_cons, Hfield, String.eqb_refl.
  cbn [orb]. apply IH.
Qed.

Lemma last_path_cons (prev_path : string) (r : Procfs.module_record)
    (records : list Procfs.module_record) :
  Procfs.last_path prev_path (r :: records)
  = Procfs.last_path (Procfs.record_path r) records.
Proof.
  unfold Procfs.last_path.
  destruct records as [| r' records]; [ reflexivity | ].
  change (last (r :: r' :: records)) with (last (r' :: records)).
  destruct (last (r' :: records)) eqn:Hlast; [ reflexivity | ].
  apply last_None in Hlast. discriminate.
Qed.

(** The mappings of one file that follow each other yield one record at
    most, and none when the path compared with is theirs. *)
Lemma run_emits_once {U : Type} (basename : string -> string)
    (p : Procfs.process) (func : Procfs.GumFoundModuleFunc U) (path : string)
    (run : list Procfs.maps_line) :
  Forall (Procfs.mapping_of path) run ->
  forall (after : list Procfs.maps_line) (prev_path : string) (user_data : U)
         (seen0 : list Procfs.module_record) (user_data' : U)
         (seen : list Procfs.module_record),
  Procfs.enumerate_modules_loop basename p (recording func) (run ++ after)
    prev_path (user_data, seen0) = Ok (user_data', seen) ->
  exists user_data1 new more,
    Procfs.enumerate_modules_loop basename p (recording func) run prev_path
      (user_data, seen0) = Ok (user_data1, seen0 ++ new)
    /\ seen = seen0 ++ new ++ more
    /\ (length new <= 1)%nat
    /\ (prev_path = path -> new = []).
Proof.
  intros Hrun. induction Hrun as [| line run Hline Hrest IH];
    intros after prev_path user_data seen0 user_data' seen Hloop.
  - cbn [app] in Hloop.
    destruct (enumerate_modules_loop_invariant basename p func after _ _ _ _
                _ Hloop) as (more & -> & _).
    exists user_data, [], more. cbn [app length]. rewrite app_nil_r.
    split; [ reflexivity | ]. split; [ reflexivity | ].
    split; [ lia | reflexivity ].
  - pose proof Hline as (start & end_ & perms & pathname & -> & Hfield).
    cbn [app] in Hloop.
    rewrite enumerate_modules_loop_cons, Hfield in Hloop.
    rewrite enumerate_modules_loop_cons, Hfield.
    destruct (String.eqb_spec path prev_path) as [Hsame | Hother];
      cbn [orb] in Hloop |- *.
    { exact (IH _ _ _ _ _ _ Hloop). }
    destruct (Ascii.eqb (Procfs.char_at path 0) "[").
    { exact (IH _ _ _ _ _ _ Hloop). }
    destruct (Procfs.read_bytes p start 4) as [bytes |]; [ | discriminate ].
    destruct (negb (Procfs.bytes_eqb bytes Procfs.elf_magic)).
    { exact (IH _ _ _ _ _ _ Hloop). }
    destruct (func (basename path, start, path) user_data)
      as [carry_on ud1] eqn:Hfunc.
    assert (Hrec :
      recording func (basename path, start, path) (user_data, seen0)
      = (carry_on, (ud1, seen0 ++ [(basename path, start, path)])))
      by (unfold recording; rewrite Hfunc; reflexivity).
    rewrite Hrec in Hloop. rewrite Hrec.
    destruct carry_on.
    + rewrite (run_already_emitted basename p (recording func) path run
                 Hrest after) in Hloop.
      destruct (enumerate_modules_loop_invariant basename p func after _ _ _
                  _ _ Hloop) as (more & -> & _).
      exists ud1, [(basename path, start, path)], more.
      rewrite <- (app_nil_r run) at 1.
      rewrite (run_already_emitted basename p (recording func) path run
                 Hrest []).
      cbn [Procfs.enumerate_modules_loop length].
      rewrite <- !app_assoc.
      split; [ reflexivity | ]. split; [ reflexivity | ].
      split; [ lia | ]. intros Heq. contradiction Hother. symmetry. exact Heq.
    + injection Hloop as <- <-.
      exists ud1, [(basename path, start, path)], [].
      cbn [length]. rewrite app_nil_r.
      split; [ reflexivity | ]. split; [ reflexivity | ].
      split; [ lia | ]. intros Heq. contradiction Hother. symmetry. exact Heq.
Qed.

Lemma segment_emits_once {U : Type} (basename : string -> string)
    (p : Procfs.process) (func : Procfs.GumFoundModuleFunc U) (path : string)
    (run after : list Procfs.maps_line) :
  Forall (Procfs.mapping_of path) run ->
  forall (before : list Procfs.maps_line) (prev_path : string)
         (user_data : U) (seen0 : list Procfs.module_record)
         (user_data' : U) (seen : list Procfs.module_record),
  Procfs.enumerate_modules_loop basename p (recording func)
    (before ++ run ++ after) prev_path (user_data, seen0)
  = Ok (user_data', seen) ->
  exists user_data0 user_data1 old new more,
    Procfs.enumerate_modules_loop basename p (recording func) before
      prev_path (user_data, seen0) = Ok (user_data0, seen0 ++ old)
    /\ Procfs.enumerate_modules_loop basename p (recording func)
         (before ++ run) prev_path (user_data, seen0)
       = Ok (user_data1, seen0 ++ old ++ new)
    /\ seen = seen0 ++ old ++ new ++ more
    /\ (length new <= 1)%nat
    /\ (Procfs.last_path prev_path old = path -> new = []).
Proof.
  intros Hrun. induction before as [| line before IH];
    intros prev_path user_data seen0 user_data' seen Hloop.
  - cbn [app] in Hloop |- *.
    destruct (run_emits_once basename p func path run Hrun after _ _ _ _ _
                Hloop) as (ud1 & new & more & Hr & -> & Hlen & Hnone).
    exists user_data, ud1, [], new, more. cbn [app].
    rewrite app_nil_r. repeat split; assumption.
  - cbn [app] in Hloop |- *.
    rewrite enumerate_modules_loop_cons in Hloop.
    rewrite !enumerate_modules_loop_cons.
    destruct line as [| start end_ perms pathname]; [ discriminate | ].
    destruct (Procfs.path_field pathname) as [path0 |];
      [ | exact (IH _ _ _ _ _ Hloop) ].
    destruct (String.eqb path0 prev_path
              || Ascii.eqb (Procfs.char_at path0 0) "[").
    { exact (IH _ _ _ _ _ Hloop). }
    destruct (Procfs.read_bytes p start 4) as [bytes |]; [ | discriminate ].
    destruct (negb (Procfs.bytes_eqb bytes Procfs.elf_magic)).
    { exact (IH _ _ _ _ _ Hloop). }
    destruct (func (basename path0, start, path0) user_data)
      as [carry_on ud1] eqn:Hfunc.
    assert (Hrec :
      recording func (basename path0, start, path0) (user_data, seen0)
      = (carry_on, (ud1, seen0 ++ [(basename path0, start, path0)])))
      by (unfold recording; rewrite Hfunc; reflexivity).
    rewrite Hrec in Hloop. rewrite !Hrec.
    destruct carry_on.
    + destruct (IH _ _ _ _ _ Hloop)
        as (ud0 & ud2 & old & new & more & Hb & Hr & -> & Hlen & Hnone).
      exists ud0, ud2, ((basename path0, start, path0) :: old), new, more.
      rewrite last_path_cons.
      rewrite <- !app_assoc in *. cbn [app] in *.
      repeat split; assumption.
    + injection Hloop as <- <-.
      exists ud1, ud1, [(basename path0, start, path0)], [], [].
      cbn [app length]. rewrite ?app_nil_r.
      split; [ reflexivity | ]. split; [ reflexivity | ].
      split; [ reflexivity | ]. split; [ lia | reflexivity ].
Qed.

(** C6, as amended.  Whether [gum_process_enumerate_modules] returns or the
    process ends at a line it cannot read, it has then read a first part
    [read] of the maps file and handed the records [seen] to its visitor.
    Of each record: the path does not begin with ['['], the four bytes at
    the base address are 7F 45 4C 46, the name is the basename of the path,
    and base address and path are the start and the path field of a line
    read, the path field being the first blank-delimited word after the
    inode column (a line without one yields no record).  The path of a record differs from the path of the record
    handed over just before it.  And the lines of [read] that follow each
    other and map one file yield one record at most, and none when the last
    record handed over before them has their path, whatever lines lie
    between: the path compared with is that of the last record, not of the
    last line. *)
Theorem enumerate_modules_records {U : Type} (basename : string -> string)
    (p : Procfs.process) (func : Procfs.GumFoundModuleFunc U)
    (user_data : U) (lines : list Procfs.maps_line) :
  Procfs.proc_self_maps p = Some lines ->
  exists read rest user_data' seen,
    lines = read ++ rest
    /\ Procfs.enumerate_modules_loop basename p (recording func) read
         EmptyString (user_data, []) = Ok (user_data', seen)
    /\ (Procfs.gum_process_enumerate_modules basename p (recording func)
          (user_data, []) = Ok (user_data', seen)
        \/ exists why line rest',
             rest = line :: rest'
             /\ Procfs.gum_process_enumerate_modules basename p
                  (recording func) (user_data, []) = Abort why
             /\ Procfs.enumerate_modules_loop basename p (recording func)
                  (read ++ [line]) EmptyString (user_data, []) = Abort why
             /\ Procfs.fatal_line p line)
    /\ (forall name address path,
           In (name, address, path) seen ->
           Procfs.char_at path 0 <> "["%char
           /\ Procfs.read_bytes p address 4 = Some [127; 69; 76; 70]
           /\ name = basename path
           /\ exists end_ perms pathname,
                In (Procfs.mapping address end_ perms pathname) read
                /\ Procfs.path_field pathname = Some path)
    /\ (forall i r r',
           seen !! i = Some r -> seen !! S i = Some r' ->
           Procfs.record_path r' <> Procfs.record_path r)
    /\ (forall before run after path,
           read = before ++ run ++ after ->
           Forall (Procfs.mapping_of path) run ->
           exists user_data0 user_data1 old new more,
             Procfs.enumerate_modules_loop basename p (recording func)
               before EmptyString (user_data, []) = Ok (user_data0, old)
             /\ Procfs.enumerate_modules_loop basename p (recording func)
                  (before ++ run) EmptyString (user_data, [])
                = Ok (user_data1, old ++ new)
             /\ seen = old ++ new ++ more
             /\ (length new <= 1)%nat
             /\ (Procfs.last_path EmptyString old = path -> new = []))
    /\ (forall start end_ perms pathname later prev_path state,
           Procfs.path_field pathname = None ->
           Procfs.enumerate_modules_loop basename p (recording func)
             (Procfs.mapping start end_ perms pathname :: later) prev_path
             state
           = Procfs.enumerate_modules_loop basename p (recording func) later
               prev_path state).
Proof.
  intros Hmaps.
  unfold Procfs.gum_process_enumerate_modules. rewrite Hmaps.
  destruct (enumerate_modules_loop_reads basename p (recording func) lines
              EmptyString (user_data, []))
    as (read & rest & [user_data' seen] & Hsplit & Hread & Hend).
  exists read, rest, user_data', seen.
  destruct (enumerate_modules_loop_invariant basename p func read _ _ _ _ _
              Hread) as (new & Hs & Hall & Hch).
  cbn [app] in Hs. subst new.
  assert (Hrecords :
    forall name address path,
      In (name, address, path) seen ->
      Procfs.char_at path 0 <> "["%char
      /\ Procfs.read_bytes p address 4 = Some [127; 69; 76; 70]
      /\ name = basename path
      /\ exists end_ perms pathname,
           In (Procfs.mapping address end_ perms pathname) read
           /\ Procfs.path_field pathname = Some path).
  { intros name address path Hin.
    rewrite Forall_forall in Hall.
    apply (Hall (name, address, path)).
    apply list_elem_of_In. exact Hin. }
  split; [ exact Hsplit | ]. split; [ exact Hread | ].
  split; [ exact Hend | ]. split; [ exact Hrecords | ]. split; [ | split ].
  - intros i r r'. apply (paths_alternate_adjacent _ _ _ _ _ Hch).
  - intros before run after path -> Hrun.
    destruct (segment_emits_once basename p func path run after Hrun before
                _ _ _ _ _ Hread)
      as (ud0 & ud1 & old & new & more & Hb & Hr & Hseen & Hlen & Hnone).
    exists ud0, ud1, old, new, more. cbn [app] in *.
    repeat split; assumption.
  - intros start end_ perms pathname later prev_path state Hfield.
    rewrite enumerate_modules_loop_cons, Hfield. reflexivity.
Qed.

Lemma enumerate_modules_records_witness :
  exists read rest user_data' seen,
    sample_maps = read ++ rest
    /\ Procfs.enumerate_modules_loop sample_basename sample_process
         (recording carry_on_always) read EmptyString (tt, [])
       = Ok (user_data', seen)
    /\ (Procfs.gum_process_enumerate_modules sample_basename sample_process
          (recording carry_on_always) (tt, []) = Ok (user_data', seen)
        \/ exists why line rest',
             rest = line :: rest'
             /\ Procfs.gum_process_enumerate_modules sample_basename
                  sample_process (recording carry_on_always) (tt, [])
                = Abort why
             /\ Procfs.enumerate_modules_loop sample_basename
                  sample_process (recording carry_on_always)
                  (read ++ [line]) EmptyString (tt, []) = Abort why
             /\ Procfs.fatal_line sample_process line)
    /\ (forall name address path,
           In (name, address, path) seen ->
           Procfs.char_at path 0 <> "["%char
           /\ Procfs.read_bytes sample_process address 4
              = Some [127; 69; 76; 70]
           /\ name = sample_basename path
           /\ exists end_ perms pathname,
                In (Procfs.mapping address end_ perms pathname) read
                /\ Procfs.path_field pathname = Some path)
    /\ (forall i r r',
           seen !! i = Some r -> seen !! S i = Some r' ->
           Procfs.record_path r' <> Procfs.record_path r)
    /\ (forall before run after path,
           read = before ++ run ++ after ->
           Forall (Procfs.mapping_of path) run ->
           exists user_data0 user_data1 old new more,
             Procfs.enumerate_modules_loop sample_basename sample_process
               (recording carry_on_always) before EmptyString (tt, [])
             = Ok (user_data0, old)
             /\ Procfs.enumerate_modules_loop sample_basename sample_process
                  (recording carry_on_always) (before ++ run) EmptyString
                  (tt, [])
                = Ok (user_data1, old ++ new)
             /\ seen = old ++ new ++ more
             /\ (length new <= 1)%nat
             /\ (Procfs.last_path EmptyString old = path -> new = []))
    /\ (forall start end_ perms pathname later prev_path state,
           Procfs.path_field pathname = None ->
           Procfs.enumerate_modules_loop sample_basename sample_process
             (recording carry_on_always)
             (Procfs.mapping start end_ perms pathname :: later) prev_path
             state
           = Procfs.enumerate_modules_loop sample_basename sample_process
               (recording carry_on_always) later prev_path state).
Proof.
  exact (enumerate_modules_records sample_basename sample_process
           carry_on_always tt sample_maps eq_refl).
Defined.

(** C6 as stated fails in its gloss: the mappings of one file that follow
    each other need not yield a record.  The previous path is the path of
    the last record handed over, not of the last line read, so the second
    run of mappings of libfoo.so, which begins with the ELF magic at 16384
    and comes after the mapping of another file, yields none. *)
Lemma second_run_not_reported :
  Procfs.proc_self_maps remapped_process
  = Some [Procfs.mapping 4096 8192 "r-xp" (Some "/lib/libfoo.so"%string);
          Procfs.mapping 8192 16384 "r--p"
            (Some "/usr/share/locale.dat"%string);
          Procfs.mapping 16384 20480 "r-xp" (Some "/lib/libfoo.so"%string)]
  /\ Procfs.read_bytes remapped_process 16384 4 = Some [127; 69; 76; 70]
  /\ Procfs.gum_process_enumerate_modules sample_basename remapped_process
       (recording carry_on_always) (tt, [])
     = Ok (tt, [("libfoo.so"%string, 4096, "/lib/libfoo.so"%string)]).
Proof. repeat split; vm_compute; reflexivity. Qed.

Lemma sample_modules_run :
  Procfs.gum_process_enumerate_modules sample_basename sample_process
    (recording carry_on_always) (tt, [])
  = Ok (tt, [("libfoo.so"%string, 4096, "/lib/libfoo.so"%string);
         ("libbar.so"%string, 24576, "/lib/libbar.so"%string)]).
Proof. vm_compute. reflexivity. Defined.

(** ** ELF export resolver *)

(** What the collecting visitor receives from the symbol loop is what any
    visitor is offered. *)
Lemma enumerate_symbols_collect (fuel : nat) (img : Elf.mapped_file)
    (module_base : Procfs.GumAddress) (d : Elf.dynsym) :
  forall (i : Z) (seen all : list Elf.export),
  Elf.enumerate_symbols fuel img module_base d collect i seen = Ok all ->
  exists exports, all = seen ++ exports
    /\ forall (U : Type) (func : Elf.GumFoundExportFunc U) (user_data : U),
         Elf.enumerate_symbols fuel img module_base d func i user_data
         = Ok (visit func exports user_data).
Proof.
  induction fuel as [| fuel IH]; intros i seen all Hrun.
  - cbn in Hrun.
    destruct (i =? Elf.symbol_count d) eqn:Hi; [ | discriminate ].
    injection Hrun as <-. exists []. rewrite app_nil_r.
    split; [ reflexivity | ].
    intros U func user_data. cbn. rewrite Hi. reflexivity.
  - cbn [Elf.enumerate_symbols] in Hrun.
    destruct (i =? Elf.symbol_count d) eqn:Hi.
    + injection Hrun as <-. exists []. rewrite app_nil_r.
      split; [ reflexivity | ].
      intros U func user_data. cbn. rewrite Hi. reflexivity.
    + destruct (Elf.sym_at img (Elf.symbol_offset d i)) as [sym |] eqn:Hsym;
        [ | discriminate ].
      destruct (Elf.is_exported_function sym) eqn:Hq.
      * unfold collect at 1 in Hrun. cbn [negb] in Hrun.
        destruct (IH _ _ _ Hrun) as (exports & Hall & Hany).
        exists (Elf.export_of img module_base d sym :: exports).
        rewrite Hall, <- app_assoc. split; [ reflexivity | ].
        intros U func user_data. cbn [Elf.enumerate_symbols visit].
        rewrite Hi, Hsym, Hq.
        destruct (func _ user_data) as [carry_on ud1].
        destruct carry_on; cbn [negb].
        -- apply Hany.
        -- reflexivity.
      * destruct (IH _ _ _ Hrun) as (exports & Hall & Hany).
        exists exports. split; [ exact Hall | ].
        intros U func user_data. cbn [Elf.enumerate_symbols].
        rewrite Hi, Hsym, Hq. apply Hany.
Qed.

(** The symbol loop over a readable table of fewer than 2^32 entries, with
    fuel for each of them. *)
Lemma enumerate_symbols_table (img : Elf.mapped_file)
    (module_base : Procfs.GumAddress) (d : Elf.dynsym) (U : Type)
    (func : Elf.GumFoundExportFunc U) :
  Elf.symbol_count d < 2 ^ 32 ->
  forall (fuel : nat) (i : Z) (syms : list Elf.GumElfSymbol) (user_data : U),
  0 <= i <= Elf.symbol_count d ->
  (Z.to_nat (Elf.symbol_count d - i) <= fuel)%nat ->
  mapM (fun i => Elf.sym_at img (Elf.symbol_offset d i))
    (seqZ i (Elf.symbol_count d - i)) = Some syms ->
  Elf.enumerate_symbols fuel img module_base d func i user_data
  = Ok (visit func
          (map (Elf.export_of img module_base d)
             (List.filter Elf.is_exported_function syms))
          user_data).
Proof.
  intros Hcount.
  induction fuel as [| fuel IH]; intros i syms user_data Hi Hfuel Htable.
  - assert (i = Elf.symbol_count d) as -> by lia.
    rewrite Z.sub_diag in Htable. cbn in Htable. injection Htable as <-.
    cbn. rewrite Z.eqb_refl. reflexivity.
  - cbn [Elf.enumerate_symbols].
    destruct (Z.eqb_spec i (Elf.symbol_count d)) as [-> | Hne].
    + rewrite Z.sub_diag in Htable. cbn in Htable.
      injection Htable as <-. reflexivity.
    + rewrite seqZ_cons in Htable by lia. cbn [mapM] in Htable.
      destruct (Elf.sym_at img (Elf.symbol_offset d i)) as [sym |] eqn:Hsym;
        [ | discriminate ].
      cbn in Htable.
      destruct (mapM _ (seqZ (Z.succ i) _)) as [syms' |] eqn:Hrest;
        [ | discriminate ].
      cbn in Htable. injection Htable as <-.
      assert (Hnext : guint32 (i + 1) = i + 1).
      { unfold guint32, to_unsigned. apply Z.mod_small. lia. }
      rewrite Hnext.
      replace (Z.pred (Elf.symbol_count d - i))
        with (Elf.symbol_count d - (i + 1)) in Hrest by lia.
      cbn [List.filter].
      destruct (Elf.is_exported_function sym).
      * cbn [map visit]. destruct (func _ user_data) as [carry_on ud1].
        destruct carry_on; cbn [negb]; [ | reflexivity ].
        apply IH; [ lia | lia | exact Hrest ].
      * apply IH; [ lia | lia | exact Hrest ].
Qed.

(** Past the mapping of the file, the resolver is the code of lines
    361-417. *)
Lemma enumerate_exports_located {U : Type} (basename : string -> string)
    (fuel : nat) (p : Procfs.process) (fs : Elf.filesystem) (name : string)
    (func : Elf.GumFoundExportFunc U) (user_data : U)
    (module_base : Procfs.GumAddress) (img : Elf.mapped_file) :
  Elf.locate basename p fs name = Some (module_base, img) ->
  exists pathname fd len,
    fd <> -1
    /\ Elf.gum_module_enumerate_exports basename fuel p fs name func user_data
       = let trace := [Elf.sys_open pathname fd; Elf.sys_mmap fd len] in
         let fr := {| Elf.fd := fd; Elf.base_address := Some img;
                      Elf.mapped_size := len |} in
         if negb (Elf.e_type (Elf.ehdr img) =? Elf.ET_DYN)
         then Elf.beach fr trace user_data
         else
           d ← Elf.find_dynsym img (seqZ 0 (Elf.e_shnum (Elf.ehdr img)))
                 Elf.no_dynsym;
           if Elf.dynsym_section_offset d =? 0
           then Elf.beach fr trace user_data
           else
             user_data ← Elf.enumerate_symbols fuel img module_base d func 0
                           user_data;
             Elf.beach fr trace user_data.
Proof.
  unfold Elf.locate, Elf.gum_module_enumerate_exports.
  destruct (Procfs.gum_process_enumerate_modules _ _ _ _) as [ctx | |];
    [ | discriminate | discriminate ].
  cbn [mbind result_bind].
  destruct (Elf.base ctx =? 0); [ discriminate | ].
  destruct (Z.eqb_spec
              (Elf.open_rdonly fs (default EmptyString (Elf.path ctx))) (-1))
    as [| Hfd]; [ discriminate | ].
  destruct (Elf.mmap_private _) as [img' |]; [ | discriminate ].
  intros [= <- <-].
  eexists _, _, _. split; [ exact Hfd | ]. reflexivity.
Qed.

Lemma find_dynsym_others (img : Elf.mapped_file) (indices rest : list Z)
    (found : Elf.dynsym) :
  Forall (other_section img) indices ->
  Elf.find_dynsym img (indices ++ rest) found = Elf.find_dynsym img rest found.
Proof.
  intros Hall. induction Hall as [| i indices (shdr & Hread & Htype) _ IH];
    [ reflexivity | ].
  cbn [app Elf.find_dynsym]. unfold section_header in Hread. rewrite Hread.
  destruct (Z.eqb_spec (Elf.sh_type shdr) Elf.SHT_DYNSYM) as [| _];
    [ contradiction | ].
  exact IH.
Qed.

Lemma section_indices (n j : Z) :
  0 <= j < n ->
  seqZ 0 n = seqZ 0 j ++ j :: seqZ (j + 1) (n - j - 1).
Proof.
  intros Hj. replace n with (j + (n - j)) at 1 by lia.
  rewrite seqZ_app by lia. rewrite (seqZ_cons (0 + j)) by lia.
  repeat f_equal; lia.
Qed.

Lemma others_before (img : Elf.mapped_file) (j : Z) :
  (forall i, 0 <= i < j -> other_section img i) ->
  Forall (other_section img) (seqZ 0 j).
Proof.
  intros Hall. apply Forall_forall. intros i Hi.
  apply elem_of_seqZ in Hi. apply Hall. lia.
Qed.

Lemma find_dynsym_app (img : Elf.mapped_file) (indices rest : list Z) :
  forall found : Elf.dynsym,
  Elf.find_dynsym img (indices ++ rest) found
  = (d ← Elf.find_dynsym img indices found; Elf.find_dynsym img rest d).
Proof.
  induction indices as [| i indices IH]; intros found; [ reflexivity | ].
  cbn [app Elf.find_dynsym].
  destruct (Elf.shdr_at img _) as [shdr |]; [ | reflexivity ].
  destruct (Elf.sh_type shdr =? Elf.SHT_DYNSYM); [ | apply IH ].
  destruct (Elf.shdr_at img _) as [strtab_shdr |]; [ | reflexivity ].
  cbn [Elf.dynsym_entry_size Elf.dynsym_section_size].
  destruct (Elf.sh_entsize shdr =? 0); [ reflexivity | ].
  destruct (negb (Elf.sh_size shdr mod Elf.sh_entsize shdr =? 0));
    [ reflexivity | apply IH ].
Qed.

(** The loop gets past sections it can pass. *)
Lemma find_dynsym_passable (img : Elf.mapped_file) (indices : list Z) :
  Forall (passable_section img) indices ->
  forall found : Elf.dynsym,
  exists found', Elf.find_dynsym img indices found = Ok found'.
Proof.
  intros Hall.
  induction Hall as [| i indices (shdr & Hread & Hdyn) _ IH]; intros found.
  - exists found. reflexivity.
  - cbn [Elf.find_dynsym]. unfold section_header in Hread. rewrite Hread.
    destruct (Z.eqb_spec (Elf.sh_type shdr) Elf.SHT_DYNSYM) as [Htype | _];
      [ | apply IH ].
    destruct (Hdyn Htype) as ((strtab_shdr & Hlink) & Hsize & Hmod).
    unfold section_header in Hlink. rewrite Hlink.
    cbn [Elf.dynsym_entry_size Elf.dynsym_section_size].
    destruct (Z.eqb_spec (Elf.sh_entsize shdr) 0) as [| _];
      [ contradiction | ].
    rewrite Hmod. cbn [Z.eqb negb]. apply IH.
Qed.

Lemma passable_before (img : Elf.mapped_file) (j : Z) :
  (forall i, 0 <= i < j -> passable_section img i) ->
  Forall (passable_section img) (seqZ 0 j).
Proof.
  intros Hall. apply Forall_forall. intros i Hi.
  apply elem_of_seqZ in Hi. apply Hall. lia.
Qed.

Lemma others_after (img : Elf.mapped_file) (j n : Z) :
  (forall i, j < i < n -> other_section img i) ->
  Forall (other_section img) (seqZ (j + 1) (n - j - 1)).
Proof.
  intros Hall. apply Forall_forall. intros i Hi.
  apply elem_of_seqZ in Hi. apply Hall. lia.
Qed.

(** What the loop over the section headers leaves in the locals: the
    offset, size and entry size of the last dynamic symbol table, and the
    offset of the string table its [sh_link] names. *)
Lemma find_dynsym_last (img : Elf.mapped_file) (j : Z)
    (shdr strtab_shdr : Elf.GumElfSHeader) :
  0 <= j < Elf.e_shnum (Elf.ehdr img) ->
  (forall i, 0 <= i < j -> passable_section img i) ->
  section_header img j = Some shdr ->
  Elf.sh_type shdr = Elf.SHT_DYNSYM ->
  section_header img (Elf.sh_link shdr) = Some strtab_shdr ->
  Elf.sh_entsize shdr <> 0 ->
  Elf.sh_size shdr mod Elf.sh_entsize shdr = 0 ->
  (forall i, j < i < Elf.e_shnum (Elf.ehdr img) -> other_section img i) ->
  Elf.find_dynsym img (seqZ 0 (Elf.e_shnum (Elf.ehdr img))) Elf.no_dynsym
  = Ok (dynsym_of shdr strtab_shdr).
Proof.
  intros Hj Hbefore Hread Htype Hlink Hsize Hmod Hafter.
  rewrite (section_indices _ j Hj), find_dynsym_app.
  destruct (find_dynsym_passable img _ (passable_before img j Hbefore)
              Elf.no_dynsym) as (found & ->).
  cbn [mbind result_bind Elf.find_dynsym].
  unfold section_header in Hread, Hlink.
  rewrite Hread, Htype, Z.eqb_refl, Hlink.
  cbn [Elf.dynsym_entry_size Elf.dynsym_section_size].
  destruct (Z.eqb_spec (Elf.sh_entsize shdr) 0) as [| _];
    [ contradiction | ].
  rewrite Hmod. cbn [Z.eqb negb].
  rewrite <- (app_nil_r (seqZ (j + 1) _)).
  rewrite (find_dynsym_others img _ [] _ (others_after img j _ Hafter)).
  reflexivity.
Qed.

Lemma is_exported_function_spec (sym : Elf.GumElfSymbol) :
  Elf.is_exported_function sym = true <->
  (Elf.GUM_ELF_ST_BIND (Elf.st_info sym) = Elf.STB_GLOBAL
   \/ Elf.GUM_ELF_ST_BIND (Elf.st_info sym) = Elf.STB_WEAK)
  /\ Elf.GUM_ELF_ST_TYPE (Elf.st_info sym) = Elf.STT_FUNC
  /\ Elf.st_shndx sym <> Elf.SHN_UNDEF.
Proof.
  unfold Elf.is_exported_function.
  rewrite !andb_true_iff, orb_true_iff, negb_true_iff, !Z.eqb_eq, Z.eqb_neq.
  tauto.
Qed.

(** C4. When the resolver has located and mapped the file of the module, the
    file is a shared object ([ET_DYN]) and the last of its section headers
    of type [SHT_DYNSYM] is [shdr], with the string table header
    [strtab_shdr] at the index [sh_link] names,
    [gum_module_enumerate_exports] reads the entries of the table at
    [sh_offset] of [shdr], [sh_size / sh_entsize] of them, and offers the
    visitor, in table order, exactly the entries whose binding is global or
    weak, whose type is function and whose section index is not undefined,
    each as the pair (name at [sh_offset] of [strtab_shdr] + [st_name],
    module base + [st_value]): a visitor is called on them until it returns
    FALSE.  When the file is not a shared object no visitor is called at
    all.  A function symbol with local binding and a function symbol with
    undefined section index fail the test, whatever else they are. *)
Theorem enumerate_exports_emits :
  (forall (basename : string -> string) (fuel : nat) (p : Procfs.process)
          (fs : Elf.filesystem) (name : string)
          (module_base : Procfs.GumAddress) (img : Elf.mapped_file) (j : Z)
          (shdr strtab_shdr : Elf.GumElfSHeader)
          (syms : list Elf.GumElfSymbol),
      Elf.locate basename p fs name = Some (module_base, img) ->
      Elf.e_type (Elf.ehdr img) = Elf.ET_DYN ->
      0 <= j < Elf.e_shnum (Elf.ehdr img) ->
      (forall i, 0 <= i < j -> passable_section img i) ->
      section_header img j = Some shdr ->
      Elf.sh_type shdr = Elf.SHT_DYNSYM ->
      section_header img (Elf.sh_link shdr) = Some strtab_shdr ->
      (forall i, j < i < Elf.e_shnum (Elf.ehdr img) -> other_section img i) ->
      Elf.sh_offset shdr <> 0 ->
      Elf.sh_entsize shdr <> 0 ->
      Elf.sh_size shdr mod Elf.sh_entsize shdr = 0 ->
      0 <= Elf.sh_size shdr / Elf.sh_entsize shdr < 2 ^ 32 ->
      (Z.to_nat (Elf.sh_size shdr / Elf.sh_entsize shdr) <= fuel)%nat ->
      mapM (fun i =>
              Elf.sym_at img
                (Elf.sh_offset shdr + guint64 (i * Elf.sh_entsize shdr)))
        (seqZ 0 (Elf.sh_size shdr / Elf.sh_entsize shdr)) = Some syms ->
      forall (U : Type) (func : Elf.GumFoundExportFunc U) (user_data : U),
      exists trace,
        Elf.gum_module_enumerate_exports basename fuel p fs name func
          user_data
        = Ok (visit func
                (map (fun sym =>
                        (Elf.string_at img
                           (Elf.sh_offset strtab_shdr + Elf.st_name sym),
                         guint64 (module_base + Elf.st_value sym)))
                   (List.filter Elf.is_exported_function syms))
                user_data, trace))
  /\ (forall (basename : string -> string) (fuel : nat) (p : Procfs.process)
             (fs : Elf.filesystem) (name : string)
             (module_base : Procfs.GumAddress) (img : Elf.mapped_file),
         Elf.locate basename p fs name = Some (module_base, img) ->
         Elf.e_type (Elf.ehdr img) <> Elf.ET_DYN ->
         forall (U : Type) (func : Elf.GumFoundExportFunc U) (user_data : U),
         exists trace,
           Elf.gum_module_enumerate_exports basename fuel p fs name
             (recording func) (user_data, [])
           = Ok ((user_data, []), trace))
  /\ (forall sym : Elf.GumElfSymbol,
         Elf.is_exported_function sym = true <->
         (Elf.GUM_ELF_ST_BIND (Elf.st_info sym) = Elf.STB_GLOBAL
          \/ Elf.GUM_ELF_ST_BIND (Elf.st_info sym) = Elf.STB_WEAK)
         /\ Elf.GUM_ELF_ST_TYPE (Elf.st_info sym) = Elf.STT_FUNC
         /\ Elf.st_shndx sym <> Elf.SHN_UNDEF)
  /\ (forall sym : Elf.GumElfSymbol,
         Elf.GUM_ELF_ST_BIND (Elf.st_info sym) = Elf.STB_LOCAL ->
         Elf.is_exported_function sym = false)
  /\ (forall sym : Elf.GumElfSymbol,
         Elf.st_shndx sym = Elf.SHN_UNDEF ->
         Elf.is_exported_function sym = false).
Proof.
  split; [ | split; [ | split; [ | split ] ] ].
  - intros basename fuel p fs name module_base img j shdr strtab_shdr syms
      Hloc Hdyn Hj Hbefore Hread Htype Hlink Hafter Hoff Hsize Hmod Hcount
      Hfuel Htable U func user_data.
    destruct (enumerate_exports_located basename fuel p fs name func
                user_data module_base img Hloc)
      as (pathname & fd & len & Hfd & ->).
    cbv zeta. rewrite Hdyn, Z.eqb_refl. cbn [negb].
    rewrite (find_dynsym_last img j shdr strtab_shdr Hj Hbefore Hread Htype
               Hlink Hsize Hmod Hafter).
    cbn [mbind result_bind]. unfold dynsym_of at 1.
    cbn [Elf.dynsym_section_offset].
    destruct (Z.eqb_spec (Elf.sh_offset shdr) 0) as [| _];
      [ contradiction | ].
    rewrite (enumerate_symbols_table img module_base
               (dynsym_of shdr strtab_shdr) U func (proj2 Hcount) fuel 0
               syms user_data).
    + cbn [mbind result_bind]. unfold Elf.beach. eexists. reflexivity.
    + exact (conj (Z.le_refl 0) (proj1 Hcount)).
    + rewrite Z.sub_0_r. exact Hfuel.
    + rewrite Z.sub_0_r. exact Htable.
  - intros basename fuel p fs name module_base img Hloc Hdyn U func user_data.
    destruct (enumerate_exports_located basename fuel p fs name
                (recording func) (user_data, []) module_base img Hloc)
      as (pathname & fd & len & Hfd & ->).
    cbv zeta.
    destruct (Z.eqb_spec (Elf.e_type (Elf.ehdr img)) Elf.ET_DYN) as [| _];
      [ contradiction | ].
    cbn [negb]. unfold Elf.beach. eexists. reflexivity.
  - exact is_exported_function_spec.
  - intros sym Hlocal. unfold Elf.is_exported_function. rewrite Hlocal.
    reflexivity.
  - intros sym Hundef. unfold Elf.is_exported_function. rewrite Hundef.
    cbn [Z.eqb Elf.SHN_UNDEF negb]. apply andb_false_r.
Qed.

Lemma relocated_sections_before (i : Z) :
  0 <= i < 2 -> passable_section relocated_image i.
Proof.
  intros Hi. assert (i = 0 \/ i = 1) as [-> | ->] by lia.
  - exists null_section. split; [ reflexivity | discriminate ].
  - exists relocated_strtab_section. split; [ reflexivity | discriminate ].
Defined.

Lemma relocated_sections_after (i : Z) :
  2 < i < Elf.e_shnum (Elf.ehdr relocated_image) ->
  other_section relocated_image i.
Proof.
  change (Elf.e_shnum (Elf.ehdr relocated_image)) with 3.
  intros Hi. exfalso. lia.
Defined.

Lemma enumerate_exports_emits_witness :
  exists trace,
    Elf.gum_module_enumerate_exports sample_basename 5 sample_process
      (filesystem_of relocated_image) "libfoo.so" collect []
    = Ok ([("open"%string, 4352); ("close"%string, 4864)], trace).
Proof.
  refine (proj1 enumerate_exports_emits sample_basename 5%nat sample_process
            (filesystem_of relocated_image) "libfoo.so"%string 4096
            relocated_image 2 relocated_dynsym_section
            relocated_strtab_section
            [null_symbol; open_symbol; helper_symbol; close_symbol]
            _ _ _ relocated_sections_before _ _ _ relocated_sections_after
            _ _ _ _ _ _ _ collect []).
  - vm_compute. reflexivity.
  - reflexivity.
  - cbn. lia.
  - reflexivity.
  - reflexivity.
  - reflexivity.
  - discriminate.
  - discriminate.
  - reflexivity.
  - vm_compute. split; [ discriminate | reflexivity ].
  - vm_compute. lia.
  - vm_compute. reflexivity.
Defined.

Lemma beach_trace {U : Type} (fr : Elf.frame) (trace : list Elf.syscall)
    (user_data user_data' : U) (trace' : list Elf.syscall) :
  Elf.beach fr trace user_data = Ok (user_data', trace') ->
  user_data' = user_data
  /\ trace' = trace
       ++ (match Elf.base_address fr with
           | Some _ => [Elf.sys_munmap (Elf.mapped_size fr)]
           | None => []
           end)
       ++ (if Elf.fd fr =? -1 then [] else [Elf.sys_close (Elf.fd fr)]).
Proof.
  unfold Elf.beach. intros [= <- <-]. split; [ reflexivity | ].
  destruct (Elf.base_address fr), (Elf.fd fr =? -1); cbn [negb];
    rewrite <- ?app_assoc, ?app_nil_r; reflexivity.
Qed.

(** C9. Whenever [gum_module_enumerate_exports] returns -- the module was
    not found, the file could not be opened, the file is no shared object,
    no dynamic symbol table was found, the table was walked to its end, or
    the visitor returned FALSE -- the file-backed mapping, if one was
    created, has been unmapped and the descriptor, if one was opened, has
    been closed: the system calls of the run are none at all, or a failed
    [open] alone, or [open], [mmap], [munmap] of that mapping and [close] of
    that descriptor, and the run holds no resource at its end. *)
Theorem enumerate_exports_releases {U : Type} (basename : string -> string)
    (fuel : nat) (p : Procfs.process) (fs : Elf.filesystem) (name : string)
    (func : Elf.GumFoundExportFunc U) (user_data user_data' : U)
    (trace : list Elf.syscall) :
  Elf.gum_module_enumerate_exports basename fuel p fs name func user_data
    = Ok (user_data', trace) ->
  Elf.holds trace [] = []
  /\ (trace = []
      \/ (exists pathname, trace = [Elf.sys_open pathname (-1)])
      \/ (exists pathname fd len,
            fd <> -1
            /\ trace = [Elf.sys_open pathname fd; Elf.sys_mmap fd len;
                        Elf.sys_munmap len; Elf.sys_close fd])).
Proof.
  unfold Elf.gum_module_enumerate_exports.
  destruct (Procfs.gum_process_enumerate_modules _ _ _ _) as [ctx | |];
    [ | discriminate | discriminate ].
  cbn [mbind result_bind].
  assert (Hfull : forall pathname fd len img ud,
    fd <> -1 ->
    Elf.beach {| Elf.fd := fd; Elf.base_address := Some img;
                 Elf.mapped_size := len |}
      [Elf.sys_open pathname fd; Elf.sys_mmap fd len] ud
      = Ok (user_data', trace) ->
    Elf.holds trace [] = []
    /\ (trace = []
        \/ (exists pathname, trace = [Elf.sys_open pathname (-1)])
        \/ (exists pathname fd len,
              fd <> -1
              /\ trace = [Elf.sys_open pathname fd; Elf.sys_mmap fd len;
                          Elf.sys_munmap len; Elf.sys_close fd]))).
  { intros pathname fd len img ud Hfd Hb.
    apply beach_trace in Hb. destruct Hb as [_ ->].
    cbn [Elf.base_address Elf.fd Elf.mapped_size].
    destruct (Z.eqb_spec fd (-1)) as [| _]; [ contradiction | ].
    split.
    - cbn [app Elf.holds].
      destruct (Z.eqb_spec fd (-1)) as [| _]; [ contradiction | ].
      cbn [Elf.release]. rewrite decide_True by reflexivity.
      cbn [Elf.release]. rewrite decide_True by reflexivity. reflexivity.
    - right. right. exists pathname, fd, len.
      split; [ exact Hfd | reflexivity ]. }
  destruct (Elf.base ctx =? 0).
  { intros Hb. apply beach_trace in Hb. destruct Hb as [_ ->]. cbn.
    split; [ reflexivity | left; reflexivity ]. }
  destruct (Z.eqb_spec
              (Elf.open_rdonly fs (default EmptyString (Elf.path ctx))) (-1))
    as [Hfd | Hfd].
  { intros Hb. apply beach_trace in Hb. destruct Hb as [_ ->].
    cbn [Elf.base_address Elf.fd app]. rewrite Hfd. cbn.
    split; [ reflexivity | right; left; eexists; reflexivity ]. }
  destruct (Elf.mmap_private _) as [img |]; [ | discriminate ].
  destruct (negb (Elf.e_type (Elf.ehdr img) =? Elf.ET_DYN)).
  { apply Hfull. exact Hfd. }
  destruct (Elf.find_dynsym _ _ _) as [d | |];
    [ | discriminate | discriminate ].
  cbn [mbind result_bind].
  destruct (Elf.dynsym_section_offset d =? 0).
  { apply Hfull. exact Hfd. }
  destruct (Elf.enumerate_symbols _ _ _ _ _ _ _) as [ud | |];
    [ | discriminate | discriminate ].
  cbn [mbind result_bind].
  apply Hfull. exact Hfd.
Qed.

(** Three runs that return: the visitor stops the enumeration at the first
    export; the module is not mapped in the process; the file cannot be
    opened. *)
Lemma sample_run_stopped :
  Elf.gum_module_enumerate_exports sample_basename 5 sample_process
    sample_filesystem "libfoo.so" stop_at_once tt
  = Ok (tt, [Elf.sys_open "/lib/libfoo.so" 3; Elf.sys_mmap 3 2048;
             Elf.sys_munmap 2048; Elf.sys_close 3]).
Proof. vm_compute. reflexivity. Defined.

Lemma sample_run_not_found :
  Elf.gum_module_enumerate_exports sample_basename 5 sample_process
    sample_filesystem "libc.so.6" stop_at_once tt
  = Ok (tt, []).
Proof. vm_compute. reflexivity. Defined.

Lemma sample_run_open_fails :
  Elf.gum_module_enumerate_exports sample_basename 5 sample_process
    closed_filesystem "libfoo.so" stop_at_once tt
  = Ok (tt, [Elf.sys_open "/lib/libfoo.so" (-1)]).
Proof. vm_compute. reflexivity. Defined.

Lemma enumerate_exports_releases_witness :
  Elf.holds [Elf.sys_open "/lib/libfoo.so" 3; Elf.sys_mmap 3 2048;
             Elf.sys_munmap 2048; Elf.sys_close 3] [] = []
  /\ Elf.holds [] [] = []
  /\ Elf.holds [Elf.sys_open "/lib/libfoo.so" (-1)] [] = [].
Proof.
  split; [ | split ].
  - exact (proj1 (enumerate_exports_releases sample_basename 5
                    sample_process sample_filesystem "libfoo.so"
                    stop_at_once tt tt _ sample_run_stopped)).
  - exact (proj1 (enumerate_exports_releases sample_basename 5
                    sample_process sample_filesystem "libc.so.6"
                    stop_at_once tt tt _ sample_run_not_found)).
  - exact (proj1 (enumerate_exports_releases sample_basename 5
                    sample_process closed_filesystem "libfoo.so"
                    stop_at_once tt tt _ sample_run_open_fails)).
Defined.

(** Whatever a visitor is given, the resolver gives it what the collecting
    visitor receives. *)
Lemma enumerate_exports_collect (basename : string -> string) (fuel : nat)
    (p : Procfs.process) (fs : Elf.filesystem) (name : string)
    (exports : list Elf.export) (trace : list Elf.syscall) :
  Elf.gum_module_enumerate_exports basename fuel p fs name collect []
    = Ok (exports, trace) ->
  forall (U : Type) (func : Elf.GumFoundExportFunc U) (user_data : U),
    Elf.gum_module_enumerate_exports basename fuel p fs name func user_data
    = Ok (visit func exports user_data, trace).
Proof.
  unfold Elf.gum_module_enumerate_exports.
  destruct (Procfs.gum_process_enumerate_modules _ _ _ _) as [ctx | |];
    [ | discriminate | discriminate ].
  cbn [mbind result_bind].
  destruct (Elf.base ctx =? 0).
  { unfold Elf.beach. cbn. intros [= <- <-]. reflexivity. }
  destruct (Elf.open_rdonly fs (default EmptyString (Elf.path ctx)) =? -1).
  { unfold Elf.beach. cbn. intros [= <- <-]. reflexivity. }
  destruct (Elf.mmap_private _) as [img |]; [ | discriminate ].
  destruct (negb (Elf.e_type (Elf.ehdr img) =? Elf.ET_DYN)).
  { unfold Elf.beach. cbn. intros [= <- <-]. intros. reflexivity. }
  destruct (Elf.find_dynsym _ _ _) as [d | |];
    [ | discriminate | discriminate ].
  cbn [mbind result_bind].
  destruct (Elf.dynsym_section_offset d =? 0).
  { unfold Elf.beach. cbn. intros [= <- <-]. intros. reflexivity. }
  destruct (Elf.enumerate_symbols fuel img (Elf.base ctx) d collect 0 [])
    as [all | |] eqn:Hrun; [ | discriminate | discriminate ].
  cbn [mbind result_bind].
  destruct (enumerate_symbols_collect _ _ _ _ _ _ _ Hrun)
    as (exps & Hall & Hany).
  cbn [app] in Hall. subst exps.
  unfold Elf.beach. cbn. intros [= <- <-]. intros U func user_data.
  rewrite Hany. reflexivity.
Qed.

Lemma visit_store_address (symbol_name : string) (exports : list Elf.export)
    (r : Procfs.GumAddress) :
  visit Elf.gum_store_address_if_export_name_matches exports
    {| Elf.result_address := r; Elf.symbol_name := symbol_name |}
  = {| Elf.result_address :=
         match List.find (fun e => String.eqb (fst e) symbol_name) exports
         with
         | Some e => snd e
         | None => r
         end;
       Elf.symbol_name := symbol_name |}.
Proof.
  induction exports as [| [name address] exports IH]; [ reflexivity | ].
  cbn [visit Elf.gum_store_address_if_export_name_matches List.find fst snd
       Elf.symbol_name].
  destruct (String.eqb name symbol_name); [ reflexivity | exact IH ].
Qed.

Lemma visited_store_address (symbol_name : string)
    (exports : list Elf.export) (r : Procfs.GumAddress) :
  visited Elf.gum_store_address_if_export_name_matches exports
    {| Elf.result_address := r; Elf.symbol_name := symbol_name |}
  = Elf.up_to_first symbol_name exports.
Proof.
  induction exports as [| [name address] exports IH]; [ reflexivity | ].
  cbn [visited Elf.gum_store_address_if_export_name_matches Elf.up_to_first
       fst snd Elf.symbol_name].
  destruct (String.eqb name symbol_name); [ reflexivity | ].
  rewrite IH. reflexivity.
Qed.

Lemma first_named_split (symbol_name : string)
    (pre post : list Elf.export) (e : Elf.export) :
  Forall (fun e' => fst e' <> symbol_name) pre ->
  fst e = symbol_name ->
  Elf.first_named symbol_name (pre ++ e :: post) = snd e
  /\ Elf.up_to_first symbol_name (pre ++ e :: post) = pre ++ [e].
Proof.
  intros Hpre He. unfold Elf.first_named.
  induction Hpre as [| e' pre Hne _ IH].
  - cbn. rewrite (proj2 (String.eqb_eq _ _) He). split; reflexivity.
  - cbn. rewrite (proj2 (String.eqb_neq _ _) Hne).
    destruct IH as [IH1 IH2]. rewrite IH2. split; [ exact IH1 | reflexivity ].
Qed.

Lemma first_named_none (symbol_name : string) (exports : list Elf.export) :
  Forall (fun e' => fst e' <> symbol_name) exports ->
  Elf.first_named symbol_name exports = 0
  /\ Elf.up_to_first symbol_name exports = exports.
Proof.
  intros Hall. unfold Elf.first_named.
  induction Hall as [| e' exports Hne _ IH].
  - split; reflexivity.
  - cbn. rewrite (proj2 (String.eqb_neq _ _) Hne).
    destruct IH as [IH1 IH2]. rewrite IH2. split; [ exact IH1 | reflexivity ].
Qed.

(** C5. Let [exports] be what [gum_module_enumerate_exports] emits for the
    module, in order, to a visitor that never stops.  Then
    [gum_module_find_export_by_name] returns the address of the first of
    them whose name is the symbol name, and 0 when none has that name; and
    its internal visitor is called on the exports up to and including that
    first match and on none after it. *)
Theorem find_export_by_name_first_match (basename : string -> string)
    (fuel : nat) (p : Procfs.process) (fs : Elf.filesystem)
    (module_name symbol_name : string) (exports : list Elf.export)
    (trace : list Elf.syscall) :
  Elf.gum_module_enumerate_exports basename fuel p fs module_name collect []
    = Ok (exports, trace) ->
  Elf.gum_module_find_export_by_name basename fuel p fs module_name
    symbol_name = Ok (Elf.first_named symbol_name exports)
  /\ (exists ctx,
        Elf.gum_module_enumerate_exports basename fuel p fs module_name
          (recording Elf.gum_store_address_if_export_name_matches)
          ({| Elf.result_address := 0; Elf.symbol_name := symbol_name |}, [])
        = Ok ((ctx, Elf.up_to_first symbol_name exports), trace))
  /\ (forall pre e post,
         exports = pre ++ e :: post ->
         Forall (fun e' => fst e' <> symbol_name) pre ->
         fst e = symbol_name ->
         Elf.first_named symbol_name exports = snd e
         /\ Elf.up_to_first symbol_name exports = pre ++ [e])
  /\ (Forall (fun e' => fst e' <> symbol_name) exports ->
      Elf.first_named symbol_name exports = 0
      /\ Elf.up_to_first symbol_name exports = exports).
Proof.
  intros Hrun. split; [ | split; [ | split ] ].
  - unfold Elf.gum_module_find_export_by_name.
    rewrite (enumerate_exports_collect _ _ _ _ _ _ _ Hrun).
    cbn [mbind result_bind]. rewrite visit_store_address. reflexivity.
  - rewrite (enumerate_exports_collect _ _ _ _ _ _ _ Hrun).
    rewrite visit_recording, visited_store_address. cbn [app].
    eexists. reflexivity.
  - intros pre e post -> Hpre He. apply first_named_split; assumption.
  - apply first_named_none.
Qed.

Lemma sample_exports_run :
  Elf.gum_module_enumerate_exports sample_basename 5 sample_process
    sample_filesystem "libfoo.so" collect []
  = Ok ([("open"%string, 4352); ("close"%string, 4864)],
        [Elf.sys_open "/lib/libfoo.so" 3; Elf.sys_mmap 3 2048;
         Elf.sys_munmap 2048; Elf.sys_close 3]).
Proof. vm_compute. reflexivity. Defined.

Lemma find_export_by_name_first_match_witness :
  Elf.gum_module_find_export_by_name sample_basename 5 sample_process
    sample_filesystem "libfoo.so" "close" = Ok 4864
  /\ Elf.gum_module_find_export_by_name sample_basename 5 sample_process
       sample_filesystem "libfoo.so" "helper" = Ok 0.
Proof.
  split.
  - exact (proj1 (find_export_by_name_first_match sample_basename 5
                    sample_process sample_filesystem "libfoo.so" "close"
                    _ _ sample_exports_run)).
  - exact (proj1 (find_export_by_name_first_match sample_basename 5
                    sample_process sample_filesystem "libfoo.so" "helper"
                    _ _ sample_exports_run)).
Defined.

(** ** CPU-context marshaller: what a store leaves of the register file *)

(** The register file after [gum_cpu_context_to_linux], spelled out: the
    seventeen covered registers in the order of their indices, then what was
    there before. *)
Lemma to_linux_gregs_64 (c : X86_64.GumCpuContext) (uc : X86_64.ucontext_t) :
  length (X86_64.gregs uc) = X86_64.NGREG ->
  X86_64.gregs (X86_64.gum_cpu_context_to_linux c uc)
  = [greg64 (X86_64.r8 c); greg64 (X86_64.r9 c); greg64 (X86_64.r10 c);
     greg64 (X86_64.r11 c); greg64 (X86_64.r12 c); greg64 (X86_64.r13 c);
     greg64 (X86_64.r14 c); greg64 (X86_64.r15 c); greg64 (X86_64.rdi c);
     greg64 (X86_64.rsi c); greg64 (X86_64.rbp c); greg64 (X86_64.rbx c);
     greg64 (X86_64.rdx c); greg64 (X86_64.rax c); greg64 (X86_64.rcx c);
     greg64 (X86_64.rsp c); greg64 (X86_64.rip c)]
    ++ drop 17 (X86_64.gregs uc).
Proof.
  destruct uc as [gr]. cbn [X86_64.gregs]. intros Hlen.
  do 23 (destruct gr as [| ? gr]; [ discriminate Hlen | ]).
  destruct gr; [ | discriminate Hlen ].
  reflexivity.
Qed.

Lemma to_linux_gregs_32 (c : X86_32.GumCpuContext) (uc : X86_32.ucontext_t) :
  length (X86_32.gregs uc) = X86_32.NGREG ->
  X86_32.gregs (X86_32.gum_cpu_context_to_linux c uc)
  = take 4 (X86_32.gregs uc)
    ++ [greg32 (X86_32.edi c); greg32 (X86_32.esi c); greg32 (X86_32.ebp c);
        greg32 (X86_32.esp c); greg32 (X86_32.ebx c); greg32 (X86_32.edx c);
        greg32 (X86_32.ecx c); greg32 (X86_32.eax c)]
    ++ take 2 (drop 12 (X86_32.gregs uc))
    ++ [greg32 (X86_32.eip c)]
    ++ drop 15 (X86_32.gregs uc).
Proof.
  destruct uc as [gr]. cbn [X86_32.gregs]. intros Hlen.
  do 19 (destruct gr as [| ? gr]; [ discriminate Hlen | ]).
  destruct gr; [ | discriminate Hlen ].
  reflexivity.
Qed.

(** Machine context, to CpuContext, back into the same machine context: the
    machine context is what it was. *)
Lemma reverse_roundtrip_64 (uc : X86_64.ucontext_t) :
  X86_64.ucontext_ok uc ->
  X86_64.gum_cpu_context_to_linux (X86_64.gum_cpu_context_from_linux uc) uc
  = uc.
Proof.
  intros [Hlen Hall].
  assert (H : X86_64.gregs
                (X86_64.gum_cpu_context_to_linux
                   (X86_64.gum_cpu_context_from_linux uc) uc)
              = X86_64.gregs uc).
  { rewrite to_linux_gregs_64 by exact Hlen.
    destruct uc as [gr]. cbn [X86_64.gregs] in *.
    do 23 (destruct gr as [| ? gr]; [ discriminate Hlen | ]).
    destruct gr; [ | discriminate Hlen ].
    repeat (apply Forall_cons in Hall; destruct Hall as [? Hall]).
    cbn [X86_64.gum_cpu_context_from_linux X86_64.gregs X86_64.rip
         X86_64.r15 X86_64.r14 X86_64.r13 X86_64.r12 X86_64.r11 X86_64.r10
         X86_64.r9 X86_64.r8 X86_64.rdi X86_64.rsi X86_64.rbp X86_64.rsp
         X86_64.rbx X86_64.rdx X86_64.rcx X86_64.rax].
    unfold X86_64.greg.
    cbn [lookup_total list_lookup_total X86_64.REG_RIP X86_64.REG_R15
         X86_64.REG_R14 X86_64.REG_R13 X86_64.REG_R12 X86_64.REG_R11
         X86_64.REG_R10 X86_64.REG_R9 X86_64.REG_R8 X86_64.REG_RDI
         X86_64.REG_RSI X86_64.REG_RBP X86_64.REG_RSP X86_64.REG_RBX
         X86_64.REG_RDX X86_64.REG_RCX X86_64.REG_RAX drop app].
    rewrite !greg64_guint64 by assumption. reflexivity. }
  destruct uc as [gr]. cbn [X86_64.gregs] in H.
  destruct (X86_64.gum_cpu_context_to_linux _ _) as [gr'].
  cbn [X86_64.gregs] in H. rewrite H. reflexivity.
Qed.

Lemma reverse_roundtrip_32 (uc : X86_32.ucontext_t) :
  X86_32.ucontext_ok uc ->
  X86_32.gum_cpu_context_to_linux (X86_32.gum_cpu_context_from_linux uc) uc
  = uc.
Proof.
  intros [Hlen Hall].
  assert (H : X86_32.gregs
                (X86_32.gum_cpu_context_to_linux
                   (X86_32.gum_cpu_context_from_linux uc) uc)
              = X86_32.gregs uc).
  { rewrite to_linux_gregs_32 by exact Hlen.
    destruct uc as [gr]. cbn [X86_32.gregs] in *.
    do 19 (destruct gr as [| ? gr]; [ discriminate Hlen | ]).
    destruct gr; [ | discriminate Hlen ].
    repeat (apply Forall_cons in Hall; destruct Hall as [? Hall]).
    cbn [X86_32.gum_cpu_context_from_linux X86_32.gregs X86_32.eip
         X86_32.edi X86_32.esi X86_32.ebp X86_32.esp X86_32.ebx X86_32.edx
         X86_32.ecx X86_32.eax].
    unfold X86_32.greg.
    cbn [lookup_total list_lookup_total X86_32.REG_EIP X86_32.REG_EDI
         X86_32.REG_ESI X86_32.REG_EBP X86_32.REG_ESP X86_32.REG_EBX
         X86_32.REG_EDX X86_32.REG_ECX X86_32.REG_EAX drop take app].
    rewrite !greg32_guint32 by assumption. reflexivity. }
  destruct uc as [gr]. cbn [X86_32.gregs] in H.
  destruct (X86_32.gum_cpu_context_to_linux _ _) as [gr'].
  cbn [X86_32.gregs] in H. rewrite H. reflexivity.
Qed.

Lemma to_linux_length_32 (c : X86_32.GumCpuContext) (uc : X86_32.ucontext_t) :
  length (X86_32.gregs (X86_32.gum_cpu_context_to_linux c uc))
  = length (X86_32.gregs uc).
Proof.
  unfold X86_32.gum_cpu_context_to_linux. cbv zeta.
  cbn [X86_32.gregs]. rewrite !length_insert. reflexivity.
Qed.

Lemma to_linux_frame_32 (c : X86_32.GumCpuContext) (uc : X86_32.ucontext_t)
    (i : nat) :
  (i < 4 \/ i = 12 \/ i = 13 \/ 14 < i)%nat ->
  X86_32.greg (X86_32.gregs (X86_32.gum_cpu_context_to_linux c uc)) i
  = X86_32.greg (X86_32.gregs uc) i.
Proof.
  intros Hi. unfold X86_32.gum_cpu_context_to_linux, X86_32.greg. cbv zeta.
  cbn [X86_32.gregs].
  repeat (rewrite list_lookup_total_insert_ne
            by (unfold X86_32.REG_EIP, X86_32.REG_EDI, X86_32.REG_ESI,
                  X86_32.REG_EBP, X86_32.REG_ESP, X86_32.REG_EBX,
                  X86_32.REG_EDX, X86_32.REG_ECX, X86_32.REG_EAX; lia)).
  reflexivity.
Qed.

(** X1. Converting a kernel machine context to a CpuContext with
    [gum_cpu_context_from_linux] and storing that CpuContext back into the
    same machine context with [gum_cpu_context_to_linux] leaves the machine
    context as it was, in the x86-64 and in the x86-32 bank: capturing a
    context and writing it back unchanged is no change.  The machine context
    has its [NGREG] registers, each a [greg_t]. *)
Theorem machine_context_roundtrip :
  (forall uc : X86_64.ucontext_t,
      X86_64.ucontext_ok uc ->
      X86_64.gum_cpu_context_to_linux (X86_64.gum_cpu_context_from_linux uc)
        uc = uc)
  /\ (forall uc : X86_32.ucontext_t,
         X86_32.ucontext_ok uc ->
         X86_32.gum_cpu_context_to_linux
           (X86_32.gum_cpu_context_from_linux uc) uc = uc).
Proof.
  split.
  - exact reverse_roundtrip_64.
  - exact reverse_roundtrip_32.
Qed.

(** X2. [gum_cpu_context_to_linux] writes the registers of the bank and
    nothing else: the register file keeps its length, and every register
    outside the bank keeps its value -- on x86-64 the indices above
    [REG_RIP] (flags, segment registers, error and trap numbers), on x86-32
    the segment registers below [REG_EDI], the trap and error numbers
    between [REG_EAX] and [REG_EIP] and everything above [REG_EIP]. *)
Theorem to_linux_keeps_other_registers :
  (forall (c : X86_64.GumCpuContext) (uc : X86_64.ucontext_t),
      length (X86_64.gregs (X86_64.gum_cpu_context_to_linux c uc))
      = length (X86_64.gregs uc)
      /\ forall i : nat,
           (16 < i)%nat ->
           X86_64.greg (X86_64.gregs (X86_64.gum_cpu_context_to_linux c uc)) i
           = X86_64.greg (X86_64.gregs uc) i)
  /\ (forall (c : X86_32.GumCpuContext) (uc : X86_32.ucontext_t),
         length (X86_32.gregs (X86_32.gum_cpu_context_to_linux c uc))
         = length (X86_32.gregs uc)
         /\ forall i : nat,
              (i < 4 \/ i = 12 \/ i = 13 \/ 14 < i)%nat ->
              X86_32.greg
                (X86_32.gregs (X86_32.gum_cpu_context_to_linux c uc)) i
              = X86_32.greg (X86_32.gregs uc) i).
Proof.
  split; intros c uc; split.
  - apply to_linux_length_64.
  - intros i. apply to_linux_frame_64.
  - apply to_linux_length_32.
  - intros i. apply to_linux_frame_32.
Qed.

(** X3. What [gum_cpu_context_to_linux] stores does not depend on what the
    covered registers held before: storing a context over a machine context
    into which another context was stored gives what storing it directly
    gives. *)
Theorem to_linux_overwrites :
  (forall (c c' : X86_64.GumCpuContext) (uc : X86_64.ucontext_t),
      length (X86_64.gregs uc) = X86_64.NGREG ->
      X86_64.gum_cpu_context_to_linux c (X86_64.gum_cpu_context_to_linux c' uc)
      = X86_64.gum_cpu_context_to_linux c uc)
  /\ (forall (c c' : X86_32.GumCpuContext) (uc : X86_32.ucontext_t),
         length (X86_32.gregs uc) = X86_32.NGREG ->
         X86_32.gum_cpu_context_to_linux c
           (X86_32.gum_cpu_context_to_linux c' uc)
         = X86_32.gum_cpu_context_to_linux c uc).
Proof.
  split; intros c c' uc Hlen.
  - destruct uc as [gr]. cbn [X86_64.gregs] in Hlen.
    do 23 (destruct gr as [| ? gr]; [ discriminate Hlen | ]).
    destruct gr; [ | discriminate Hlen ].
    reflexivity.
  - destruct uc as [gr]. cbn [X86_32.gregs] in Hlen.
    do 19 (destruct gr as [| ? gr]; [ discriminate Hlen | ]).
    destruct gr; [ | discriminate Hlen ].
    reflexivity.
Qed.

Lemma machine_context_roundtrip_witness :
  X86_64.gum_cpu_context_to_linux
    (X86_64.gum_cpu_context_from_linux sample_ucontext_64) sample_ucontext_64
  = sample_ucontext_64.
Proof.
  apply (proj1 machine_context_roundtrip). exact sample_ucontext_64_ok.
Defined.

Lemma to_linux_keeps_other_registers_witness :
  X86_64.greg
    (X86_64.gregs
       (X86_64.gum_cpu_context_to_linux sample_context_64 sample_ucontext_64))
    17
  = X86_64.greg (X86_64.gregs sample_ucontext_64) 17.
Proof.
  apply (proj2 (proj1 to_linux_keeps_other_registers sample_context_64
                  sample_ucontext_64) 17%nat).
  lia.
Defined.

Lemma to_linux_overwrites_witness :
  X86_64.gum_cpu_context_to_linux sample_context_64
    (X86_64.gum_cpu_context_to_linux (set_rax 42 sample_context_64)
       sample_ucontext_64)
  = X86_64.gum_cpu_context_to_linux sample_context_64 sample_ucontext_64.
Proof.
  apply (proj1 to_linux_overwrites). reflexivity.
Defined.

(** ** Thread context broker: the cross-thread branch *)

Lemma state_eq (a b : Broker.state) :
  Broker.lock_held a = Broker.lock_held b ->
  Broker.did_load_cpu_context a = Broker.did_load_cpu_context b ->
  Broker.did_modify_cpu_context a = Broker.did_modify_cpu_context b ->
  Broker.did_store_cpu_context a = Broker.did_store_cpu_context b ->
  Broker.cpu_context a = Broker.cpu_context b ->
  Broker.hijack_action a = Broker.hijack_action b ->
  Broker.threads a = Broker.threads b ->
  Broker.trace a = Broker.trace b ->
  a = b.
Proof.
  destruct a, b. cbn. intros -> -> -> -> -> -> -> ->. reflexivity.
Qed.

(** Reading a field of a state through the stores made to it. *)
Ltac state_fields :=
  cbn [Broker.lock_held Broker.did_load_cpu_context
       Broker.did_modify_cpu_context Broker.did_store_cpu_context
       Broker.cpu_context Broker.hijack_action Broker.threads Broker.trace
       Broker.log Broker.set_lock_held Broker.set_hijack_action
       Broker.set_did_store Broker.set_did_modify Broker.set_did_load
       Broker.set_cpu_context Broker.set_thread
       Broker.gum_do_modify_thread_store Broker.gum_do_modify_thread_load].

Lemma cross_thread_run {U : Type} (k : Broker.kernel) (fuel : nat)
    (me : Broker.caller) (thread_id : Broker.GumThreadId)
    (func : Broker.GumModifyThreadFunc U) (user_data : U)
    (st : Broker.state) (uc : X86_64.ucontext_t) :
  thread_id <> Broker.self_id me ->
  Broker.lock_held st = false ->
  Broker.threads st thread_id = Some uc ->
  Broker.tgkill_accepts k = true ->
  Broker.target_runs k = true ->
  Broker.gum_process_modify_thread k fuel me thread_id func user_data st
  = Broker.Returned true (Broker.self_regs me)
      (snd (func thread_id (X86_64.gum_cpu_context_from_linux uc) user_data))
      (after_rendezvous thread_id uc (X86_64.gum_cpu_context_from_linux uc)
         (fst (func thread_id (X86_64.gum_cpu_context_from_linux uc)
                 user_data))
         st).
Proof.
  intros Hne Hfree Hthread Haccept Hruns.
  unfold Broker.gum_process_modify_thread,
    Broker.gum_process_get_current_thread_id.
  destruct (Z.eqb_spec thread_id (Broker.self_id me)) as [Heq | _];
    [ contradiction | ].
  rewrite Hfree. unfold Broker.rendezvous, Broker.tgkill.
  cbn [Broker.threads Broker.log Broker.set_hijack_action
       Broker.set_did_store Broker.set_did_modify Broker.set_did_load
       Broker.set_lock_held].
  rewrite Hthread, Haccept, Hruns.
  cbn [Broker.gum_do_modify_thread_load Broker.set_did_load
       Broker.set_cpu_context Broker.log Broker.did_load_cpu_context negb
       Broker.cpu_context].
  destruct (func thread_id (X86_64.gum_cpu_context_from_linux uc) user_data)
    as [c' ud'].
  cbn [fst snd]. f_equal.
  apply state_eq; unfold after_rendezvous; state_fields;
    rewrite <- ?app_assoc; reflexivity.
Qed.

Lemma cross_thread_refused {U : Type} (k : Broker.kernel) (fuel : nat)
    (me : Broker.caller) (thread_id : Broker.GumThreadId)
    (func : Broker.GumModifyThreadFunc U) (user_data : U)
    (st : Broker.state) :
  thread_id <> Broker.self_id me ->
  Broker.lock_held st = false ->
  Broker.tgkill k st thread_id = None ->
  exists st',
    Broker.gum_process_modify_thread k fuel me thread_id func user_data st
    = Broker.Returned false (Broker.self_regs me) user_data st'
    /\ Broker.lock_held st' = false
    /\ Broker.hijack_action st' = Broker.hijack_action st
    /\ Broker.threads st' = Broker.threads st.
Proof.
  intros Hne Hfree Hkill.
  unfold Broker.gum_process_modify_thread,
    Broker.gum_process_get_current_thread_id.
  destruct (Z.eqb_spec thread_id (Broker.self_id me)) as [Heq | _];
    [ contradiction | ].
  rewrite Hfree. unfold Broker.rendezvous.
  set (st1 := Broker.log _ (Broker.set_hijack_action _ _)).
  assert (Hk1 : Broker.tgkill k st1 thread_id = None) by exact Hkill.
  rewrite Hk1. eexists. split; [ reflexivity | ].
  state_fields. repeat split; reflexivity.
Qed.

(** ** Thread enumeration *)

Lemma undisturbed_refl (st : Broker.state) :
  Broker.lock_held st = false -> Threads.undisturbed st st.
Proof. intros H. repeat split. exact H. Qed.

Lemma undisturbed_trans (st0 st st' : Broker.state) :
  Threads.undisturbed st0 st -> Threads.undisturbed st st' -> Threads.undisturbed st0 st'.
Proof.
  intros (_ & Ha & Ht) (Hl & Ha' & Ht'). repeat split.
  - exact Hl.
  - rewrite Ha'. exact Ha.
  - intros t. rewrite Ht'. apply Ht.
Qed.

Lemma machine_context_undisturbed (k : Broker.GumThreadId -> Broker.kernel)
    (me : Broker.caller) (st0 st : Broker.state)
    (thread_id : Broker.GumThreadId) :
  Threads.undisturbed st0 st ->
  Threads.machine_context k me st thread_id
  = Threads.machine_context k me st0 thread_id.
Proof.
  intros (_ & _ & Ht). unfold Threads.machine_context, Broker.tgkill.
  rewrite Ht. reflexivity.
Qed.

Lemma reenters_same (me : Broker.caller) :
  Broker.setcontext_reenters me (Broker.self_regs me) = true.
Proof.
  unfold Broker.setcontext_reenters. rewrite Z.eqb_refl.
  destruct (Broker.frame me); cbn [Broker.frame_registers forallb andb];
    rewrite ?Z.eqb_refl; reflexivity.
Qed.

Lemma resumed_same (me : Broker.caller) :
  Broker.resumed (Broker.self_regs me) me = me.
Proof. destruct me. reflexivity. Qed.

(** Capturing the context of a thread the broker can get hold of: the call
    returns TRUE with the context, and the thread keeps its registers. *)
Lemma capture_run (k : Broker.GumThreadId -> Broker.kernel) (fuel : nat)
    (me : Broker.caller) (thread_id : Broker.GumThreadId)
    (indeterminate : X86_64.GumCpuContext) (st : Broker.state)
    (uc : X86_64.ucontext_t) :
  Broker.lock_held st = false ->
  Threads.machine_context k me st thread_id = Some uc ->
  X86_64.ucontext_ok uc ->
  Broker.target_runs (k thread_id) = true ->
  exists st',
    Broker.gum_process_modify_thread (k thread_id) (S fuel) me thread_id
      Threads.gum_store_cpu_context indeterminate st
    = Broker.Returned true (Broker.self_regs me)
        (X86_64.gum_cpu_context_from_linux uc) st'
    /\ Threads.undisturbed st st'.
Proof.
  intros Hfree Hctx Hok Hruns. unfold Threads.machine_context in Hctx.
  destruct (Z.eqb_spec thread_id (Broker.self_id me)) as [-> | Hne].
  - injection Hctx as <-.
    unfold Broker.gum_process_modify_thread,
      Broker.gum_process_get_current_thread_id.
    rewrite Z.eqb_refl.
    cbn [Broker.after_getcontext negb Threads.gum_store_cpu_context].
    rewrite (reverse_roundtrip_64 _ Hok), reenters_same.
    rewrite after_getcontext_modified.
    eexists. split; [ reflexivity | ].
    repeat split. exact Hfree.
  - unfold Broker.tgkill in Hctx.
    destruct (Broker.threads st thread_id) as [uc' |] eqn:Hthread;
      [ | discriminate ].
    destruct (Broker.tgkill_accepts (k thread_id)) eqn:Haccept;
      [ | discriminate ].
    injection Hctx as ->.
    rewrite (cross_thread_run (k thread_id) (S fuel) me thread_id
               Threads.gum_store_cpu_context indeterminate st uc
               Hne Hfree Hthread Haccept Hruns).
    cbn [Threads.gum_store_cpu_context fst snd].
    eexists. split; [ reflexivity | ].
    unfold after_rendezvous. repeat split.
    intros t. cbn [Broker.threads].
    destruct (Z.eqb_spec t thread_id) as [-> | _]; [ | reflexivity ].
    rewrite (reverse_roundtrip_64 _ Hok). symmetry. exact Hthread.
Qed.

(** A thread the broker cannot get hold of: the call returns FALSE. *)
Lemma capture_refused (k : Broker.GumThreadId -> Broker.kernel) (fuel : nat)
    (me : Broker.caller) (thread_id : Broker.GumThreadId)
    (indeterminate : X86_64.GumCpuContext) (st : Broker.state) :
  Broker.lock_held st = false ->
  Threads.machine_context k me st thread_id = None ->
  exists st',
    Broker.gum_process_modify_thread (k thread_id) fuel me thread_id
      Threads.gum_store_cpu_context indeterminate st
    = Broker.Returned false (Broker.self_regs me) indeterminate st'
    /\ Threads.undisturbed st st'.
Proof.
  intros Hfree Hctx. unfold Threads.machine_context in Hctx.
  destruct (Z.eqb_spec thread_id (Broker.self_id me)) as [| Hne];
    [ discriminate | ].
  destruct (cross_thread_refused (k thread_id) fuel me thread_id
              Threads.gum_store_cpu_context indeterminate st Hne Hfree Hctx)
    as (st' & Hrun & Hl & Ha & Ht).
  exists st'. split; [ exact Hrun | ].
  repeat split; try assumption. intros t. rewrite Ht. reflexivity.
Qed.

Section ThreadsFacts.

Context {U : Type}.
Variable atoi : string -> Z.
Variable k : Broker.GumThreadId -> Broker.kernel.
Variable indeterminate : X86_64.GumCpuContext.
Variable fs : Threads.procfs.
Variable me : Broker.caller.
Variable st0 : Broker.state.

Hypothesis Hself : X86_64.ucontext_ok (Broker.self_regs me).
Hypothesis Hthreads :
  forall t uc, Broker.threads st0 t = Some uc -> X86_64.ucontext_ok uc.
Hypothesis Hruns : forall t, Broker.target_runs (k t) = true.

Lemma machine_context_ok (st : Broker.state) (t : Broker.GumThreadId)
    (uc : X86_64.ucontext_t) :
  Threads.undisturbed st0 st ->
  Threads.machine_context k me st t = Some uc -> X86_64.ucontext_ok uc.
Proof.
  intros Hu Hctx. rewrite (machine_context_undisturbed k me st0 st t Hu) in Hctx.
  unfold Threads.machine_context, Broker.tgkill in Hctx.
  destruct (t =? Broker.self_id me).
  - injection Hctx as <-. exact Hself.
  - destruct (Broker.threads st0 t) as [uc' |] eqn:Ht; [ | discriminate ].
    destruct (Broker.tgkill_accepts (k t)); [ | discriminate ].
    injection Hctx as <-. exact (Hthreads t uc' Ht).
Qed.

(** One iteration of the loop on a name whose stat file can be decoded. *)
Lemma enumerate_threads_step (fuel : nat) (func : Threads.GumFoundThreadFunc U)
    (name : string) (names : list string) (user_data : U)
    (st : Broker.state) :
  Threads.undisturbed st0 st ->
  Threads.stat_decodes fs name = true ->
  exists st',
    Threads.undisturbed st0 st'
    /\ Threads.enumerate_threads_loop atoi k indeterminate (S fuel) fs me
         func (name :: names) user_data st
       = match Threads.details_of atoi k fs me st0 name with
         | None =>
             Threads.enumerate_threads_loop atoi k indeterminate (S fuel) fs
               me func names user_data st'
         | Some details =>
             let '(carry_on, user_data) := func details user_data in
             if carry_on then
               Threads.enumerate_threads_loop atoi k indeterminate (S fuel)
                 fs me func names user_data st'
             else Threads.Finished (Broker.self_regs me) user_data st'
         end.
Proof.
  intros Hu Hdec.
  unfold Threads.stat_decodes, Threads.stat_state in Hdec.
  unfold Threads.details_of, Threads.stat_state.
  cbn [Threads.enumerate_threads_loop].
  destruct (Threads.g_file_get_contents fs (Threads.stat_path name))
    as [info |]; cbn [mbind option_bind] in *.
  2: { exists st. split; [ exact Hu | reflexivity ]. }
  destruct (Threads.state_of_stat info) as [s | |];
    [ | discriminate | discriminate ].
  rewrite <- (machine_context_undisturbed k me st0 st (atoi name) Hu).
  destruct (Threads.machine_context k me st (atoi name)) as [uc |] eqn:Hctx;
    cbn [mbind option_bind].
  - destruct (capture_run k fuel me (atoi name) indeterminate st uc
                (proj1 Hu) Hctx (machine_context_ok st _ uc Hu Hctx)
                (Hruns _)) as (st' & -> & Hu').
    exists st'. split; [ exact (undisturbed_trans _ _ _ Hu Hu') | ].
    rewrite resumed_same. reflexivity.
  - destruct (capture_refused k (S fuel) me (atoi name) indeterminate st
                (proj1 Hu) Hctx) as (st' & -> & Hu').
    exists st'. split; [ exact (undisturbed_trans _ _ _ Hu Hu') | ].
    rewrite resumed_same. reflexivity.
Qed.

Lemma enumerate_threads_loop_visit (fuel : nat)
    (func : Threads.GumFoundThreadFunc U) (names : list string) :
  forallb (Threads.stat_decodes fs) names = true ->
  forall (user_data : U) (st : Broker.state),
  Threads.undisturbed st0 st ->
  exists st',
    Threads.undisturbed st0 st'
    /\ Threads.enumerate_threads_loop atoi k indeterminate (S fuel) fs me
         func names user_data st
       = Threads.Finished (Broker.self_regs me)
           (visit func (omap (Threads.details_of atoi k fs me st0) names)
              user_data)
           st'.
Proof.
  induction names as [| name names IH]; intros Hdec user_data st Hu.
  - exists st. split; [ exact Hu | reflexivity ].
  - cbn [forallb] in Hdec. apply andb_true_iff in Hdec.
    destruct Hdec as [Hname Hnames].
    destruct (enumerate_threads_step fuel func name names user_data st Hu
                Hname) as (st1 & Hu1 & ->).
    cbn [omap list_omap].
    destruct (Threads.details_of atoi k fs me st0 name) as [details |].
    + cbn [visit]. destruct (func details user_data) as [carry_on ud1].
      destruct carry_on.
      * apply (IH Hnames ud1 st1 Hu1).
      * exists st1. split; [ exact Hu1 | reflexivity ].
    + apply (IH Hnames user_data st1 Hu1).
Qed.

(** A stat line that cannot be decoded ends the enumeration when the loop
    gets to it. *)
Lemma enumerate_threads_loop_crash (fuel : nat)
    (func : Threads.GumFoundThreadFunc U) (name : string)
    (post : list string) (info : string) (why : crash) :
  (forall details user_data, fst (func details user_data) = true) ->
  Threads.g_file_get_contents fs (Threads.stat_path name) = Some info ->
  Threads.state_of_stat info = Abort why ->
  forall (pre : list string),
  forallb (Threads.stat_decodes fs) pre = true ->
  forall (user_data : U) (st : Broker.state),
  Threads.undisturbed st0 st ->
  Threads.enumerate_threads_loop atoi k indeterminate (S fuel) fs me func
    (pre ++ name :: post) user_data st
  = Threads.Crashed why.
Proof.
  intros Hgo Hinfo Hstate.
  induction pre as [| name' pre IH]; intros Hdec user_data st Hu.
  - cbn [app Threads.enumerate_threads_loop]. rewrite Hinfo, Hstate.
    reflexivity.
  - cbn [forallb] in Hdec. apply andb_true_iff in Hdec.
    destruct Hdec as [Hname Hpre]. cbn [app].
    destruct (enumerate_threads_step fuel func name' (pre ++ name :: post)
                user_data st Hu Hname) as (st1 & Hu1 & ->).
    destruct (Threads.details_of atoi k fs me st0 name') as [details |].
    + specialize (Hgo details user_data).
      destruct (func details user_data) as [carry_on ud1].
      cbn [fst] in Hgo. subst carry_on. apply (IH Hpre ud1 st1 Hu1).
    + apply (IH Hpre user_data st1 Hu1).
Qed.

End ThreadsFacts.

(** *** The state character *)

Lemma append_cons (x : ascii) (a b : string) :
  (String x a ++ b)%string = String x (a ++ b)%string.
Proof. reflexivity. Qed.

Lemma length_append (a b : string) :
  String.length (a ++ b) = (String.length a + String.length b)%nat.
Proof.
  induction a as [| x a IH]; [ reflexivity | ].
  rewrite append_cons. cbn [String.length Nat.add]. rewrite IH. reflexivity.
Qed.

Lemma strrchr_app_found (a b : string) (c : ascii) (i : nat) :
  Threads.strrchr b c = Some i ->
  Threads.strrchr (a ++ b) c = Some (String.length a + i)%nat.
Proof.
  intros Hb. induction a as [| x a IH]; [ exact Hb | ].
  rewrite append_cons. cbn [Threads.strrchr String.length Nat.add].
  rewrite IH. reflexivity.
Qed.

Lemma strrchr_absent (s : string) (c : ascii) :
  (forall i, String.get i s <> Some c) -> Threads.strrchr s c = None.
Proof.
  induction s as [| x s IH]; intros Hnone; [ reflexivity | ].
  cbn. rewrite IH.
  - destruct (Ascii.eqb_spec x c) as [-> | _]; [ | reflexivity ].
    exfalso. apply (Hnone O). reflexivity.
  - intros i. apply (Hnone (S i)).
Qed.

Lemma get_app_right (a b : string) (i : nat) :
  String.get (String.length a + i) (a ++ b) = String.get i b.
Proof.
  induction a as [| x a IH]; [ reflexivity | ].
  rewrite append_cons. exact IH.
Qed.

Lemma thread_state_unknown (c : ascii) :
  ~ In c Threads.known_states ->
  Threads.gum_thread_state_from_proc_status_character c
  = Abort assertion_failed.
Proof.
  intros Hc. unfold Threads.gum_thread_state_from_proc_status_character.
  repeat match goal with
         | |- context [Ascii.eqb c ?x] =>
             destruct (Ascii.eqb_spec c x) as [-> | _];
             [ exfalso; apply Hc; cbn; tauto | ]
         end.
  reflexivity.
Qed.

(** X6. The state of a thread is read two characters after the last [')']
    of its stat line (line 198), so a thread name that holds parentheses
    itself does not mislead the enumerator.  A stat line without any [')']
    makes the read fault ([strrchr] returns NULL), and a line that ends one
    character after the [')'] is read as the NUL that terminates it, which
    the decoder answers with its failed assertion. *)
Theorem state_character_after_last_paren :
  (forall (before rest : string) (separator c : ascii),
      (forall i, String.get i rest <> Some ")"%char) ->
      separator <> ")"%char -> c <> ")"%char ->
      Threads.state_character
        (before ++ String ")" (String separator (String c rest)))
      = Ok c)
  /\ (forall info : string,
         (forall i, String.get i info <> Some ")"%char) ->
         Threads.state_character info = Abort memory_fault)
  /\ (forall (before : string) (separator : ascii),
         separator <> ")"%char ->
         Threads.state_of_stat
           (before ++ String ")" (String separator EmptyString))
         = Abort assertion_failed).
Proof.
  split; [ | split ].
  - intros before rest separator c Hrest Hsep Hc.
    unfold Threads.state_character.
    rewrite (strrchr_app_found before _ ")" 0).
    + rewrite <- Nat.add_assoc, get_app_right. reflexivity.
    + cbn [Threads.strrchr].
      rewrite (strrchr_absent rest ")" Hrest).
      destruct (Ascii.eqb_spec c ")") as [| _]; [ contradiction | ].
      destruct (Ascii.eqb_spec separator ")") as [| _]; [ contradiction | ].
      reflexivity.
  - intros info Hnone. unfold Threads.state_character.
    rewrite (strrchr_absent info ")" Hnone). reflexivity.
  - intros before separator Hsep.
    unfold Threads.state_of_stat, Threads.state_character.
    rewrite (strrchr_app_found before _ ")" 0).
    + rewrite <- Nat.add_assoc, get_app_right. cbn [String.get Nat.add].
      rewrite length_append. cbn [String.length].
      rewrite Nat.eqb_refl. reflexivity.
    + cbn [Threads.strrchr].
      destruct (Ascii.eqb_spec separator ")") as [| _]; [ contradiction | ].
      reflexivity.
Qed.

Lemma state_character_after_last_paren_witness :
  Threads.state_character "7 (pool (io)) S 0 1 1" = Ok "S"%char
  /\ Threads.state_character "7 pool S 0 1 1" = Abort memory_fault.
Proof.
  split.
  - apply (proj1 state_character_after_last_paren "7 (pool (io)"%string
             " 0 1 1"%string " "%char "S"%char).
    + intros i. do 8 (destruct i as [| i]; [ discriminate | ]). discriminate.
    + discriminate.
    + discriminate.
  - apply (proj1 (proj2 state_character_after_last_paren)).
    intros i. do 15 (destruct i as [| i]; [ discriminate | ]). discriminate.
Defined.

(** *** The enumeration *)

(** X7. Capturing a thread's context, as [gum_process_enumerate_threads]
    does it: a call of the broker with [gum_store_cpu_context] as visitor,
    for the caller itself or for a thread the signal reaches and that runs
    the handler, returns TRUE with the CpuContext of that thread in the
    user data -- whatever the user data held before -- and changes no
    thread's machine context, that of the captured thread included; the
    mutex is free and the hijack signal's action is as before. *)
Theorem capture_keeps_registers (k : Broker.GumThreadId -> Broker.kernel)
    (fuel : nat) (me : Broker.caller) (thread_id : Broker.GumThreadId)
    (indeterminate : X86_64.GumCpuContext) (st : Broker.state)
    (uc : X86_64.ucontext_t) :
  Broker.lock_held st = false ->
  Threads.machine_context k me st thread_id = Some uc ->
  X86_64.ucontext_ok uc ->
  Broker.target_runs (k thread_id) = true ->
  exists st',
    Broker.gum_process_modify_thread (k thread_id) (S fuel) me thread_id
      Threads.gum_store_cpu_context indeterminate st
    = Broker.Returned true (Broker.self_regs me)
        (X86_64.gum_cpu_context_from_linux uc) st'
    /\ Threads.machine_context k me st' thread_id = Some uc
    /\ (forall t, Broker.threads st' t = Broker.threads st t)
    /\ Broker.lock_held st' = false
    /\ Broker.hijack_action st' = Broker.hijack_action st.
Proof.
  intros Hfree Hctx Hok Hruns.
  destruct (capture_run k fuel me thread_id indeterminate st uc Hfree Hctx
              Hok Hruns) as (st' & Hrun & Hu).
  exists st'. split; [ exact Hrun | ].
  rewrite (machine_context_undisturbed k me st st' thread_id Hu).
  destruct Hu as (Hl & Ha & Ht). repeat split; assumption.
Qed.

Lemma sample_threads_ok (t : Broker.GumThreadId) (uc : X86_64.ucontext_t) :
  Broker.threads sample_state t = Some uc -> X86_64.ucontext_ok uc.
Proof.
  cbn [Broker.threads sample_state]. destruct (t =? 7); [ | discriminate ].
  intros [= <-]. exact sample_ucontext_64_ok.
Defined.

Lemma capture_keeps_registers_witness :
  exists st',
    Broker.gum_process_modify_thread sample_kernel 1 sample_caller 7
      Threads.gum_store_cpu_context sample_context_64 sample_state
    = Broker.Returned true sample_ucontext_64
        (X86_64.gum_cpu_context_from_linux sample_ucontext_64) st'
    /\ Threads.machine_context sample_kernels sample_caller st' 7
       = Some sample_ucontext_64
    /\ (forall t, Broker.threads st' t = Broker.threads sample_state t)
    /\ Broker.lock_held st' = false
    /\ Broker.hijack_action st' = Broker.hijack_action sample_state.
Proof.
  apply (capture_keeps_registers sample_kernels 0 sample_caller 7
           sample_context_64 sample_state sample_ucontext_64).
  - reflexivity.
  - reflexivity.
  - exact sample_ucontext_64_ok.
  - reflexivity.
Defined.

(** X8. [gum_process_enumerate_threads], started with the mutex free in a
    process whose hijacked threads get to run the handler and whose stat
    files show states the decoder knows: the enumeration returns, having
    offered its visitor, in directory order and until the visitor returns
    FALSE, one record for each name whose stat file can be read and whose
    thread the broker can get hold of, with the id [atoi] gives for the
    name, the state decoded from the stat file and the context captured
    from the thread.  A name whose stat file cannot be read and a thread
    that cannot be signalled (it has exited) are passed over.  What
    [details.cpu_context] held before the capture is not reported.
    Afterwards the mutex is free, the action of the hijack signal is the
    one installed before, and every thread has the machine context it
    had. *)
Theorem enumerate_threads_reports {U : Type} (atoi : string -> Z)
    (k : Broker.GumThreadId -> Broker.kernel)
    (indeterminate : X86_64.GumCpuContext) (fuel : nat)
    (fs : Threads.procfs) (me : Broker.caller)
    (func : Threads.GumFoundThreadFunc U) (user_data : U)
    (st : Broker.state) (names : list string) :
  Threads.proc_self_task fs = Some names ->
  forallb (Threads.stat_decodes fs) names = true ->
  Broker.lock_held st = false ->
  X86_64.ucontext_ok (Broker.self_regs me) ->
  (forall t uc, Broker.threads st t = Some uc -> X86_64.ucontext_ok uc) ->
  (forall t, Broker.target_runs (k t) = true) ->
  exists st',
    Threads.gum_process_enumerate_threads atoi k indeterminate (S fuel) fs me
      func user_data st
    = Threads.Finished (Broker.self_regs me)
        (visit func (omap (Threads.details_of atoi k fs me st) names)
           user_data)
        st'
    /\ Broker.lock_held st' = false
    /\ Broker.hijack_action st' = Broker.hijack_action st
    /\ (forall t, Broker.threads st' t = Broker.threads st t).
Proof.
  intros Hdir Hdec Hfree Hself Hthreads Hruns.
  unfold Threads.gum_process_enumerate_threads. rewrite Hdir.
  destruct (enumerate_threads_loop_visit atoi k indeterminate fs me st Hself
              Hthreads Hruns fuel func names Hdec user_data st
              (undisturbed_refl st Hfree)) as (st' & Hu & Hrun).
  exists st'. split; [ exact Hrun | exact Hu ].
Qed.

Lemma enumerate_threads_reports_witness :
  exists st',
    Threads.gum_process_enumerate_threads sample_atoi sample_kernels
      sample_context_64 1 sample_tasks sample_caller collect [] sample_state
    = Threads.Finished sample_ucontext_64
        [{| Threads.id := 1;
            Threads.state := Threads.GUM_THREAD_RUNNING;
            Threads.cpu_context :=
              X86_64.gum_cpu_context_from_linux sample_ucontext_64 |};
         {| Threads.id := 7;
            Threads.state := Threads.GUM_THREAD_WAITING;
            Threads.cpu_context :=
              X86_64.gum_cpu_context_from_linux sample_ucontext_64 |}]
        st'
    /\ Broker.lock_held st' = false
    /\ Broker.hijack_action st' = Broker.hijack_action sample_state
    /\ (forall t, Broker.threads st' t = Broker.threads sample_state t).
Proof.
  exact (enumerate_threads_reports sample_atoi sample_kernels
           sample_context_64 0 sample_tasks sample_caller collect []
           sample_state ["1"; "5"; "7"; "9"]%string eq_refl eq_refl eq_refl
           sample_ucontext_64_ok sample_threads_ok (fun _ => eq_refl)).
Defined.

(** X9. The thread that enumerates is among the threads reported: when the
    task directory lists the name whose id is
    [gum_process_get_current_thread_id ()] and its stat file can be read,
    an enumeration that is not stopped reports a record with that id, the
    state of the stat file and the caller's own context, captured on the
    same-thread path. *)
Theorem enumerate_threads_includes_caller (atoi : string -> Z)
    (k : Broker.GumThreadId -> Broker.kernel)
    (indeterminate : X86_64.GumCpuContext) (fuel : nat)
    (fs : Threads.procfs) (me : Broker.caller) (st : Broker.state)
    (names : list string) (name info : string)
    (s : Threads.GumThreadState) :
  Threads.proc_self_task fs = Some names ->
  forallb (Threads.stat_decodes fs) names = true ->
  Broker.lock_held st = false ->
  X86_64.ucontext_ok (Broker.self_regs me) ->
  (forall t uc, Broker.threads st t = Some uc -> X86_64.ucontext_ok uc) ->
  (forall t, Broker.target_runs (k t) = true) ->
  In name names ->
  atoi name = Broker.gum_process_get_current_thread_id me ->
  Threads.g_file_get_contents fs (Threads.stat_path name) = Some info ->
  Threads.state_of_stat info = Ok s ->
  exists records st',
    Threads.gum_process_enumerate_threads atoi k indeterminate (S fuel) fs me
      collect [] st
    = Threads.Finished (Broker.self_regs me) records st'
    /\ In {| Threads.id := Broker.gum_process_get_current_thread_id me;
             Threads.state := s;
             Threads.cpu_context :=
               X86_64.gum_cpu_context_from_linux (Broker.self_regs me) |}
         records.
Proof.
  intros Hdir Hdec Hfree Hself Hthreads Hruns Hin Hid Hinfo Hstate.
  unfold Threads.gum_process_enumerate_threads. rewrite Hdir.
  destruct (enumerate_threads_loop_visit atoi k indeterminate fs me st Hself
              Hthreads Hruns fuel collect names Hdec [] st
              (undisturbed_refl st Hfree)) as (st' & _ & ->).
  rewrite visit_collect. cbn [app].
  eexists _, st'. split; [ reflexivity | ].
  apply list_elem_of_In, list_elem_of_omap. exists name. split.
  - apply list_elem_of_In. exact Hin.
  - unfold Threads.details_of, Threads.stat_state.
    rewrite Hinfo. cbn [mbind option_bind]. rewrite Hstate.
    unfold Threads.machine_context. rewrite Hid.
    unfold Broker.gum_process_get_current_thread_id.
    rewrite Z.eqb_refl. reflexivity.
Qed.

Lemma enumerate_threads_includes_caller_witness :
  exists records st',
    Threads.gum_process_enumerate_threads sample_atoi sample_kernels
      sample_context_64 1 sample_tasks sample_caller collect [] sample_state
    = Threads.Finished sample_ucontext_64 records st'
    /\ In {| Threads.id := 1;
             Threads.state := Threads.GUM_THREAD_RUNNING;
             Threads.cpu_context :=
               X86_64.gum_cpu_context_from_linux sample_ucontext_64 |}
         records.
Proof.
  exact (enumerate_threads_includes_caller sample_atoi sample_kernels
           sample_context_64 0 sample_tasks sample_caller sample_state
           ["1"; "5"; "7"; "9"]%string "1"%string "1 (agent) R 0 1 1"%string
           Threads.GUM_THREAD_RUNNING eq_refl eq_refl eq_refl
           sample_ucontext_64_ok sample_threads_ok (fun _ => eq_refl)
           (or_introl eq_refl) eq_refl eq_refl eq_refl).
Defined.

(** X10. A thread in a state the decoder has no case for: when the stat file
    of a listed thread shows a state character other than R, S, D, Z, T and
    W (a traced thread shows [t], a dead one [X], an idle kernel thread
    [I]), an enumeration that gets as far as that thread ends the process
    with the failed assertion of [g_assert_not_reached], whatever the
    threads listed after it are. *)
Theorem enumerate_threads_unknown_state {U : Type} (atoi : string -> Z)
    (k : Broker.GumThreadId -> Broker.kernel)
    (indeterminate : X86_64.GumCpuContext) (fuel : nat)
    (fs : Threads.procfs) (me : Broker.caller)
    (func : Threads.GumFoundThreadFunc U) (user_data : U)
    (st : Broker.state) (pre post : list string) (name info : string)
    (c : ascii) :
  Threads.proc_self_task fs = Some (pre ++ name :: post) ->
  forallb (Threads.stat_decodes fs) pre = true ->
  Broker.lock_held st = false ->
  X86_64.ucontext_ok (Broker.self_regs me) ->
  (forall t uc, Broker.threads st t = Some uc -> X86_64.ucontext_ok uc) ->
  (forall t, Broker.target_runs (k t) = true) ->
  (forall details user_data, fst (func details user_data) = true) ->
  Threads.g_file_get_contents fs (Threads.stat_path name) = Some info ->
  Threads.state_character info = Ok c ->
  ~ In c Threads.known_states ->
  Threads.gum_process_enumerate_threads atoi k indeterminate (S fuel) fs me
    func user_data st
  = Threads.Crashed assertion_failed.
Proof.
  intros Hdir Hdec Hfree Hself Hthreads Hruns Hgo Hinfo Hchar Hc.
  unfold Threads.gum_process_enumerate_threads. rewrite Hdir.
  apply (enumerate_threads_loop_crash atoi k indeterminate fs me st Hself
           Hthreads Hruns fuel func name post info assertion_failed Hgo
           Hinfo).
  - unfold Threads.state_of_stat. rewrite Hchar. cbn [mbind result_bind].
    apply thread_state_unknown. exact Hc.
  - exact Hdec.
  - apply undisturbed_refl. exact Hfree.
Qed.

Lemma traced_state_unknown : ~ In "t"%char Threads.known_states.
Proof.
  cbn. intros H. repeat (destruct H as [H | H]; [ discriminate H | ]).
  exact H.
Defined.

Lemma enumerate_threads_unknown_state_witness :
  Threads.gum_process_enumerate_threads sample_atoi sample_kernels
    sample_context_64 1 traced_tasks sample_caller carry_on_always tt
    sample_state
  = Threads.Crashed assertion_failed.
Proof.
  exact (enumerate_threads_unknown_state sample_atoi sample_kernels
           sample_context_64 0 traced_tasks sample_caller carry_on_always tt
           sample_state ["1"%string] ["7"%string] "8"%string
           "8 (worker) t 0 1 1"%string "t"%char eq_refl eq_refl eq_refl
           sample_ucontext_64_ok sample_threads_ok (fun _ => eq_refl)
           (fun _ _ => eq_refl) eq_refl eq_refl traced_state_unknown).
Defined.

(** ** Ranges of one module *)

(** The pointer difference, stored in a [gsize], is the 64-bit
    subtraction. *)
Lemma guint64_ptrdiff (end_ start : Z) :
  guint64 (ModuleLookup.ptrdiff end_ start) = guint64 (end_ - start).
Proof.
  unfold guint64, ModuleLookup.ptrdiff, to_unsigned, to_signed.
  change (2 ^ (64 - 1)) with (2 ^ 63).
  rewrite Zminus_mod_idemp_l. f_equal. lia.
Qed.

Lemma enumerate_module_ranges_loop_visit {U : Type}
    (basename : string -> string) (module_name : string) (prot : Z)
    (func : Procfs.GumFoundRangeFunc U) (lines : list Procfs.maps_line)
    (user_data : U) :
  Forall Procfs.well_formed lines ->
  ModuleLookup.enumerate_module_ranges_loop basename module_name prot func
    lines user_data
  = Ok (visit func
          (map Procfs.range_of_line
             (List.filter
                (fun line =>
                   ModuleLookup.line_of_module basename module_name line
                   && Procfs.line_satisfies prot line)
                lines))
          user_data).
Proof.
  intros Hwf. revert user_data.
  induction Hwf as [| line lines Hline _ IH]; intros user_data.
  - reflexivity.
  - destruct line as [| start end_ perms pathname];
      [ contradiction Hline; reflexivity | ].
    cbn [ModuleLookup.enumerate_module_ranges_loop
         ModuleLookup.sscanf_start_end_perms_path List.filter
         ModuleLookup.line_of_module].
    destruct (Procfs.path_field pathname) as [path |].
    + change (4 =? 3) with false. change (negb (4 =? 4)) with false.
      cbv iota.
      destruct (Ascii.eqb (Procfs.char_at path 0) "["); cbn [negb andb].
      { apply IH. }
      destruct (String.eqb (basename path) module_name); cbn [andb].
      2: { apply IH. }
      unfold Procfs.line_satisfies at 1.
      cbn [Procfs.sscanf_start_end_perms].
      destruct (Z.land _ prot =? prot).
      * cbn [map visit]. unfold Procfs.range_of_line at 1.
        cbn [Procfs.sscanf_start_end_perms].
        rewrite guint64_ptrdiff.
        destruct (func _ user_data) as [carry_on ud1].
        destruct carry_on; [ apply IH | reflexivity ].
      * apply IH.
    + change (3 =? 3) with true. cbv iota. cbn [andb]. apply IH.
Qed.

Lemma filter_and_sublist {A B : Type} (f : A -> B) (P Q : A -> bool)
    (l : list A) :
  sublist (map f (List.filter (fun x => P x && Q x) l))
    (map f (List.filter Q l)).
Proof.
  induction l as [| x l IH]; [ constructor | ].
  cbn [List.filter]. destruct (Q x).
  - destruct (P x); cbn [andb map].
    + apply sublist_skip. exact IH.
    + apply sublist_cons. exact IH.
  - rewrite andb_false_r. exact IH.
Qed.

(** X11. Over well-formed maps lines, [gum_module_enumerate_ranges] offers
    the visitor, in file order and until it returns FALSE, the pair (range
    from the parsed start to the parsed end, decoded protection) of exactly
    the lines that have a path field, whose path field does not begin with
    ['['] and has the module name as its basename, and whose decoded
    protection satisfies [(cur_prot & prot) == prot].  The path field is
    what [%s] stores: the first blank-delimited word after the inode
    column, so that of a pathname with a blank in it only the part before
    the blank counts.  A line without a path field yields nothing. *)
Theorem enumerate_module_ranges_emits :
  (forall (U : Type) (basename : string -> string) (p : Procfs.process)
          (module_name : string) (prot : Z)
          (func : Procfs.GumFoundRangeFunc U) (user_data : U)
          (lines : list Procfs.maps_line),
      Procfs.proc_self_maps p = Some lines ->
      Forall Procfs.well_formed lines ->
      ModuleLookup.gum_module_enumerate_ranges basename p module_name prot
        func user_data
      = Ok (visit func
              (map Procfs.range_of_line
                 (List.filter
                    (fun line =>
                       ModuleLookup.line_of_module basename module_name line
                       && Procfs.line_satisfies prot line)
                    lines))
              user_data))
  /\ (forall (basename : string -> string) (module_name : string)
             (start end_ : Z) (perms : string) (pathname : option string),
         ModuleLookup.line_of_module basename module_name
           (Procfs.mapping start end_ perms pathname) = true <->
         exists path,
           Procfs.path_field pathname = Some path
           /\ Procfs.char_at path 0 <> "["%char
           /\ basename path = module_name)
  /\ (forall (path : string) (blank : ascii) (rest : string),
         path <> EmptyString ->
         (forall i c, String.get i path = Some c ->
                      Procfs.isspace c = false) ->
         Procfs.isspace blank = true ->
         Procfs.path_field (Some path) = Some path
         /\ Procfs.path_field (Some (path ++ String blank rest)%string)
            = Some path).
Proof.
  split; [ | split ].
  - intros U basename p module_name prot func user_data lines Hmaps Hwf.
    unfold ModuleLookup.gum_module_enumerate_ranges. rewrite Hmaps.
    apply enumerate_module_ranges_loop_visit. exact Hwf.
  - intros basename module_name start end_ perms pathname.
    unfold ModuleLookup.line_of_module. split.
    + destruct (Procfs.path_field pathname) as [path |]; [ | discriminate ].
      rewrite andb_true_iff, negb_true_iff. intros [Hb Hn].
      exists path. split; [ reflexivity | ]. split.
      * intros Heq. rewrite Heq in Hb. discriminate.
      * apply String.eqb_eq. exact Hn.
    + intros (path & -> & Hb & Hn).
      rewrite andb_true_iff, negb_true_iff. split.
      * destruct (Ascii.eqb_spec (Procfs.char_at path 0) "[");
          [ contradiction | reflexivity ].
      * apply String.eqb_eq. exact Hn.
  - intros path blank rest Hne Hword Hblank. split.
    + apply scan_s_whole; assumption.
    + apply scan_s_first_word; assumption.
Qed.

Lemma enumerate_module_ranges_emits_witness :
  ModuleLookup.gum_module_enumerate_ranges sample_basename sample_process
    "libfoo.so" Procfs.GUM_PAGE_READ collect []
  = Ok [({| Procfs.base_address := 4096; Procfs.size := 4096 |}, 5);
        ({| Procfs.base_address := 8192; Procfs.size := 4096 |}, 3)].
Proof.
  exact (proj1 enumerate_module_ranges_emits _ sample_basename sample_process
           "libfoo.so"%string Procfs.GUM_PAGE_READ collect [] sample_maps
           eq_refl well_formed_sample_maps).
Defined.

(** X12. The ranges of a module are ranges of the process: for the same
    requested protection, what [gum_module_enumerate_ranges] reports is, in
    the same order, part of what [gum_process_enumerate_ranges] reports,
    with the same base addresses, sizes and protections. *)
Theorem module_ranges_among_process_ranges (basename : string -> string)
    (p : Procfs.process) (module_name : string) (prot : Z)
    (lines : list Procfs.maps_line) :
  Procfs.proc_self_maps p = Some lines ->
  Forall Procfs.well_formed lines ->
  exists of_module of_process,
    ModuleLookup.gum_module_enumerate_ranges basename p module_name prot
      collect [] = Ok of_module
    /\ Procfs.gum_process_enumerate_ranges p prot collect [] = Ok of_process
    /\ sublist of_module of_process.
Proof.
  intros Hmaps Hwf.
  unfold ModuleLookup.gum_module_enumerate_ranges,
    Procfs.gum_process_enumerate_ranges, Procfs.gum_linux_enumerate_ranges.
  unfold Procfs.proc_self_maps in Hmaps. unfold Procfs.proc_self_maps.
  rewrite Hmaps.
  rewrite (enumerate_module_ranges_loop_visit basename module_name prot
             collect lines [] Hwf).
  rewrite (enumerate_ranges_loop_visit prot collect lines [] Hwf).
  rewrite !visit_collect. cbn [app].
  eexists _, _. split; [ reflexivity | ]. split; [ reflexivity | ].
  apply filter_and_sublist.
Qed.

Lemma module_ranges_among_process_ranges_witness :
  exists of_module of_process,
    ModuleLookup.gum_module_enumerate_ranges sample_basename sample_process
      "libfoo.so" Procfs.GUM_PAGE_READ collect [] = Ok of_module
    /\ Procfs.gum_process_enumerate_ranges sample_process
         Procfs.GUM_PAGE_READ collect [] = Ok of_process
    /\ sublist of_module of_process.
Proof.
  exact (module_ranges_among_process_ranges sample_basename sample_process
           "libfoo.so"%string Procfs.GUM_PAGE_READ sample_maps eq_refl
           well_formed_sample_maps).
Defined.

(** ** Base address of one module *)

(** What a run of the module loop that returns hands to its visitor comes
    from the lines read. *)
Lemma enumerate_modules_loop_visits {U : Type} (basename : string -> string)
    (p : Procfs.process) (func : Procfs.GumFoundModuleFunc U)
    (lines : list Procfs.maps_line) :
  forall (prev_path : string) (user_data user_data' : U),
  Procfs.enumerate_modules_loop basename p func lines prev_path user_data
    = Ok user_data' ->
  exists records,
    user_data' = visit func records user_data
    /\ Forall (Procfs.from_line p basename lines) records.
Proof.
  induction lines as [| line lines IH];
    intros prev_path user_data user_data' Hrun.
  - cbn in Hrun. injection Hrun as <-. exists []. split; constructor.
  - assert (Hskip :
      Procfs.enumerate_modules_loop basename p func lines prev_path user_data
        = Ok user_data' ->
      exists records,
        user_data' = visit func records user_data
        /\ Forall (Procfs.from_line p basename (line :: lines)) records).
    { intros H. destruct (IH _ _ _ H) as (records & Hv & Hall).
      exists records. split; [ exact Hv | ].
      eapply Forall_impl; [ exact Hall | ]. intros r. apply from_line_cons. }
    rewrite enumerate_modules_loop_cons in Hrun.
    destruct line as [| start end_ perms pathname]; [ discriminate | ].
    destruct (Procfs.path_field pathname) as [path |] eqn:Hfield;
      [ | apply Hskip; exact Hrun ].
    destruct (String.eqb path prev_path); cbn [orb] in Hrun.
    { apply Hskip. exact Hrun. }
    destruct (Ascii.eqb_spec (Procfs.char_at path 0) "[") as [Hb | Hnb].
    { apply Hskip. exact Hrun. }
    destruct (Procfs.read_bytes p start 4) as [bytes |] eqn:Hread;
      [ | discriminate ].
    unfold Procfs.bytes_eqb in Hrun.
    destruct (bool_decide_reflect (bytes = Procfs.elf_magic))
      as [Hmagic | Hnm]; cbn [negb] in Hrun.
    2: { apply Hskip. exact Hrun. }
    subst bytes.
    assert (Hgood :
      Procfs.from_line p basename
        (Procfs.mapping start end_ perms pathname :: lines)
        (basename path, start, path)).
    { repeat split; try assumption.
      exists end_, perms, pathname.
      split; [ left; reflexivity | exact Hfield ]. }
    destruct (func (basename path, start, path) user_data)
      as [carry_on ud1] eqn:Hf.
    destruct carry_on.
    + destruct (IH _ _ _ Hrun) as (records & Hv & Hall).
      exists ((basename path, start, path) :: records). split.
      * cbn [visit]. rewrite Hf. exact Hv.
      * constructor; [ exact Hgood | ].
        eapply Forall_impl; [ exact Hall | ].
        intros r. apply from_line_cons.
    + injection Hrun as <-. exists [(basename path, start, path)]. split.
      * cbn [visit]. rewrite Hf. reflexivity.
      * constructor; [ exact Hgood | constructor ].
Qed.

(** Whatever a visitor is given, the module loop gives it what the
    collecting visitor receives. *)
Lemma enumerate_modules_loop_collect (basename : string -> string)
    (p : Procfs.process) (lines : list Procfs.maps_line) :
  forall (prev_path : string) (seen all : list Procfs.module_record),
  Procfs.enumerate_modules_loop basename p collect lines prev_path seen
    = Ok all ->
  exists records,
    all = seen ++ records
    /\ forall (U : Type) (func : Procfs.GumFoundModuleFunc U) (user_data : U),
         Procfs.enumerate_modules_loop basename p func lines prev_path
           user_data
         = Ok (visit func records user_data).
Proof.
  induction lines as [| line lines IH]; intros prev_path seen all Hrun.
  - cbn in Hrun. injection Hrun as <-. exists []. rewrite app_nil_r.
    split; reflexivity.
  - rewrite enumerate_modules_loop_cons in Hrun.
    destruct line as [| start end_ perms pathname]; [ discriminate | ].
    destruct (Procfs.path_field pathname) as [path |] eqn:Hfield.
    2: { destruct (IH _ _ _ Hrun) as (records & Hall & Hany).
         exists records. split; [ exact Hall | ].
         intros U func user_data.
         rewrite enumerate_modules_loop_cons, Hfield. apply Hany. }
    destruct (String.eqb path prev_path
              || Ascii.eqb (Procfs.char_at path 0) "[") eqn:Hskip.
    { destruct (IH _ _ _ Hrun) as (records & Hall & Hany).
      exists records. split; [ exact Hall | ].
      intros U func user_data.
      rewrite enumerate_modules_loop_cons, Hfield, Hskip. apply Hany. }
    destruct (Procfs.read_bytes p start 4) as [bytes |] eqn:Hread;
      [ | discriminate ].
    destruct (negb (Procfs.bytes_eqb bytes Procfs.elf_magic)) eqn:Hmagic.
    { destruct (IH _ _ _ Hrun) as (records & Hall & Hany).
      exists records. split; [ exact Hall | ].
      intros U func user_data.
      rewrite enumerate_modules_loop_cons, Hfield, Hskip, Hread, Hmagic.
      apply Hany. }
    unfold collect at 1 in Hrun.
    destruct (IH _ _ _ Hrun) as (records & Hall & Hany).
    exists ((basename path, start, path) :: records).
    rewrite Hall, <- app_assoc. split; [ reflexivity | ].
    intros U func user_data.
    rewrite enumerate_modules_loop_cons, Hfield, Hskip, Hread, Hmagic.
    cbn [visit].
    destruct (func _ user_data) as [carry_on ud1].
    destruct carry_on; [ apply Hany | reflexivity ].
Qed.

Lemma visit_store_base (module_name : string)
    (records : list Procfs.module_record) :
  Elf.base
    (visit Elf.gum_store_base_and_path_if_name_matches records
       {| Elf.module_name := module_name; Elf.base := 0; Elf.path := None |})
  = ModuleLookup.first_module module_name records.
Proof.
  unfold ModuleLookup.first_module.
  induction records as [| [[name address] path] records IH];
    [ reflexivity | ].
  cbn [visit Elf.gum_store_base_and_path_if_name_matches List.find fst snd
       Elf.module_name].
  destruct (String.eqb name module_name); [ reflexivity | exact IH ].
Qed.

Lemma first_module_found (module_name : string)
    (records : list Procfs.module_record) :
  ModuleLookup.first_module module_name records <> 0 ->
  exists path,
    In (module_name, ModuleLookup.first_module module_name records, path)
      records.
Proof.
  unfold ModuleLookup.first_module.
  destruct (List.find (A := string * Procfs.GumAddress * string) _ records)
    as [[[name address] path] |] eqn:Hfind;
    [ | intros H; contradiction H; reflexivity ].
  intros _. apply find_some in Hfind. destruct Hfind as [Hin Hname].
  cbn [fst snd] in *. apply String.eqb_eq in Hname. subst name.
  exists path. exact Hin.
Qed.

(** A base address other than 0 is the start of a mapping of a file called
    [module_name] that begins with the ELF magic. *)
Lemma find_base_address_line (basename : string -> string)
    (p : Procfs.process) (module_name : string)
    (lines : list Procfs.maps_line) (address : Procfs.GumAddress) :
  Procfs.proc_self_maps p = Some lines ->
  ModuleLookup.gum_module_find_base_address basename p module_name
    = Ok address ->
  address <> 0 ->
  exists end_ perms pathname path,
    In (Procfs.mapping address end_ perms pathname) lines
    /\ Procfs.path_field pathname = Some path
    /\ Procfs.char_at path 0 <> "["%char
    /\ basename path = module_name
    /\ Procfs.read_bytes p address 4 = Some Procfs.elf_magic.
Proof.
  intros Hmaps Hrun Hne.
  unfold ModuleLookup.gum_module_find_base_address,
    Procfs.gum_process_enumerate_modules in Hrun.
  rewrite Hmaps in Hrun.
  destruct (Procfs.enumerate_modules_loop _ _ _ _ _ _) as [ctx | |] eqn:Hloop;
    [ | discriminate | discriminate ].
  cbn [mbind result_bind] in Hrun. injection Hrun as <-.
  destruct (enumerate_modules_loop_visits _ _ _ _ _ _ _ Hloop)
    as (records & -> & Hall).
  rewrite visit_store_base in Hne |- *.
  destruct (first_module_found _ _ Hne) as (path & Hin).
  rewrite Forall_forall in Hall.
  destruct (Hall _ (proj2 (list_elem_of_In _ _) Hin))
    as (Hb & Hmagic & Hname & end_ & perms & pathname & Hline & Hfield).
  exists end_, perms, pathname, path. repeat split; try assumption.
  symmetry. exact Hname.
Qed.

Lemma line_of_module_field (basename : string -> string)
    (module_name : string) (start end_ : Procfs.GumAddress)
    (perms : string) (pathname : option string) (path : string) :
  Procfs.path_field pathname = Some path ->
  Procfs.char_at path 0 <> "["%char ->
  basename path = module_name ->
  ModuleLookup.line_of_module basename module_name
    (Procfs.mapping start end_ perms pathname) = true.
Proof.
  intros Hfield Hb Hname. cbn [ModuleLookup.line_of_module].
  rewrite Hfield, Hname, String.eqb_refl.
  destruct (Ascii.eqb_spec (Procfs.char_at path 0) "[");
    [ contradiction | reflexivity ].
Qed.

Lemma first_module_split (module_name : string)
    (pre post : list Procfs.module_record) (r : Procfs.module_record) :
  Forall (fun r' => fst (fst r') <> module_name) pre ->
  fst (fst r) = module_name ->
  ModuleLookup.first_module module_name (pre ++ r :: post) = snd (fst r).
Proof.
  intros Hpre Hr. unfold ModuleLookup.first_module.
  induction Hpre as [| r' pre Hne _ IH].
  - cbn. rewrite (proj2 (String.eqb_eq _ _) Hr). reflexivity.
  - cbn. rewrite (proj2 (String.eqb_neq _ _) Hne). exact IH.
Qed.

Lemma first_module_none (module_name : string)
    (records : list Procfs.module_record) :
  Forall (fun r' => fst (fst r') <> module_name) records ->
  ModuleLookup.first_module module_name records = 0.
Proof.
  intros Hall. unfold ModuleLookup.first_module.
  induction Hall as [| r' records Hne _ IH]; [ reflexivity | ].
  cbn. rewrite (proj2 (String.eqb_neq _ _) Hne). exact IH.
Qed.

(** X13. Let [records] be what [gum_process_enumerate_modules] hands, in
    order, to a visitor that never stops.  Then
    [gum_module_find_base_address] returns the base address of the first of
    them whose name is the module name, and 0 when none has that name. *)
Theorem find_base_address_first_match (basename : string -> string)
    (p : Procfs.process) (module_name : string)
    (records : list Procfs.module_record) :
  Procfs.gum_process_enumerate_modules basename p collect [] = Ok records ->
  ModuleLookup.gum_module_find_base_address basename p module_name
    = Ok (ModuleLookup.first_module module_name records)
  /\ (forall pre r post,
         records = pre ++ r :: post ->
         Forall (fun r' => fst (fst r') <> module_name) pre ->
         fst (fst r) = module_name ->
         ModuleLookup.first_module module_name records = snd (fst r))
  /\ (Forall (fun r' => fst (fst r') <> module_name) records ->
      ModuleLookup.first_module module_name records = 0).
Proof.
  intros Hrun. split; [ | split ].
  - unfold ModuleLookup.gum_module_find_base_address.
    unfold Procfs.gum_process_enumerate_modules in *.
    destruct (Procfs.proc_self_maps p) as [lines |]; [ | discriminate ].
    destruct (enumerate_modules_loop_collect _ _ _ _ _ _ Hrun)
      as (recs & Hall & Hany).
    cbn [app] in Hall. subst recs. rewrite Hany.
    cbn [mbind result_bind]. rewrite visit_store_base. reflexivity.
  - intros pre r post -> Hpre Hr. apply first_module_split; assumption.
  - apply first_module_none.
Qed.

Lemma sample_modules_collected :
  Procfs.gum_process_enumerate_modules sample_basename sample_process collect
    []
  = Ok [("libfoo.so"%string, 4096, "/lib/libfoo.so"%string);
        ("libbar.so"%string, 24576, "/lib/libbar.so"%string)].
Proof. vm_compute. reflexivity. Defined.

Lemma find_base_address_first_match_witness :
  ModuleLookup.gum_module_find_base_address sample_basename sample_process
    "libbar.so" = Ok 24576
  /\ ModuleLookup.gum_module_find_base_address sample_basename sample_process
       "libc.so.6" = Ok 0.
Proof.
  split.
  - exact (proj1 (find_base_address_first_match sample_basename
                    sample_process "libbar.so" _ sample_modules_collected)).
  - exact (proj1 (find_base_address_first_match sample_basename
                    sample_process "libc.so.6" _ sample_modules_collected)).
Defined.

(** X14. A result of [gum_module_find_base_address] other than 0 is the
    start of a line of the maps file whose path field, the first
    blank-delimited word after the inode column, does not begin with ['[']
    and has the module name as basename, and at which the four bytes
    7F 45 4C 46 are mapped.  When no line of the maps file has such a path
    field, the result is 0. *)
Theorem find_base_address_sound (basename : string -> string)
    (p : Procfs.process) (module_name : string)
    (lines : list Procfs.maps_line) (address : Procfs.GumAddress) :
  Procfs.proc_self_maps p = Some lines ->
  ModuleLookup.gum_module_find_base_address basename p module_name
    = Ok address ->
  (address <> 0 ->
   exists end_ perms pathname path,
     In (Procfs.mapping address end_ perms pathname) lines
     /\ Procfs.path_field pathname = Some path
     /\ Procfs.char_at path 0 <> "["%char
     /\ basename path = module_name
     /\ Procfs.read_bytes p address 4 = Some [127; 69; 76; 70])
  /\ ((forall start end_ perms pathname path,
          In (Procfs.mapping start end_ perms pathname) lines ->
          Procfs.path_field pathname = Some path ->
          basename path <> module_name) ->
      address = 0).
Proof.
  intros Hmaps Hrun. split.
  - intros Hne.
    exact (find_base_address_line basename p module_name lines address
             Hmaps Hrun Hne).
  - intros Hnone. destruct (Z.eq_dec address 0) as [| Hne]; [ assumption | ].
    destruct (find_base_address_line basename p module_name lines address
                Hmaps Hrun Hne)
      as (end_ & perms & pathname & path & Hin & Hfield & _ & Hname & _).
    contradiction (Hnone _ _ _ _ _ Hin Hfield Hname).
Qed.

Lemma sample_base_address :
  ModuleLookup.gum_module_find_base_address sample_basename sample_process
    "libfoo.so" = Ok 4096.
Proof. vm_compute. reflexivity. Defined.

Lemma deleted_base_address :
  ModuleLookup.gum_module_find_base_address sample_basename deleted_process
    "libfoo.so" = Ok 4096.
Proof. vm_compute. reflexivity. Defined.

Lemma find_base_address_sound_witness :
  exists end_ perms pathname path,
    In (Procfs.mapping 4096 end_ perms pathname) deleted_maps
    /\ Procfs.path_field pathname = Some path
    /\ Procfs.char_at path 0 <> "["%char
    /\ sample_basename path = "libfoo.so"%string
    /\ Procfs.read_bytes deleted_process 4096 4 = Some [127; 69; 76; 70].
Proof.
  apply (proj1 (find_base_address_sound sample_basename deleted_process
                  "libfoo.so" deleted_maps 4096 eq_refl
                  deleted_base_address)).
  discriminate.
Defined.

(** X15. A module that is not found has no exports: when
    [gum_module_find_base_address] gives 0 for a name,
    [gum_module_enumerate_exports] for that name, having read the maps
    file, opens no file of its own, maps nothing and calls its visitor not
    once, and [gum_module_find_export_by_name] gives 0 for every symbol. *)
Theorem missing_module_has_no_exports (basename : string -> string)
    (fuel : nat) (p : Procfs.process) (fs : Elf.filesystem)
    (module_name : string) :
  ModuleLookup.gum_module_find_base_address basename p module_name = Ok 0 ->
  (forall (U : Type) (func : Elf.GumFoundExportFunc U) (user_data : U),
      Elf.gum_module_enumerate_exports basename fuel p fs module_name
        (recording func) (user_data, [])
      = Ok ((user_data, []), []))
  /\ (forall symbol_name : string,
         Elf.gum_module_find_export_by_name basename fuel p fs module_name
           symbol_name = Ok 0).
Proof.
  unfold ModuleLookup.gum_module_find_base_address.
  intros Hrun. split.
  - intros U func user_data. unfold Elf.gum_module_enumerate_exports.
    destruct (Procfs.gum_process_enumerate_modules _ _ _ _) as [ctx | |];
      [ | discriminate | discriminate ].
    cbn [mbind result_bind] in *. injection Hrun as ->. reflexivity.
  - intros symbol_name.
    unfold Elf.gum_module_find_export_by_name,
      Elf.gum_module_enumerate_exports.
    destruct (Procfs.gum_process_enumerate_modules _ _ _ _) as [ctx | |];
      [ | discriminate | discriminate ].
    cbn [mbind result_bind] in *. injection Hrun as ->. reflexivity.
Qed.

Lemma sample_missing_module :
  ModuleLookup.gum_module_find_base_address sample_basename sample_process
    "libc.so.6" = Ok 0.
Proof. vm_compute. reflexivity. Defined.

Lemma missing_module_has_no_exports_witness :
  Elf.gum_module_enumerate_exports sample_basename 5 sample_process
    sample_filesystem "libc.so.6" (recording stop_at_once) (tt, [])
  = Ok ((tt, []), [])
  /\ Elf.gum_module_find_export_by_name sample_basename 5 sample_process
       sample_filesystem "libc.so.6" "malloc" = Ok 0.
Proof.
  split.
  - exact (proj1 (missing_module_has_no_exports sample_basename 5
                    sample_process sample_filesystem "libc.so.6"
                    sample_missing_module) unit stop_at_once tt).
  - exact (proj2 (missing_module_has_no_exports sample_basename 5
                    sample_process sample_filesystem "libc.so.6"
                    sample_missing_module) "malloc"%string).
Defined.

Lemma line_satisfies_no_access (line : Procfs.maps_line) :
  Procfs.line_satisfies Procfs.GUM_PAGE_NO_ACCESS line = true.
Proof.
  unfold Procfs.line_satisfies. destruct (Procfs.sscanf_start_end_perms line)
    as [[[n start] end_] perms].
  unfold Procfs.GUM_PAGE_NO_ACCESS. rewrite Z.land_0_r. reflexivity.
Qed.

(** X16. The base address [gum_module_find_base_address] finds for a module
    is the base address of one of the ranges
    [gum_module_enumerate_ranges] reports for that module when no
    protection is asked for. *)
Theorem base_address_starts_a_module_range (basename : string -> string)
    (p : Procfs.process) (module_name : string)
    (lines : list Procfs.maps_line) (address : Procfs.GumAddress) :
  Procfs.proc_self_maps p = Some lines ->
  Forall Procfs.well_formed lines ->
  ModuleLookup.gum_module_find_base_address basename p module_name
    = Ok address ->
  address <> 0 ->
  exists ranges range prot,
    ModuleLookup.gum_module_enumerate_ranges basename p module_name
      Procfs.GUM_PAGE_NO_ACCESS collect [] = Ok ranges
    /\ In (range, prot) ranges
    /\ Procfs.base_address range = address.
Proof.
  intros Hmaps Hwf Hrun Hne.
  destruct (find_base_address_line basename p module_name lines address
              Hmaps Hrun Hne)
    as (end_ & perms & pathname & path & Hin & Hfield & Hb & Hname & _).
  pose proof (line_of_module_field basename module_name address end_ perms
                pathname path Hfield Hb Hname) as Hof.
  unfold ModuleLookup.gum_module_enumerate_ranges. rewrite Hmaps.
  rewrite (enumerate_module_ranges_loop_visit basename module_name
             Procfs.GUM_PAGE_NO_ACCESS collect lines [] Hwf).
  rewrite visit_collect. cbn [app].
  eexists _, _, _. split; [ reflexivity | ]. split.
  - apply in_map_iff.
    exists (Procfs.mapping address end_ perms pathname). split.
    + unfold Procfs.range_of_line. cbn [Procfs.sscanf_start_end_perms].
      reflexivity.
    + apply filter_In. split; [ exact Hin | ].
      rewrite Hof, line_satisfies_no_access. reflexivity.
  - reflexivity.
Qed.

Lemma base_address_starts_a_module_range_witness :
  exists ranges range prot,
    ModuleLookup.gum_module_enumerate_ranges sample_basename sample_process
      "libfoo.so" Procfs.GUM_PAGE_NO_ACCESS collect [] = Ok ranges
    /\ In (range, prot) ranges
    /\ Procfs.base_address range = 4096.
Proof.
  apply (base_address_starts_a_module_range sample_basename sample_process
           "libfoo.so" sample_maps 4096 eq_refl well_formed_sample_maps
           sample_base_address).
  discriminate.
Defined.

(** ** Module enumeration: no module is left out *)

Lemma enumerate_modules_loop_complete (basename : string -> string)
    (p : Procfs.process) (lines : list Procfs.maps_line) :
  forall (prev_path : string) (seen all : list Procfs.module_record),
  Procfs.enumerate_modules_loop basename p collect lines prev_path seen
    = Ok all ->
  exists records,
    all = seen ++ records
    /\ forall start end_ perms pathname path,
         In (Procfs.mapping start end_ perms pathname) lines ->
         Procfs.path_field pathname = Some path ->
         Procfs.char_at path 0 <> "["%char ->
         Procfs.read_bytes p start 4 = Some Procfs.elf_magic ->
         path = prev_path
         \/ exists r, In r records /\ Procfs.record_path r = path.
Proof.
  induction lines as [| line lines IH]; intros prev_path seen all Hrun.
  - cbn in Hrun. injection Hrun as <-. exists []. rewrite app_nil_r.
    split; [ reflexivity | ]. intros start end_ perms pathname path [].
  - rewrite enumerate_modules_loop_cons in Hrun.
    destruct line as [| start0 end0 perms0 pathname0]; [ discriminate | ].
    destruct (Procfs.path_field pathname0) as [path0 |] eqn:Hfield0.
    2: { destruct (IH _ _ _ Hrun) as (records & Hall & Hrest).
         exists records. split; [ exact Hall | ].
         intros start end_ perms pathname path [Hhead | Htail] Hf Hb Hmagic.
         - injection Hhead as <- <- <- <-. congruence.
         - exact (Hrest _ _ _ _ _ Htail Hf Hb Hmagic). }
    destruct (String.eqb_spec path0 prev_path) as [Hprev | Hprev];
      cbn [orb] in Hrun.
    { destruct (IH _ _ _ Hrun) as (records & Hall & Hrest).
      exists records. split; [ exact Hall | ].
      intros start end_ perms pathname path [Hhead | Htail] Hf Hb Hmagic.
      - injection Hhead as <- <- <- <-. left. congruence.
      - exact (Hrest _ _ _ _ _ Htail Hf Hb Hmagic). }
    destruct (Ascii.eqb_spec (Procfs.char_at path0 0) "[") as [Hb0 | Hb0].
    { destruct (IH _ _ _ Hrun) as (records & Hall & Hrest).
      exists records. split; [ exact Hall | ].
      intros start end_ perms pathname path [Hhead | Htail] Hf Hb Hmagic.
      - injection Hhead as <- <- <- <-.
        assert (path = path0) as -> by congruence. contradiction.
      - exact (Hrest _ _ _ _ _ Htail Hf Hb Hmagic). }
    destruct (Procfs.read_bytes p start0 4) as [bytes |] eqn:Hread;
      [ | discriminate ].
    unfold Procfs.bytes_eqb in Hrun.
    destruct (bool_decide_reflect (bytes = Procfs.elf_magic))
      as [Hm0 | Hm0]; cbn [negb] in Hrun.
    2: { destruct (IH _ _ _ Hrun) as (records & Hall & Hrest).
         exists records. split; [ exact Hall | ].
         intros start end_ perms pathname path [Hhead | Htail] Hf Hb Hmagic.
         - injection Hhead as <- <- <- <-.
           rewrite Hread in Hmagic. injection Hmagic as ->.
           contradiction Hm0. reflexivity.
         - exact (Hrest _ _ _ _ _ Htail Hf Hb Hmagic). }
    unfold collect at 1 in Hrun.
    destruct (IH _ _ _ Hrun) as (records & Hall & Hrest).
    exists ((basename path0, start0, path0) :: records).
    rewrite Hall, <- app_assoc. split; [ reflexivity | ].
    intros start end_ perms pathname path [Hhead | Htail] Hf Hb Hmagic.
    + injection Hhead as <- <- <- <-. right.
      exists (basename path0, start0, path0).
      split; [ left; reflexivity | ].
      unfold Procfs.record_path. cbn [snd]. congruence.
    + right.
      destruct (Hrest _ _ _ _ _ Htail Hf Hb Hmagic) as [-> | (r & Hr & Hp)].
      * exists (basename path0, start0, path0).
        split; [ left; reflexivity | reflexivity ].
      * exists r. split; [ right; exact Hr | exact Hp ].
Qed.

(** X17. [gum_process_enumerate_modules] leaves no module out: for every
    line of the maps file whose path field (the first blank-delimited word
    after the inode column) does not begin with ['['] and at whose start
    the ELF magic is mapped, an enumeration that runs to the end hands its
    visitor a record with that path field as its path and the basename of
    it as its name. *)
Theorem enumerate_modules_complete (basename : string -> string)
    (p : Procfs.process) (lines : list Procfs.maps_line)
    (records : list Procfs.module_record)
    (start end_ : Procfs.GumAddress) (perms : string)
    (pathname : option string) (path : string) :
  Procfs.proc_self_maps p = Some lines ->
  Procfs.gum_process_enumerate_modules basename p collect [] = Ok records ->
  In (Procfs.mapping start end_ perms pathname) lines ->
  Procfs.path_field pathname = Some path ->
  Procfs.char_at path 0 <> "["%char ->
  Procfs.read_bytes p start 4 = Some [127; 69; 76; 70] ->
  exists address, In (basename path, address, path) records.
Proof.
  intros Hmaps Hrun Hin Hfield Hb Hmagic.
  unfold Procfs.gum_process_enumerate_modules in Hrun. rewrite Hmaps in Hrun.
  destruct (enumerate_modules_loop_complete basename p lines _ _ _ Hrun)
    as (recs & Hall & Hrest).
  cbn [app] in Hall. subst recs.
  destruct (Hrest _ _ _ _ _ Hin Hfield Hb Hmagic) as [Heq | (r & Hr & Hp)].
  { contradiction (path_field_not_empty pathname path Hfield Heq). }
  destruct (enumerate_modules_loop_visits basename p collect lines _ _ _ Hrun)
    as (items & Hv & Hitems).
  rewrite visit_collect in Hv. cbn [app] in Hv. subst items.
  rewrite Forall_forall in Hitems.
  specialize (Hitems r (proj2 (list_elem_of_In _ _) Hr)).
  destruct r as [[name address] path']. unfold Procfs.record_path in Hp.
  cbn [snd] in Hp. subst path'.
  destruct Hitems as (_ & _ & -> & _).
  exists address. exact Hr.
Qed.

Lemma deleted_modules_collected :
  Procfs.gum_process_enumerate_modules sample_basename deleted_process
    collect []
  = Ok [("libfoo.so"%string, 4096, "/lib/libfoo.so"%string)].
Proof. vm_compute. reflexivity. Defined.

Lemma enumerate_modules_complete_witness :
  exists address,
    In (sample_basename "/lib/libfoo.so", address, "/lib/libfoo.so"%string)
      [("libfoo.so"%string, 4096, "/lib/libfoo.so"%string)].
Proof.
  apply (enumerate_modules_complete sample_basename deleted_process
           deleted_maps _ 4096 8192 "r-xp"
           (Some "/lib/libfoo.so (deleted)"%string) "/lib/libfoo.so" eq_refl
           deleted_modules_collected).
  - cbn. tauto.
  - reflexivity.
  - discriminate.
  - reflexivity.
Defined.

(** ** ELF export resolver: the search for the dynamic symbol table *)

(** X18. A shared object none of whose section headers is of type
    [SHT_DYNSYM] (a file without section headers among them): the resolver
    opens and maps the file, calls the visitor not once, unmaps the file
    and closes the descriptor; these four are all the calls by which it
    takes or gives back a resource of its own. *)
Theorem no_dynsym_section_no_exports {U : Type} (basename : string -> string)
    (fuel : nat) (p : Procfs.process) (fs : Elf.filesystem) (name : string)
    (func : Elf.GumFoundExportFunc U) (user_data : U)
    (module_base : Procfs.GumAddress) (img : Elf.mapped_file) :
  Elf.locate basename p fs name = Some (module_base, img) ->
  Elf.e_type (Elf.ehdr img) = Elf.ET_DYN ->
  (forall i, 0 <= i < Elf.e_shnum (Elf.ehdr img) -> other_section img i) ->
  exists pathname fd len,
    Elf.gum_module_enumerate_exports basename fuel p fs name (recording func)
      (user_data, [])
    = Ok ((user_data, []),
          [Elf.sys_open pathname fd; Elf.sys_mmap fd len;
           Elf.sys_munmap len; Elf.sys_close fd]).
Proof.
  intros Hloc Hdyn Hothers.
  destruct (enumerate_exports_located basename fuel p fs name
              (recording func) (user_data, []) module_base img Hloc)
    as (pathname & fd & len & Hfd & ->).
  cbv zeta. rewrite Hdyn, Z.eqb_refl. cbn [negb].
  rewrite <- (app_nil_r (seqZ 0 _)).
  rewrite (find_dynsym_others img _ [] Elf.no_dynsym
             (others_before img _ Hothers)).
  cbn [Elf.find_dynsym mbind result_bind Elf.no_dynsym
       Elf.dynsym_section_offset].
  change (0 =? 0) with true. cbv iota.
  exists pathname, fd, len. unfold Elf.beach.
  cbn [Elf.base_address Elf.fd Elf.mapped_size app].
  destruct (Z.eqb_spec fd (-1)) as [| _]; [ contradiction | ].
  reflexivity.
Qed.

(** X19. A malformed dynamic symbol table ends the process before any
    symbol is read or any visitor called: a section header of type
    [SHT_DYNSYM] with [sh_entsize] 0 by the division of line 382, one whose
    [sh_size] is no multiple of [sh_entsize] by the assertion of that
    line. *)
Theorem malformed_dynsym_section_aborts {U : Type}
    (basename : string -> string) (fuel : nat) (p : Procfs.process)
    (fs : Elf.filesystem) (name : string) (func : Elf.GumFoundExportFunc U)
    (user_data : U) (module_base : Procfs.GumAddress)
    (img : Elf.mapped_file) (j : Z) (shdr strtab_shdr : Elf.GumElfSHeader) :
  Elf.locate basename p fs name = Some (module_base, img) ->
  Elf.e_type (Elf.ehdr img) = Elf.ET_DYN ->
  0 <= j < Elf.e_shnum (Elf.ehdr img) ->
  (forall i, 0 <= i < j -> other_section img i) ->
  section_header img j = Some shdr ->
  Elf.sh_type shdr = Elf.SHT_DYNSYM ->
  section_header img (Elf.sh_link shdr) = Some strtab_shdr ->
  (Elf.sh_entsize shdr = 0 ->
   Elf.gum_module_enumerate_exports basename fuel p fs name func user_data
   = Abort division_by_zero)
  /\ (Elf.sh_entsize shdr <> 0 ->
      Elf.sh_size shdr mod Elf.sh_entsize shdr <> 0 ->
      Elf.gum_module_enumerate_exports basename fuel p fs name func user_data
      = Abort assertion_failed).
Proof.
  intros Hloc Hdyn Hj Hothers Hread Htype Hlink.
  destruct (enumerate_exports_located basename fuel p fs name func user_data
              module_base img Hloc) as (pathname & fd & len & Hfd & ->).
  cbv zeta. rewrite Hdyn, Z.eqb_refl. cbn [negb].
  rewrite (section_indices _ j Hj).
  rewrite (find_dynsym_others img _ _ Elf.no_dynsym
             (others_before img _ Hothers)).
  cbn [Elf.find_dynsym]. unfold section_header in Hread, Hlink.
  rewrite Hread, Htype, Z.eqb_refl, Hlink.
  cbn [Elf.dynsym_entry_size Elf.dynsym_section_size].
  split.
  - intros ->. reflexivity.
  - intros Hne Hmod.
    destruct (Z.eqb_spec (Elf.sh_entsize shdr) 0) as [| _];
      [ contradiction | ].
    destruct (Z.eqb_spec (Elf.sh_size shdr mod Elf.sh_entsize shdr) 0)
      as [| _]; [ contradiction | ].
    reflexivity.
Qed.

Lemma stripped_sections (i : Z) :
  0 <= i < Elf.e_shnum (Elf.ehdr stripped_image) ->
  other_section stripped_image i.
Proof.
  cbn [Elf.e_shnum Elf.ehdr stripped_image]. intros Hi.
  assert (i = 0 \/ i = 1) as [-> | ->] by lia.
  - exists null_section. split; [ reflexivity | discriminate ].
  - exists strtab_section. split; [ reflexivity | discriminate ].
Defined.

Lemma no_dynsym_section_no_exports_witness :
  exists pathname fd len,
    Elf.gum_module_enumerate_exports sample_basename 5 sample_process
      (filesystem_of stripped_image) "libfoo.so" (recording collect) ([], [])
    = Ok (([], []),
          [Elf.sys_open pathname fd; Elf.sys_mmap fd len;
           Elf.sys_munmap len; Elf.sys_close fd]).
Proof.
  apply (no_dynsym_section_no_exports sample_basename 5 sample_process
           (filesystem_of stripped_image) "libfoo.so" collect [] 4096
           stripped_image).
  - vm_compute. reflexivity.
  - reflexivity.
  - exact stripped_sections.
Defined.

Lemma broken_sections (i : Z) : 0 <= i < 1 -> other_section broken_image i.
Proof.
  intros Hi. assert (i = 0) as -> by lia.
  exists null_section. split; [ reflexivity | discriminate ].
Defined.

Lemma malformed_dynsym_section_aborts_witness :
  Elf.gum_module_enumerate_exports sample_basename 5 sample_process
    (filesystem_of broken_image) "libfoo.so" collect []
  = Abort division_by_zero.
Proof.
  apply (proj1 (malformed_dynsym_section_aborts sample_basename 5
                  sample_process (filesystem_of broken_image) "libfoo.so"
                  collect [] 4096 broken_image 1 empty_entry_section
                  strtab_section ltac:(vm_compute; reflexivity) eq_refl
                  ltac:(cbn; lia) broken_sections eq_refl eq_refl eq_refl)).
  reflexivity.
Defined.

(** What [gum_store_base_and_path_if_name_matches] leaves in its context:
    nothing, or the address and the path of one record of that name. *)
Lemma visit_store_record (module_name : string)
    (records : list Procfs.module_record) :
  let ctx0 := {| Elf.module_name := module_name;
                 Elf.base := 0;
                 Elf.path := None |} in
  visit Elf.gum_store_base_and_path_if_name_matches records ctx0 = ctx0
  \/ exists address path,
       In (module_name, address, path) records
       /\ visit Elf.gum_store_base_and_path_if_name_matches records ctx0
          = {| Elf.module_name := module_name;
               Elf.base := address;
               Elf.path := Some path |}.
Proof.
  cbv zeta.
  induction records as [| [[name address] path] records IH];
    [ left; reflexivity | ].
  cbn [visit Elf.gum_store_base_and_path_if_name_matches Elf.module_name].
  destruct (String.eqb_spec name module_name) as [-> | _]; cbn [negb].
  - right. exists address, path. split; [ left; reflexivity | reflexivity ].
  - destruct IH as [IH | (a & q & Hin & IH)].
    + left. exact IH.
    + right. exists a, q. split; [ right; exact Hin | exact IH ].
Qed.

(** X20. Which file the resolver reads the exports from: whenever a run of
    [gum_module_enumerate_exports] that returns has opened or mapped a file
    of its own (the reading of the maps file apart), it began with the
    [open] of line 351, on the path field of a maps line that starts at the
    base address [gum_module_find_base_address] returns for the module.
    That path field is the first blank-delimited word after the inode
    column, its basename is the module name, and the ELF magic is mapped at
    that address. *)
Theorem exports_read_from_the_mapped_file {U : Type}
    (basename : string -> string) (fuel : nat) (p : Procfs.process)
    (fs : Elf.filesystem) (name : string) (func : Elf.GumFoundExportFunc U)
    (user_data user_data' : U) (trace : list Elf.syscall)
    (lines : list Procfs.maps_line) :
  Procfs.proc_self_maps p = Some lines ->
  Elf.gum_module_enumerate_exports basename fuel p fs name func user_data
    = Ok (user_data', trace) ->
  trace <> [] ->
  exists path fd rest address end_ perms pathname,
    trace = Elf.sys_open path fd :: rest
    /\ fd = Elf.open_rdonly fs path
    /\ ModuleLookup.gum_module_find_base_address basename p name = Ok address
    /\ In (Procfs.mapping address end_ perms pathname) lines
    /\ Procfs.path_field pathname = Some path
    /\ basename path = name
    /\ Procfs.read_bytes p address 4 = Some [127; 69; 76; 70].
Proof.
  intros Hmaps Hrun Hne.
  unfold Elf.gum_module_enumerate_exports in Hrun.
  unfold ModuleLookup.gum_module_find_base_address.
  unfold Procfs.gum_process_enumerate_modules in *. rewrite Hmaps in *.
  destruct (Procfs.enumerate_modules_loop _ _ _ _ _ _) as [ctx | |] eqn:Hloop;
    [ | discriminate | discriminate ].
  cbn [mbind result_bind] in *.
  destruct (enumerate_modules_loop_visits _ _ _ _ _ _ _ Hloop)
    as (records & Hctx & Hall).
  destruct (visit_store_record name records) as [H0 | (address & path & Hin & H1)].
  - rewrite H0 in Hctx. subst ctx. cbn [Elf.base] in Hrun.
    change (0 =? 0) with true in Hrun. cbv iota in Hrun.
    apply beach_trace in Hrun. destruct Hrun as [_ ->].
    contradiction Hne. reflexivity.
  - rewrite H1 in Hctx. subst ctx.
    cbn [Elf.base Elf.path default from_option] in Hrun.
    unfold id in Hrun.
    destruct (address =? 0).
    { apply beach_trace in Hrun. destruct Hrun as [_ ->].
      contradiction Hne. reflexivity. }
    rewrite Forall_forall in Hall.
    destruct (Hall _ (proj2 (list_elem_of_In _ _) Hin))
      as (_ & Hmagic & Hname & end_ & perms & pathname & Hline & Hfield).
    assert (Hstart : exists rest,
              trace = Elf.sys_open path (Elf.open_rdonly fs path) :: rest).
    { destruct (Elf.open_rdonly fs path =? -1).
      { apply beach_trace in Hrun. destruct Hrun as [_ ->].
        eexists. reflexivity. }
      destruct (Elf.mmap_private _) as [img |]; [ | discriminate ].
      destruct (negb (Elf.e_type (Elf.ehdr img) =? Elf.ET_DYN)).
      { apply beach_trace in Hrun. destruct Hrun as [_ ->].
        eexists. reflexivity. }
      destruct (Elf.find_dynsym _ _ _) as [d | |];
        [ | discriminate | discriminate ].
      cbn [mbind result_bind] in Hrun.
      destruct (Elf.dynsym_section_offset d =? 0).
      { apply beach_trace in Hrun. destruct Hrun as [_ ->].
        eexists. reflexivity. }
      destruct (Elf.enumerate_symbols _ _ _ _ _ _ _) as [ud | |];
        [ | discriminate | discriminate ].
      cbn [mbind result_bind] in Hrun.
      apply beach_trace in Hrun. destruct Hrun as [_ ->].
      eexists. reflexivity. }
    destruct Hstart as (rest & ->).
    exists path, (Elf.open_rdonly fs path), rest, address, end_, perms,
      pathname.
    repeat split; try assumption. symmetry. exact Hname.
Qed.

Lemma exports_read_from_the_mapped_file_witness :
  exists path fd rest address end_ perms pathname,
    [Elf.sys_open "/lib/libfoo.so" 3; Elf.sys_mmap 3 2048;
     Elf.sys_munmap 2048; Elf.sys_close 3]
    = Elf.sys_open path fd :: rest
    /\ fd = Elf.open_rdonly sample_filesystem path
    /\ ModuleLookup.gum_module_find_base_address sample_basename
         sample_process "libfoo.so" = Ok address
    /\ In (Procfs.mapping address end_ perms pathname) sample_maps
    /\ Procfs.path_field pathname = Some path
    /\ sample_basename path = "libfoo.so"%string
    /\ Procfs.read_bytes sample_process address 4 = Some [127; 69; 76; 70].
Proof.
  apply (exports_read_from_the_mapped_file sample_basename 5 sample_process
           sample_filesystem "libfoo.so" collect [] _ _ sample_maps eq_refl
           sample_exports_run).
  discriminate.
Defined.

(** ** Cross-thread rendezvous, interleaved *)

Import Rendezvous.

Section RendezvousFacts.

Context {U : Type}.
Abbreviation thread := (Rendezvous.thread U).
Abbreviation state := (Rendezvous.state U).

Lemma inv_initial (st : state) : initial st -> inv st.
Proof.
  intros [Hlock Hall]. unfold inv. rewrite Hlock. repeat split.
  - intros t Hpc. destruct (Hall t) as (H & _). contradiction.
  - intros t Hc. destruct (Hall t) as (H & _). rewrite H in Hc. discriminate.
  - destruct (Hall x) as (_ & _ & H). exact H.
  - destruct (Hall x) as (_ & H & _). left. exact H.
Qed.

Lemma phase_critical (st : state) (s : GumThreadId) :
  phase st s -> in_critical_section (pc (threads st s)) = true.
Proof.
  unfold phase.
  destruct (pc (threads st s)); intros H; try reflexivity; contradiction.
Qed.

Lemma live_not_dead (o : option (GumThreadId * handler_pc))
    (sender : GumThreadId) (h : handler_pc) :
  o = Some (sender, h) -> h <> h_return -> ~ dead o.
Proof.
  intros -> Hlive [Hd | [s Hd]]; [ discriminate | ].
  injection Hd as _ ->. contradiction.
Qed.

(** A handler that still has something to do runs on the target of the
    thread that holds the mutex, for the signal that thread sent. *)
Lemma live_handler (st : state) (t sender : GumThreadId) (h : handler_pc) :
  inv st -> handler (threads st t) = Some (sender, h) -> h <> h_return ->
  lock st = Some sender /\ thread_id (threads st sender) = t
  /\ phase st sender.
Proof.
  intros (_ & _ & Hph) Hh Hlive.
  pose proof (live_not_dead _ _ _ Hh Hlive) as Hnd.
  assert (Hnq : ~ quiet (threads st t)) by (intros [_ Hd]; exact (Hnd Hd)).
  destruct (lock st) as [s |]; [ | exfalso; apply Hnq, Hph ].
  assert (Ht : thread_id (threads st s) = t /\ sender = s).
  { unfold phase in Hph.
    destruct (Z.eq_dec t (thread_id (threads st s))) as [-> | Hne].
    - split; [ reflexivity | ].
      destruct (pc (threads st s)); try contradiction;
        repeat match goal with
        | H : _ /\ _ |- _ => destruct H
        | H : _ \/ _ |- _ => destruct H
        end;
        try (exfalso; apply Hnq; auto; fail);
        try (exfalso; apply Hnd; assumption);
        congruence.
    - exfalso. apply Hnq.
      destruct (pc (threads st s)); try contradiction;
        repeat match goal with
        | H : _ /\ _ |- _ => destruct H
        end; auto. }
  destruct Ht as [Ht ->]. repeat split; assumption.
Qed.

Lemma dead_None : dead None.
Proof. left. reflexivity. Qed.

Lemma dead_return (s : GumThreadId) : dead (Some (s, h_return)).
Proof. right. exists s. reflexivity. Qed.

(** The phase of the owner only looks at its own place and target, at the
    flags, and at the signals and handlers of the threads, up to the stage
    of a handler that has stored. *)
Lemma phase_ext (st st' : state) (s : GumThreadId) :
  pc (threads st' s) = pc (threads st s) ->
  thread_id (threads st' s) = thread_id (threads st s) ->
  did_load_cpu_context st' = did_load_cpu_context st ->
  did_modify_cpu_context st' = did_modify_cpu_context st ->
  did_store_cpu_context st' = did_store_cpu_context st ->
  (forall x, pending (threads st' x) = pending (threads st x)
             /\ (handler (threads st' x) = handler (threads st x)
                 \/ (dead (handler (threads st x))
                     /\ dead (handler (threads st' x))))) ->
  phase st s -> phase st' s.
Proof.
  intros Hpc Htid Hl Hm Hs Hsig. unfold phase.
  rewrite Hpc, Htid, Hl, Hm, Hs.
  assert (Hq : forall x, quiet (threads st x) -> quiet (threads st' x)).
  { intros x [Hp Hd]. destruct (Hsig x) as [Hp' Hh].
    split; [ congruence | ].
    destruct Hh as [Hh | [_ Hd']]; [ rewrite Hh; exact Hd | exact Hd' ]. }
  assert (Hd : forall x, dead (handler (threads st x)) ->
                         dead (handler (threads st' x))).
  { intros x Hd. destruct (Hsig x) as [_ [Hh | [_ Hd']]];
      [ rewrite Hh; exact Hd | exact Hd' ]. }
  assert (Hlive : forall x sender h,
            h <> h_return -> handler (threads st x) = Some (sender, h) ->
            handler (threads st' x) = Some (sender, h)).
  { intros x sender h Hne Hh. destruct (Hsig x) as [_ [Hh' | [Hd0 _]]];
      [ congruence | ].
    exfalso. exact (live_not_dead _ _ _ Hh Hne Hd0). }
  assert (Hp : forall x, pending (threads st' x) = pending (threads st x))
    by (intros x; apply Hsig).
  destruct (pc (threads st s)); try (intros []; fail);
    rewrite ?Hp; intuition auto.
  all: repeat match goal with
       | H : handler _ = Some (_, _) |- _ =>
           apply Hlive in H; [ | intro; discriminate ]
       end; intuition auto.
Qed.


Lemma owner_phase (st : state) (t : GumThreadId) :
  inv st -> in_critical_section (pc (threads st t)) = true ->
  lock st = Some t /\ phase st t.
Proof.
  intros (_ & H1 & Hph) Hc. pose proof (H1 t Hc) as Hl.
  rewrite Hl in Hph. split; assumption.
Qed.

(** A step that moves a thread outside the critical section and leaves the
    lock, the flags, the signals and the handlers alone. *)
Lemma inv_outside (st : state) (t : GumThreadId) (th' : thread) :
  inv st ->
  in_critical_section (pc (threads st t)) = false ->
  in_critical_section (pc th') = false ->
  (pc th' <> idle -> thread_id th' <> t) ->
  pending th' = pending (threads st t) ->
  handler th' = handler (threads st t) ->
  inv (set_thread t th' st).
Proof.
  intros Hinv Hc Hc' Htid Hp Hh. pose proof Hinv as (H0 & H1 & Hph).
  assert (Hsig : forall x,
            pending (threads (set_thread t th' st) x) = pending (threads st x)
            /\ (handler (threads (set_thread t th' st) x)
                = handler (threads st x)
                \/ (dead (handler (threads st x))
                    /\ dead (handler (threads (set_thread t th' st) x))))).
  { intros x. cbn. destruct (Z.eqb_spec x t) as [-> | _]; auto. }
  split; [ | split ].
  - intros x. cbn.
    destruct (Z.eqb_spec x t) as [-> | _]; [ exact Htid | apply H0 ].
  - intros x. cbn [threads set_thread lock].
    destruct (Z.eqb_spec x t) as [-> | _]; [ congruence | apply H1 ].
  - cbn [lock set_thread]. destruct (lock st) as [s |].
    + assert (Hs : s <> t).
      { intros ->. apply phase_critical in Hph. congruence. }
      apply (phase_ext st); try reflexivity; try exact Hsig; try exact Hph.
      all: cbn; destruct (Z.eqb_spec s t); [ contradiction | reflexivity ].
    + intros x. destruct (Hph x) as [Hq1 Hq2].
      destruct (Hsig x) as [Hp' Hh'].
      split; [ congruence | ]. destruct Hh' as [-> | [_ Hd]]; assumption.
Qed.

Lemma inv_owner (st' : state) (t : GumThreadId) :
  (forall x, pc (threads st' x) <> idle -> thread_id (threads st' x) <> x) ->
  (forall x, in_critical_section (pc (threads st' x)) = true -> x = t) ->
  lock st' = Some t -> phase st' t -> inv st'.
Proof.
  intros H0 H1 Hl Hp. split; [ exact H0 | split ].
  - intros x Hx. rewrite (H1 x Hx). exact Hl.
  - rewrite Hl. exact Hp.
Qed.

Ltac proj_simpl :=
  cbn [lock did_load_cpu_context did_modify_cpu_context
       did_store_cpu_context cpu_context action threads
       set_lock set_did_load set_did_modify set_did_store set_cpu_context
       set_action set_thread
       pc thread_id func user_data old_action success uc handler pending
       set_pc set_call set_user_data set_old_action set_success set_uc
       set_handler set_pending] in *.

(* look thread [x] up in the threads of a state in which [t] was replaced *)
Ltac at_thread x t :=
  proj_simpl;
  first [ rewrite Z.eqb_refl
        | let E := fresh "E" in
          destruct (Z.eqb_spec x t) as [E | E];
          [ first [ subst x | subst t ] | ] ];
  proj_simpl.

(* the first two parts of the invariant after a step of the owner [t] that
   keeps its target *)
Ltac frame_target Hinv t Hpc :=
  let x := fresh "x" in
  intros x; proj_simpl;
  destruct (Z.eqb_spec x t) as [-> | ?];
  [ proj_simpl; intros _; apply (proj1 Hinv); rewrite Hpc; discriminate
  | apply (proj1 Hinv) ].

Ltac frame_critical Hinv t Hl :=
  let x := fresh "x" in
  let Hx := fresh "Hx" in
  intros x; proj_simpl;
  destruct (Z.eqb_spec x t) as [-> | ?];
  [ reflexivity
  | intros Hx; pose proof (proj1 (proj2 Hinv) x Hx); congruence ].

Ltac owner_step Hinv t Hpc Hl :=
  apply (inv_owner _ t);
  [ frame_target Hinv t Hpc | frame_critical Hinv t Hl | | ].

(** A step that leaves the mutex and every thread's place and target
    alone. *)
Lemma inv_signal (st st' : state) :
  inv st ->
  lock st' = lock st ->
  (forall x, pc (threads st' x) = pc (threads st x)
             /\ thread_id (threads st' x) = thread_id (threads st x)) ->
  match lock st with
  | Some s => phase st' s
  | None => forall x, quiet (threads st' x)
  end ->
  inv st'.
Proof.
  intros (H0 & H1 & _) Hl Hsame Hph. split; [ | split ].
  - intros x. destruct (Hsame x) as [-> ->]. apply H0.
  - intros x. destruct (Hsame x) as [-> _]. rewrite Hl. apply H1.
  - rewrite Hl. exact Hph.
Qed.

(** A queued signal was sent by the thread that holds the mutex, which
    waits for [did_load]; it is the only one. *)
Lemma pending_signal (st : state) (t sender : GumThreadId)
    (rest : list GumThreadId) :
  inv st -> pending (threads st t) = sender :: rest ->
  lock st = Some sender /\ thread_id (threads st sender) = t
  /\ pc (threads st sender) = at_wait_load /\ rest = []
  /\ did_load_cpu_context st = false
  /\ did_modify_cpu_context st = false
  /\ did_store_cpu_context st = false
  /\ (forall x, x <> t -> quiet (threads st x)).
Proof.
  intros (_ & _ & Hph) Hp.
  assert (Hnq : ~ quiet (threads st t)) by (intros [Hq _]; congruence).
  destruct (lock st) as [s |]; [ | exfalso; apply Hnq, Hph ].
  unfold phase in Hph.
  destruct (Z.eq_dec t (thread_id (threads st s))) as [-> | Hne].
  - destruct (pc (threads st s)) eqn:Hpc; try contradiction;
      repeat match goal with
      | H : _ /\ _ |- _ => destruct H
      | H : _ \/ _ |- _ => destruct H
      end;
      try (exfalso; apply Hnq; auto; fail);
      try congruence.
    assert (sender = s /\ rest = []) as [-> ->] by (split; congruence).
    do 7 (split; [ first [ reflexivity | assumption ] | ]). exact H.
  - exfalso. apply Hnq.
    destruct (pc (threads st s)); try contradiction;
      repeat match goal with
      | H : _ /\ _ |- _ => destruct H
      end; auto.
Qed.

Ltac all_quiet Hq t :=
  let x := fresh "x" in
  intros x; at_thread x t; apply Hq.

Ltac others_quiet Hq t :=
  let x := fresh "x" in
  let Hx := fresh "Hx" in
  intros x Hx; at_thread x t; solve [ apply Hq; assumption
                                    | contradiction
                                    | congruence ].

(* the invariant after a step of the handler on thread [t], or of the
   kernel delivering to it: what is left is the phase of the owner *)
Ltac signal_step Hinv st t :=
  let x := fresh "x" in
  apply (inv_signal st);
  [ exact Hinv
  | reflexivity
  | intros x; proj_simpl;
    destruct (Z.eqb_spec x t) as [-> | ?]; split; reflexivity
  | ].

(* the phase of the owner [sender] after a step on its target [t] *)
Ltac target_phase Hl Hst Hpc Htgt :=
  rewrite Hl; unfold phase; proj_simpl;
  match type of Hst with
  | ?s <> ?t => destruct (Z.eqb_spec s t) as [| _]; [ contradiction | ]
  end;
  rewrite Hpc, Htgt, Z.eqb_refl; proj_simpl.

Lemma dead_stage (s : GumThreadId) (h : handler_pc) :
  dead (Some (s, h)) -> h = h_return.
Proof. intros [Hd | [s' Hd]]; [ discriminate | congruence ]. Qed.

Ltac live_facts Hp H t :=
  first
    [ solve [ exfalso;
              let Hd := fresh "Hd" in
              first [ destruct (Hp t) as [_ Hd]
                    | destruct Hp as [Hp _]; destruct (Hp t) as [_ Hd] ];
              rewrite H in Hd; apply dead_stage in Hd; discriminate ]
    | repeat match type of Hp with
             | _ /\ _ => let A := fresh "Hf" in destruct Hp as [A Hp]
             end;
      repeat match goal with
             | Hc : _ \/ _ |- _ => destruct Hc
             | Hc : _ /\ _ |- _ => destruct Hc
             end;
      try congruence;
      try (exfalso;
           match goal with
           | Hd : dead _ |- _ =>
               rewrite H in Hd; apply dead_stage in Hd; discriminate
           end) ].

(* close the phase of the owner after a step on its target [t] *)
Ltac close_phase t :=
  split;
  [ let x := fresh "x" in
    let Hx := fresh "Hx" in
    intros x Hx; destruct (Z.eqb_spec x t); [ contradiction | auto ]
  | intuition (auto using dead_return, dead_None) ].

(** Every step keeps the invariant. *)
Lemma inv_step (st : state) (l : label) (st' : state) :
  inv st -> step st l st' -> inv st'.
Proof.
  intros Hinv Hstep. pose proof Hinv as (H0 & H1 & Hph).
  destruct Hstep.
  - (* call *)
    apply inv_outside; try assumption; try reflexivity.
    + rewrite H. reflexivity.
    + intros _. cbn. assumption.
  - (* lock *)
    rewrite H3 in Hph.
    owner_step Hinv t H H3.
    + reflexivity.
    + unfold phase. at_thread t t. all_quiet Hph t.
  - (* clear load *)
    destruct (owner_phase st t Hinv) as [Hl Hp]; [ rewrite H; reflexivity | ].
    unfold phase in Hp. rewrite H in Hp.
    owner_step Hinv t H Hl; [ exact Hl | ].
    unfold phase. at_thread t t.
    split; [ all_quiet Hp t | reflexivity ].
  - (* clear modify *)
    destruct (owner_phase st t Hinv) as [Hl Hp]; [ rewrite H; reflexivity | ].
    unfold phase in Hp. rewrite H in Hp. destruct Hp as (Hq & Hdl).
    owner_step Hinv t H Hl; [ exact Hl | ].
    unfold phase. at_thread t t.
    split; [ all_quiet Hq t | split; [ exact Hdl | reflexivity ] ].
  - (* clear store *)
    destruct (owner_phase st t Hinv) as [Hl Hp]; [ rewrite H; reflexivity | ].
    unfold phase in Hp. rewrite H in Hp. destruct Hp as (Hq & Hdl & Hdm).
    owner_step Hinv t H Hl; [ exact Hl | ].
    unfold phase. at_thread t t.
    split; [ all_quiet Hq t | repeat split; assumption ].
  - (* sigaction *)
    destruct (owner_phase st t Hinv) as [Hl Hp]; [ rewrite H; reflexivity | ].
    unfold phase in Hp. rewrite H in Hp.
    destruct Hp as (Hq & Hdl & Hdm & Hds).
    owner_step Hinv t H Hl; [ exact Hl | ].
    unfold phase. at_thread t t.
    split; [ all_quiet Hq t | repeat split; assumption ].
  - (* tgkill: sent *)
    destruct (owner_phase st t Hinv) as [Hl Hp]; [ rewrite H; reflexivity | ].
    unfold phase in Hp. rewrite H in Hp.
    destruct Hp as (Hq & Hdl & Hdm & Hds).
    assert (Hne : thread_id (threads st t) <> t)
      by (apply H0; rewrite H; discriminate).
    subst target st1.
    apply (inv_owner _ t).
    + intros x. proj_simpl.
      destruct (Z.eqb_spec x (thread_id (threads st t))) as [-> | ?];
        proj_simpl.
      * destruct (Z.eqb_spec (thread_id (threads st t)) t);
          [ contradiction | apply H0 ].
      * destruct (Z.eqb_spec x t) as [-> | ?]; proj_simpl;
          [ intros _; exact Hne | apply H0 ].
    + intros x. proj_simpl.
      destruct (Z.eqb_spec x (thread_id (threads st t))) as [-> | ?];
        proj_simpl.
      * destruct (Z.eqb_spec (thread_id (threads st t)) t);
          [ contradiction | ].
        intros Hx. pose proof (H1 _ Hx). congruence.
      * destruct (Z.eqb_spec x t) as [-> | ?]; [ reflexivity | ].
        intros Hx. pose proof (H1 _ Hx). congruence.
    + exact Hl.
    + unfold phase. proj_simpl.
      destruct (Z.eqb_spec t (thread_id (threads st t))) as [E | _];
        [ symmetry in E; contradiction | ].
      rewrite Z.eqb_refl. proj_simpl. rewrite Z.eqb_refl. proj_simpl.
      destruct (Z.eqb_spec (thread_id (threads st t)) t) as [| _];
        [ contradiction | ].
      split; [ | split; [ exact Hdm | split; [ exact Hds | ] ] ].
      * intros x Hx.
        destruct (Z.eqb_spec x (thread_id (threads st t)));
          [ contradiction | ].
        destruct (Z.eqb_spec x t) as [-> | _]; apply Hq.
      * left. destruct (Hq (thread_id (threads st t))) as [Hpe Hde].
        rewrite Hpe. repeat split; assumption.
  - (* tgkill: failed *)
    destruct (owner_phase st t Hinv) as [Hl Hp]; [ rewrite H; reflexivity | ].
    unfold phase in Hp. rewrite H in Hp.
    destruct Hp as (Hq & Hdl & Hdm & Hds).
    owner_step Hinv t H Hl; [ exact Hl | ].
    unfold phase. at_thread t t. all_quiet Hq t.
  - (* wait for did_load *)
    destruct (owner_phase st t Hinv) as [Hl Hp]; [ rewrite H; reflexivity | ].
    unfold phase in Hp. rewrite H in Hp.
    destruct Hp as (Hq & Hdm & Hds & Hcases).
    assert (Hne : thread_id (threads st t) <> t)
      by (apply H0; rewrite H; discriminate).
    owner_step Hinv t H Hl; [ exact Hl | ].
    unfold phase. at_thread t t.
    destruct (Z.eqb_spec (thread_id (threads st t)) t) as [| _];
      [ contradiction | ].
    destruct Hcases as [(Hf & _) | [(Hf & _) | (_ & Hpe & Hh)]];
      try congruence.
    split; [ others_quiet Hq t | ]. repeat split; assumption.
  - (* visit *)
    destruct (owner_phase st t Hinv) as [Hl Hp]; [ rewrite H; reflexivity | ].
    unfold phase in Hp. rewrite H in Hp.
    destruct Hp as (Hq & Hdl & Hdm & Hds & Hpe & Hh).
    assert (Hne : thread_id (threads st t) <> t)
      by (apply H0; rewrite H; discriminate).
    subst th r.
    owner_step Hinv t H Hl; [ exact Hl | ].
    unfold phase. at_thread t t.
    destruct (Z.eqb_spec (thread_id (threads st t)) t) as [| _];
      [ contradiction | ].
    split; [ others_quiet Hq t | ]. repeat split; assumption.
  - (* set did_modify *)
    destruct (owner_phase st t Hinv) as [Hl Hp]; [ rewrite H; reflexivity | ].
    unfold phase in Hp. rewrite H in Hp.
    destruct Hp as (Hq & Hdl & Hdm & Hds & Hpe & Hh).
    assert (Hne : thread_id (threads st t) <> t)
      by (apply H0; rewrite H; discriminate).
    owner_step Hinv t H Hl; [ exact Hl | ].
    unfold phase. at_thread t t.
    destruct (Z.eqb_spec (thread_id (threads st t)) t) as [| _];
      [ contradiction | ].
    split; [ others_quiet Hq t | ].
    split; [ reflexivity | split; [ exact Hpe | ] ].
    left. split; [ exact Hds | left; exact Hh ].
  - (* wait for did_store *)
    destruct (owner_phase st t Hinv) as [Hl Hp]; [ rewrite H; reflexivity | ].
    unfold phase in Hp. rewrite H in Hp.
    destruct Hp as (Hq & Hdm & Hpe & Hcases).
    assert (Hne : thread_id (threads st t) <> t)
      by (apply H0; rewrite H; discriminate).
    owner_step Hinv t H Hl; [ exact Hl | ].
    unfold phase. at_thread t t.
    destruct Hcases as [(Hf & _) | (_ & Hd)]; [ congruence | ].
    intros x. at_thread x t.
    + apply Hq. congruence.
    + destruct (Z.eq_dec x (thread_id (threads st t))) as [-> | Hx];
        [ split; assumption | apply Hq; exact Hx ].
  - (* restore the signal action *)
    destruct (owner_phase st t Hinv) as [Hl Hp]; [ rewrite H; reflexivity | ].
    unfold phase in Hp. rewrite H in Hp.
    owner_step Hinv t H Hl; [ exact Hl | ].
    unfold phase. at_thread t t. all_quiet Hp t.
  - (* unlock *)
    destruct (owner_phase st t Hinv) as [Hl Hp]; [ rewrite H; reflexivity | ].
    unfold phase in Hp. rewrite H in Hp.
    split; [ | split ].
    + frame_target Hinv t H.
    + intros x. proj_simpl. destruct (Z.eqb_spec x t) as [-> | ?];
        [ discriminate | ].
      intros Hx. pose proof (H1 x Hx). congruence.
    + proj_simpl. all_quiet Hp t.
  - (* return *)
    apply inv_outside; try assumption; try reflexivity.
    + rewrite H. reflexivity.
    + intros Hf. exfalso. apply Hf. reflexivity.
  - (* delivery *)
    destruct (pending_signal st t sender rest Hinv H)
      as (Hl & Htgt & Hpc & -> & Hdl & Hdm & Hds & Hq).
    assert (Hst : sender <> t).
    { intros ->. apply (H0 t); [ rewrite Hpc; discriminate | exact Htgt ]. }
    signal_step Hinv st t. target_phase Hl Hst Hpc Htgt. close_phase t.
  - (* handler: publish the context *)
    destruct (live_handler st t sender h_load Hinv H ltac:(discriminate))
      as (Hl & Htgt & Hp).
    assert (Hst : sender <> t).
    { intros ->. apply (H0 t); [ | exact Htgt ].
      apply phase_critical in Hp. intros E. rewrite E in Hp. discriminate. }
    unfold phase in Hp. rewrite Htgt in Hp.
    destruct (pc (threads st sender)) eqn:Hpc; try contradiction;
      live_facts Hp H t.
    signal_step Hinv st t. target_phase Hl Hst Hpc Htgt. close_phase t.
  - (* handler: set did_load *)
    destruct (live_handler st t sender h_set_load Hinv H ltac:(discriminate))
      as (Hl & Htgt & Hp).
    assert (Hst : sender <> t).
    { intros ->. apply (H0 t); [ | exact Htgt ].
      apply phase_critical in Hp. intros E. rewrite E in Hp. discriminate. }
    unfold phase in Hp. rewrite Htgt in Hp.
    destruct (pc (threads st sender)) eqn:Hpc; try contradiction;
      live_facts Hp H t.
    signal_step Hinv st t. target_phase Hl Hst Hpc Htgt. close_phase t.
  - (* handler: leave the busy-wait *)
    destruct (live_handler st t sender h_wait_modify Hinv H
                ltac:(discriminate)) as (Hl & Htgt & Hp).
    assert (Hst : sender <> t).
    { intros ->. apply (H0 t); [ | exact Htgt ].
      apply phase_critical in Hp. intros E. rewrite E in Hp. discriminate. }
    unfold phase in Hp. rewrite Htgt in Hp.
    destruct (pc (threads st sender)) eqn:Hpc; try contradiction;
      live_facts Hp H t.
    signal_step Hinv st t. target_phase Hl Hst Hpc Htgt. close_phase t.
  - (* handler: store the context *)
    destruct (live_handler st t sender h_store Hinv H ltac:(discriminate))
      as (Hl & Htgt & Hp).
    assert (Hst : sender <> t).
    { intros ->. apply (H0 t); [ | exact Htgt ].
      apply phase_critical in Hp. intros E. rewrite E in Hp. discriminate. }
    unfold phase in Hp. rewrite Htgt in Hp.
    destruct (pc (threads st sender)) eqn:Hpc; try contradiction;
      live_facts Hp H t.
    signal_step Hinv st t. target_phase Hl Hst Hpc Htgt. close_phase t.
  - (* handler: set did_store *)
    destruct (live_handler st t sender h_set_store Hinv H
                ltac:(discriminate)) as (Hl & Htgt & Hp).
    assert (Hst : sender <> t).
    { intros ->. apply (H0 t); [ | exact Htgt ].
      apply phase_critical in Hp. intros E. rewrite E in Hp. discriminate. }
    unfold phase in Hp. rewrite Htgt in Hp.
    destruct (pc (threads st sender)) eqn:Hpc; try contradiction;
      live_facts Hp H t.
    signal_step Hinv st t. target_phase Hl Hst Hpc Htgt. close_phase t.
  - (* handler: return *)
    assert (Hsig : forall x,
      pending (threads (set_thread t (set_handler None (threads st t)) st) x)
      = pending (threads st x)
      /\ (handler
            (threads (set_thread t (set_handler None (threads st t)) st) x)
          = handler (threads st x)
          \/ (dead (handler (threads st x))
              /\ dead (handler
                         (threads
                            (set_thread t (set_handler None (threads st t))
                               st) x))))).
    { intros x. proj_simpl. destruct (Z.eqb_spec x t) as [-> | _];
        [ | auto ].
      proj_simpl. split; [ reflexivity | ]. right. rewrite H.
      split; [ apply dead_return | apply dead_None ]. }
    signal_step Hinv st t.
    destruct (lock st) as [s |].
    + apply (phase_ext st); try reflexivity; try exact Hsig; try exact Hph.
      all: proj_simpl; destruct (Z.eqb_spec s t) as [-> | _]; reflexivity.
    + intros x. destruct (Hph x) as [Hq1 Hq2].
      destruct (Hsig x) as [Hp' Hh'].
      split; [ congruence | ].
      destruct Hh' as [-> | [_ Hd]]; assumption.
Qed.

(** The invariant holds in every reachable state. *)
Lemma reachable_inv (st : state) : reachable st -> inv st.
Proof.
  induction 1 as [st Hinit | st l st' _ IH Hstep].
  - apply inv_initial. exact Hinit.
  - exact (inv_step st l st' IH Hstep).
Qed.

(** C3. In every state the threads can reach from the initial one, at most
    one thread is between [G_LOCK] and [G_UNLOCK] of the cross-thread
    branch; and every step that writes one of the three flags or the shared
    context buffer is taken by that thread, or by the handler that serves
    the signal that thread sent, while that thread holds the mutex.  So the
    writes of two rendezvous never interleave. *)
Theorem rendezvous_serialised (st : state) :
  reachable st ->
  (forall t1 t2, in_rendezvous st t1 -> in_rendezvous st t2 -> t1 = t2)
  /\ (forall l st' loc,
        step st l st' -> written l = Some loc ->
        in_rendezvous st (on_behalf_of l)
        /\ lock st = Some (on_behalf_of l)).
Proof.
  intros Hreach. pose proof (reachable_inv st Hreach) as Hinv.
  pose proof Hinv as (H0 & H1 & Hph). split.
  - intros t1 t2 Ht1 Ht2. pose proof (H1 t1 Ht1). pose proof (H1 t2 Ht2).
    congruence.
  - intros l st' loc Hstep Hw.
    assert (Hin : in_rendezvous st (on_behalf_of l)).
    { destruct Hstep; cbn in Hw; try discriminate;
        unfold in_rendezvous; cbn; try (rewrite H; reflexivity).
      all: match goal with
           | Hh : handler (threads _ ?t) = Some (?s, ?h) |- _ =>
               destruct (live_handler _ t s h Hinv Hh ltac:(discriminate))
                 as (_ & _ & Hp); exact (phase_critical _ _ Hp)
           end. }
    split; [ exact Hin | exact (H1 _ Hin) ].
Qed.

End RendezvousFacts.

Lemma run_0_initial : initial run_0.
Proof. split; [ reflexivity | ]. intros t. repeat split. Defined.

Lemma run_7_reachable : reachable run_7.
Proof.
  pose proof (reachable_initial run_0 run_0_initial) as R0.
  pose proof (reachable_step _ _ _ R0
                (step_call run_0 1 2 write_rax tt eq_refl eq_refl
                   ltac:(discriminate))) as R1.
  pose proof (reachable_step _ _ _ R1
                (step_lock run_1 1 eq_refl eq_refl eq_refl)) as R2.
  pose proof (reachable_step _ _ _ R2
                (step_clear_load run_2 1 eq_refl eq_refl)) as R3.
  pose proof (reachable_step _ _ _ R3
                (step_clear_modify run_3 1 eq_refl eq_refl)) as R4.
  pose proof (reachable_step _ _ _ R4
                (step_clear_store run_4 1 eq_refl eq_refl)) as R5.
  pose proof (reachable_step _ _ _ R5
                (step_sigaction run_5 1 eq_refl eq_refl)) as R6.
  exact (reachable_step _ _ _ R6
           (step_tgkill_sent run_6 1 eq_refl eq_refl)).
Defined.

Lemma rendezvous_serialised_witness :
  (forall t1 t2,
      in_rendezvous run_7 t1 -> in_rendezvous run_7 t2 -> t1 = t2)
  /\ (forall l st' loc,
        step run_7 l st' -> written l = Some loc ->
        in_rendezvous run_7 (on_behalf_of l)
        /\ lock run_7 = Some (on_behalf_of l)).
Proof. exact (rendezvous_serialised run_7 run_7_reachable). Defined.

(** The protocol runs to its end: from [run_7] the signal is delivered, the
    handler and the requester take their turns, and the call returns
    success with the target's machine context holding what the visitor
    wrote, the mutex free and the signal action as it was. *)
(* bring the state of a reachability proof to the form of a record *)
Ltac tidy R :=
  cbv beta iota zeta
      delta [set_thread set_lock set_did_load set_did_modify set_did_store
             set_cpu_context set_action set_pc set_call set_user_data
             set_old_action set_success set_uc set_handler set_pending
             lock did_load_cpu_context did_modify_cpu_context
             did_store_cpu_context cpu_context action threads
             pc thread_id func user_data old_action success uc handler
             pending sample_thread Z.eqb Pos.eqb app fst snd] in R.

(* extend a reachability proof by the step [mk] builds from its state *)
Ltac advance R mk :=
  match type of R with
  | reachable ?s =>
      let R' := fresh "R" in
      let stp := mk s in
      pose proof (reachable_step _ _ _ R stp) as R';
      clear R; rename R' into R; tidy R
  end.

Lemma rendezvous_completes :
  exists st : Rendezvous.state unit,
    reachable st
    /\ pc (threads st 1) = idle
    /\ success (threads st 1) = true
    /\ handler (threads st 2) = None
    /\ uc (threads st 2)
       = X86_64.gum_cpu_context_to_linux
           (set_rax 42 (X86_64.gum_cpu_context_from_linux sample_ucontext_64))
           sample_ucontext_64
    /\ lock st = None
    /\ action st = action run_0.
Proof.
  pose proof run_7_reachable as R.
  unfold run_7, run_6, run_5, run_4, run_3, run_2, run_1, run_0 in R.
  tidy R.
  advance R
    ltac:(fun s => constr:(step_deliver s 2 1 [] eq_refl eq_refl eq_refl)).
  advance R ltac:(fun s => constr:(step_h_load s 2 1 eq_refl)).
  advance R ltac:(fun s => constr:(step_h_set_load s 2 1 eq_refl)).
  advance R
    ltac:(fun s => constr:(step_wait_load s 1 eq_refl eq_refl eq_refl)).
  advance R ltac:(fun s => constr:(step_visit s 1 eq_refl eq_refl)).
  advance R ltac:(fun s => constr:(step_set_modify s 1 eq_refl eq_refl)).
  advance R
    ltac:(fun s => constr:(step_h_wait_modify s 2 1 eq_refl eq_refl)).
  advance R ltac:(fun s => constr:(step_h_store s 2 1 eq_refl)).
  advance R ltac:(fun s => constr:(step_h_set_store s 2 1 eq_refl)).
  advance R ltac:(fun s => constr:(step_h_return s 2 1 eq_refl)).
  advance R
    ltac:(fun s => constr:(step_wait_store s 1 eq_refl eq_refl eq_refl)).
  advance R ltac:(fun s => constr:(step_restore s 1 eq_refl eq_refl)).
  advance R ltac:(fun s => constr:(step_unlock s 1 eq_refl eq_refl)).
  advance R ltac:(fun s => constr:(step_return s 1 eq_refl eq_refl)).
  eexists. split; [ exact R | ].
  repeat split.
Qed.

(** ** Cross-thread rendezvous: the handshake *)

Section HandshakeFacts.

Context {U : Type}.
Abbreviation thread := (Rendezvous.thread U).
Abbreviation state := (Rendezvous.state U).

(* read the fields of a state, and of its threads, through the stores of a
   step *)
Ltac fields :=
  cbn [lock did_load_cpu_context did_modify_cpu_context
       did_store_cpu_context cpu_context action threads
       set_lock set_did_load set_did_modify set_did_store set_cpu_context
       set_action set_thread
       pc thread_id func user_data old_action success uc handler pending
       set_pc set_call set_user_data set_old_action set_success set_uc
       set_handler set_pending] in *.

(* decide every comparison of thread ids in sight *)
Ltac compare_ids :=
  repeat match goal with
         | |- context [Z.eqb ?a ?b] =>
             destruct (Z.eqb_spec a b); try subst; fields
         | H : context [Z.eqb ?a ?b] |- _ =>
             destruct (Z.eqb_spec a b); try subst; fields
         end.

(** The thread that takes a step of the critical section holds the mutex. *)
Lemma holder (st : state) (s t : GumThreadId) :
  inv st -> lock st = Some s ->
  in_critical_section (pc (threads st t)) = true -> t = s.
Proof.
  intros (_ & H1 & _) Hl Hc. specialize (H1 t Hc). congruence.
Qed.

Lemma handler_installed_initial (st : state) :
  initial st -> Handshake.handler_installed st.
Proof. intros [Hl _] s Hs. congruence. Qed.

Lemma handler_installed_step (st : state) (l : label) (st' : state) :
  inv st -> Handshake.handler_installed st -> step st l st' ->
  Handshake.handler_installed st'.
Proof.
  intros Hinv Ha Hstep. destruct Hstep; intros s Hl Hsig; fields.
  all: try match goal with
           | Hpc : pc (threads ?st0 ?t) = _ |- _ =>
               assert (Hs : t = s)
                 by (apply (holder st0 s t Hinv Hl); rewrite Hpc;
                     reflexivity);
               subst t
           end.
  all: compare_ids.
  all: try discriminate.
  all: try reflexivity.
  all: try (apply (Ha s Hl); first [ assumption | rewrite H; reflexivity ]).
  all: try congruence.
  all: try (eapply Ha; eassumption).
Qed.

Lemma buffer_loaded_initial (st : state) :
  initial st -> Handshake.buffer_loaded st.
Proof. intros [Hl _] s Hs. congruence. Qed.

(** Where the holder of the mutex is while the handler on its target is at
    one of the two stages after the load. *)
Lemma stage_pc (st : state) (s : GumThreadId) (h : handler_pc) :
  inv st -> lock st = Some s ->
  handler (threads st (thread_id (threads st s))) = Some (s, h) ->
  (h = h_set_load -> pc (threads st s) = at_wait_load)
  /\ (h = h_wait_modify ->
      pc (threads st s) = at_wait_load \/ pc (threads st s) = at_visit
      \/ pc (threads st s) = at_set_modify
      \/ (pc (threads st s) = at_wait_store
          /\ did_store_cpu_context st = false)).
Proof.
  intros (_ & _ & Hph) Hl Hh. rewrite Hl in Hph. unfold phase in Hph.
  assert (Hq : quiet (threads st (thread_id (threads st s))) ->
               h = h_return).
  { intros [_ Hd]. rewrite Hh in Hd. exact (dead_stage _ _ Hd). }
  destruct (pc (threads st s)); try contradiction;
    repeat match goal with
           | H : _ /\ _ |- _ => destruct H
           | H : _ \/ _ |- _ => destruct H
           end;
    try (assert (h = h_return) as -> by auto; split; discriminate);
    try match goal with
        | Hd : dead _ |- _ =>
            rewrite Hh in Hd; apply dead_stage in Hd; subst h;
            split; discriminate
        end;
    try (assert (h = h_load) by congruence; subst h; split; discriminate);
    try (assert (h = h_set_load) by congruence; subst h);
    try (assert (h = h_wait_modify) by congruence; subst h);
    try (assert (h = h_store) by congruence; subst h);
    try (assert (h = h_set_store) by congruence; subst h);
    split; intros; try discriminate; auto.
Qed.

Lemma holder_target (st : state) (s : GumThreadId) :
  inv st -> lock st = Some s -> thread_id (threads st s) <> s.
Proof.
  intros Hinv Hl. apply (proj1 Hinv). intros Hidle.
  destruct Hinv as (_ & _ & Hph). rewrite Hl in Hph.
  apply phase_critical in Hph. rewrite Hidle in Hph. discriminate.
Qed.

Lemma holder_critical (st : state) (s : GumThreadId) :
  inv st -> lock st = Some s ->
  in_critical_section (pc (threads st s)) = true.
Proof.
  intros (_ & _ & Hph) Hl. rewrite Hl in Hph. exact (phase_critical _ _ Hph).
Qed.

(* what is known of the holder [s] of the mutex and of the thread that takes
   the step: the thread is the holder when it is in the critical section,
   and another thread when it is not *)
Ltac holder_facts Hinv Hl s :=
  match type of Hl with
  | lock ?st0 = Some s =>
      pose proof (holder_target st0 s Hinv Hl) as Htgt;
      pose proof (holder_critical st0 s Hinv Hl) as Hcrit;
      try match goal with
          | Hpc : pc (threads st0 ?t) = ?v |- _ =>
              first
                [ assert (t = s)
                    by (apply (holder st0 s t Hinv Hl); rewrite Hpc;
                        reflexivity);
                  subst t
                | assert (t <> s)
                    by (intros ->; rewrite Hpc in Hcrit; discriminate) ]
          end
  end.

(* the handler on the target is at a stage that the place of the holder
   rules out *)
Ltac wrong_stage Hinv Hl :=
  match goal with
  | Hx : handler (threads ?st0 (thread_id (threads ?st0 ?s0))) = Some (?s0, ?h)
    |- _ =>
      let Hp1 := fresh "Hp" in
      let Hp2 := fresh "Hp" in
      destruct (stage_pc st0 s0 h Hinv Hl Hx) as [Hp1 Hp2];
      try (specialize (Hp1 eq_refl)); try (specialize (Hp2 eq_refl));
      first [ congruence
            | destruct Hp2 as [Hp2 | [Hp2 | [Hp2 | [Hp2 ?]]]]; congruence ]
  end.

(* with the mutex free no handler is at work *)
Ltac nobody_at_work Hinv :=
  match goal with
  | Hn : lock ?st0 = None, Hx : handler (threads ?st0 ?x) = Some (_, _) |- _ =>
      exfalso;
      let Hph := fresh "Hph" in
      let Hd := fresh "Hd" in
      pose proof (proj2 (proj2 Hinv)) as Hph; rewrite Hn in Hph;
      destruct (Hph x) as [_ Hd]; rewrite Hx in Hd;
      apply dead_stage in Hd; discriminate
  end.

(* a handler that is at work runs on the target of the holder *)
Ltac at_work_elsewhere Hinv :=
  match goal with
  | Hx : handler (threads ?st0 ?x) = Some (?sd, ?h) |- _ =>
      let Hl' := fresh "Hl" in
      let Ht' := fresh "Ht" in
      assert (h <> h_return) as Hlive by discriminate;
      destruct (live_handler st0 x sd h Hinv Hx Hlive) as (Hl' & Ht' & _);
      congruence
  end.

Lemma buffer_loaded_step (st : state) (l : label) (st' : state) :
  inv st -> Handshake.buffer_loaded st -> step st l st' ->
  Handshake.buffer_loaded st'.
Proof.
  intros Hinv Hb Hstep.
  destruct Hstep; intros s Hl; cbv zeta; intros Hh;
    repeat match goal with x := _ |- _ => subst x end; fields.
  all: try discriminate Hl.
  all: try holder_facts Hinv Hl s.
  all: compare_ids.
  all: try contradiction.
  all: try (destruct Hh as [Hh | [Hh [Hpc' | Hpc']]]; try discriminate).
  all: try reflexivity.
  all: try (eapply Hb; eauto; fail).
  all: try (apply (Hb _ Hl); left; congruence).
  all: try (wrong_stage Hinv Hl; fail).
  all: try (nobody_at_work Hinv; fail).
  all: try (at_work_elsewhere Hinv; fail).
Qed.


Lemma reachable_handshake (st : state) :
  reachable st ->
  inv st /\ Handshake.handler_installed st /\ Handshake.buffer_loaded st.
Proof.
  induction 1 as [st Hinit | st l st' _ (Hinv & Ha & Hb) Hstep].
  - split; [ | split ].
    + apply inv_initial. exact Hinit.
    + apply handler_installed_initial. exact Hinit.
    + apply buffer_loaded_initial. exact Hinit.
  - split; [ | split ].
    + exact (inv_step st l st' Hinv Hstep).
    + exact (handler_installed_step st l st' Hinv Ha Hstep).
    + exact (buffer_loaded_step st l st' Hinv Hb Hstep).
Qed.

(** X21. A hijack signal never meets another action than the broker's: in
    every state the threads can reach, while a hijack signal is queued for
    a thread, the action installed for the signal is the one
    [gum_process_modify_thread] installs ([gum_do_modify_thread] with
    [SA_SIGINFO]); the signal was sent by the thread that holds the mutex,
    to the thread that call names, and no second signal is queued behind
    it. *)
Theorem hijack_signal_finds_handler (st : state) (t sender : GumThreadId)
    (rest : list GumThreadId) :
  reachable st ->
  pending (threads st t) = sender :: rest ->
  action st = Broker.gum_hijack_action
  /\ lock st = Some sender
  /\ thread_id (threads st sender) = t
  /\ rest = [].
Proof.
  intros Hreach Hp.
  destruct (reachable_handshake st Hreach) as (Hinv & Ha & _).
  destruct (pending_signal st t sender rest Hinv Hp)
    as (Hl & Ht & Hpc & Hrest & _).
  repeat split; try assumption.
  apply (Ha sender Hl). rewrite Hpc. reflexivity.
Qed.

(** X22. The visitor of a cross-thread call is given the context of the
    thread the call names: in every reachable state in which a thread is
    about to call its visitor on the shared buffer (line 146), the buffer
    holds the CpuContext converted from the machine context of the target
    of that call, a thread other than the caller, which is in the handler
    and waits for [did_modify]. *)
Theorem visitor_sees_target_context (st : state) (s : GumThreadId) :
  reachable st ->
  pc (threads st s) = at_visit ->
  thread_id (threads st s) <> s
  /\ handler (threads st (thread_id (threads st s)))
     = Some (s, h_wait_modify)
  /\ cpu_context st
     = X86_64.gum_cpu_context_from_linux
         (uc (threads st (thread_id (threads st s)))).
Proof.
  intros Hreach Hpc.
  destruct (reachable_handshake st Hreach) as (Hinv & _ & Hb).
  assert (Hc : in_critical_section (pc (threads st s)) = true)
    by (rewrite Hpc; reflexivity).
  destruct (owner_phase st s Hinv Hc) as [Hl Hph].
  unfold phase in Hph. rewrite Hpc in Hph.
  destruct Hph as (_ & _ & _ & _ & _ & Hh).
  split; [ exact (holder_target st s Hinv Hl) | ].
  split; [ exact Hh | ].
  apply (Hb s Hl). right. split; [ exact Hh | right; exact Hpc ].
Qed.

(* the step of the holder [s] itself *)
Ltac own_step rule :=
  eexists _, _; split; [ rule; eassumption | left; reflexivity ].

(* a step of the handler on the target *)
Ltac target_step rule :=
  eexists _, _; split; [ rule; eassumption | right; reflexivity ].

(** X23. The protocol has no deadlock of its own: in every reachable state in
    which the mutex is held, the thread that holds it or the thread it
    named can take a step -- a statement of the broker, the delivery of
    the queued signal, or a statement of the handler.  (Whether the target
    is ever scheduled is outside the protocol; see the FIXME of line
    143.) *)
Theorem rendezvous_can_proceed (st : state) (s : GumThreadId) :
  reachable st ->
  lock st = Some s ->
  exists l st',
    step st l st'
    /\ (actor l = s \/ actor l = thread_id (threads st s)).
Proof.
  intros Hreach Hl.
  destruct (reachable_handshake st Hreach) as (Hinv & Ha & _).
  pose proof (proj2 (proj2 Hinv)) as Hph. rewrite Hl in Hph.
  pose proof (holder_target st s Hinv Hl) as Htgt.
  assert (Hs : dead (handler (threads st s))).
  { unfold phase in Hph.
    destruct (pc (threads st s)); try contradiction;
      repeat match type of Hph with
             | _ /\ _ => destruct Hph as [Hq Hph]
             end;
      first [ apply Hph | apply Hq; congruence | apply Hq ]. }
  destruct Hs as [Hs | [s' Hs]].
  2: { eexists _, _. split; [ eapply step_h_return; exact Hs | ].
       left. reflexivity. }
  unfold phase in Hph.
  destruct (pc (threads st s)) eqn:Hpc; try contradiction.
  - own_step ltac:(eapply step_clear_load).
  - own_step ltac:(eapply step_clear_modify).
  - own_step ltac:(eapply step_clear_store).
  - own_step ltac:(eapply step_sigaction).
  - own_step ltac:(eapply step_tgkill_failed).
  - (* the first busy-wait *)
    destruct Hph as (_ & _ & _ & [(_ & Hp & Hd) | [(_ & _ & Hh) | (Hload & _)]]).
    + destruct Hd as [Hd | [s' Hd]].
      * eexists _, _. split.
        { eapply step_deliver; [ exact Hp | exact Hd | ].
          rewrite (Ha s Hl) by (rewrite Hpc; reflexivity). reflexivity. }
        right. reflexivity.
      * target_step ltac:(eapply step_h_return).
    + destruct Hh as [Hh | Hh].
      * target_step ltac:(eapply step_h_load).
      * target_step ltac:(eapply step_h_set_load).
    + own_step ltac:(eapply step_wait_load).
  - own_step ltac:(eapply step_visit).
  - own_step ltac:(eapply step_set_modify).
  - (* the second busy-wait *)
    destruct Hph as (_ & Hmod & _ & [(_ & Hh) | (Hstore & _)]).
    + destruct Hh as [Hh | [Hh | Hh]].
      * target_step ltac:(eapply step_h_wait_modify).
      * target_step ltac:(eapply step_h_store).
      * target_step ltac:(eapply step_h_set_store).
    + own_step ltac:(eapply step_wait_store).
  - own_step ltac:(eapply step_restore).
  - own_step ltac:(eapply step_unlock).
Qed.

End HandshakeFacts.

Lemma run_11_reachable : reachable run_11.
Proof.
  pose proof run_7_reachable as R7.
  pose proof (reachable_step _ _ _ R7
                (step_deliver run_7 2 1 [] eq_refl eq_refl eq_refl)) as R8.
  pose proof (reachable_step _ _ _ R8 (step_h_load run_8 2 1 eq_refl)) as R9.
  pose proof (reachable_step _ _ _ R9 (step_h_set_load run_9 2 1 eq_refl))
    as R10.
  exact (reachable_step _ _ _ R10
           (step_wait_load run_10 1 eq_refl eq_refl eq_refl)).
Defined.

Lemma hijack_signal_finds_handler_witness :
  action run_7 = Broker.gum_hijack_action
  /\ lock run_7 = Some 1
  /\ thread_id (threads run_7 1) = 2
  /\ @nil GumThreadId = [].
Proof.
  exact (hijack_signal_finds_handler run_7 2 1 [] run_7_reachable eq_refl).
Defined.

Lemma visitor_sees_target_context_witness :
  thread_id (threads run_11 1) <> 1
  /\ handler (threads run_11 (thread_id (threads run_11 1)))
     = Some (1, h_wait_modify)
  /\ cpu_context run_11
     = X86_64.gum_cpu_context_from_linux
         (uc (threads run_11 (thread_id (threads run_11 1)))).
Proof.
  exact (visitor_sees_target_context run_11 1 run_11_reachable eq_refl).
Defined.

Lemma rendezvous_can_proceed_witness :
  exists l st',
    step run_7 l st'
    /\ (actor l = 1 \/ actor l = thread_id (threads run_7 1)).
Proof.
  exact (rendezvous_can_proceed run_7 1 run_7_reachable eq_refl).
Defined.
